(** * Campus Smart Parking Finder: the parking-state engine of
      [parking_server.py], embedded in Rocq.

    The file follows the layout of the Python module:
    - [Reservation] and [ParkingLot] (the per-lot state machine),
    - [Subscriber], the server record and its pub/sub and sensor paths,
    - the theorems about them.

    Modelling conventions.
    - Python integers are unbounded: they are [Z].
    - [datetime] values are [Z] counts of microseconds (the resolution of
      [datetime]) from [datetime.min]; [timedelta(seconds=n)] is
      [n * 1000000].  [datetime] stops at year 9999: where a sum leaves the
      range the code raises [OverflowError], and the theorems that depend on
      the sum say so with [Reservation.representable].
    - Python strings are modelled on the ASCII range ([PyStr]); the bytes a
      handler receives are decoded by [PyBytes.decode], which gives a string
      for ASCII bytes only.  The theorems about parsed text carry that
      restriction as a hypothesis.
    - Every [ParkingLot] method runs under the lot's re-entrant lock.  The
      model gives each call of a public method one clock reading [now]: all
      the [datetime.now()] reads made inside one critical section are taken at
      that instant.
    - [self.reservations] and [self.lots] are Python dicts keyed by strings:
      they are [gmap string _].  [self.subscribers] is iterated by
      [_publish_event], so it is kept as an association list in insertion
      order, which is the order a Python dict iterates in.
    - The [logger.info] calls of [ParkingLot] only write to the log and are
      left out; the warnings and errors of the server paths are recorded in
      the [log] field of the server record. *)

From Stdlib Require Import ZArith Lia Ascii String List Sorted.
From Stdlib Require Strings.Byte.
From stdpp Require Import gmap strings list fin_maps.

Local Open Scope Z_scope.

(** ** Reservation *)

Module Reservation.

Record t := mk {
  lot_id : string;
  plate : string;
  created_at : Z;
  expires_at : Z
}.

(** [timedelta(seconds=n)] in microseconds. *)
Definition timedelta_seconds (n : Z) : Z := n * 1000000.

(** [Reservation.__init__], with the reading of [datetime.now()] passed in. *)
Definition init (now : Z) (lot_id plate : string) (timeout_seconds : Z) : t :=
  {| lot_id := lot_id;
     plate := plate;
     created_at := now;
     expires_at := now + timedelta_seconds timeout_seconds |}.

(** [is_expired]: [datetime.now() > self.expires_at]. *)
Definition is_expired (now : Z) (r : t) : bool := expires_at r <? now.

(** [datetime.max], 9999-12-31T23:59:59.999999: day 3652059 is the last
    one. *)
Definition datetime_max : Z := 3652059 * 86400 * 1000000 - 1.

(** The instants a [datetime] can hold. *)
Definition valid_datetime (t : Z) : bool := (0 <=? t) && (t <=? datetime_max).

(** [timedelta(seconds=n)] exists when its number of days is within
    999999999 of 0. *)
Definition valid_timedelta_seconds (n : Z) : bool :=
  (-999999999 <=? n / 86400) && (n / 86400 <=? 999999999).

(** Whether [Reservation.__init__] called at [now] returns: [timedelta] and
    the sum [created_at + timedelta] raise [OverflowError] otherwise, and
    [init] above is the object made when they do not. *)
Definition representable (now timeout_seconds : Z) : bool :=
  valid_timedelta_seconds timeout_seconds
  && valid_datetime (now + timedelta_seconds timeout_seconds).

End Reservation.

(** ** ParkingLot *)

Module ParkingLot.

Record t := mk {
  id : string;
  capacity : Z;
  occupied : Z;
  reservations : gmap string Reservation.t
}.

(** [ParkingLot.__init__]. *)
Definition init (lot_id : string) (capacity occupied : Z) : t :=
  {| id := lot_id; capacity := capacity; occupied := occupied;
     reservations := ∅ |}.

Definition set_reservations (rs : gmap string Reservation.t) (l : t) : t :=
  {| id := id l; capacity := capacity l; occupied := occupied l;
     reservations := rs |}.

Definition set_occupied (o : Z) (l : t) : t :=
  {| id := id l; capacity := capacity l; occupied := o;
     reservations := reservations l |}.

(** The list comprehension of [_cleanup_expired_reservations]:
    [[plate for plate, res in self.reservations.items() if res.is_expired()]]. *)
Definition expired_plates (now : Z) (rs : gmap string Reservation.t)
  : list string :=
  (filter (λ pr, Reservation.is_expired now pr.2 = true) (map_to_list rs)).*1.

(** [_cleanup_expired_reservations]: [del self.reservations[plate]] for
    each plate of the comprehension, in order. *)
Definition _cleanup_expired_reservations (now : Z) (l : t) : t :=
  set_reservations
    (foldl (λ rs plate, delete plate rs) (reservations l)
           (expired_plates now (reservations l)))
    l.

(** [len(self.reservations)] as a Python integer. *)
Definition len_reservations (l : t) : Z := Z.of_nat (size (reservations l)).

(** [get_free]: the sweep, then
    [self.capacity - self.occupied - len(self.reservations)]. *)
Definition get_free (now : Z) (l : t) : Z * t :=
  let l1 := _cleanup_expired_reservations now l in
  (capacity l1 - occupied l1 - len_reservations l1, l1).

(** The strings the lot operations return. *)
Inductive status := OK | FULL | EXISTS | NOT_FOUND.

(** [reserve]: returns OK, FULL or EXISTS. *)
Definition reserve (now : Z) (plate : string) (timeout_seconds : Z) (l : t)
  : status * t :=
  let l1 := _cleanup_expired_reservations now l in
  if bool_decide (is_Some (reservations l1 !! plate)) then (EXISTS, l1)
  else
    let '(free, l2) := get_free now l1 in
    if free <=? 0 then (FULL, l2)
    else
      (OK, set_reservations
             (<[plate := Reservation.init now (id l2) plate timeout_seconds]>
                (reservations l2))
             l2).

(** [cancel]: returns OK or NOT_FOUND. *)
Definition cancel (plate : string) (l : t) : status * t :=
  if bool_decide (is_Some (reservations l !! plate))
  then (OK, set_reservations (delete plate (reservations l)) l)
  else (NOT_FOUND, l).

(** [update_occupancy]. *)
Definition update_occupancy (now : Z) (delta : Z) (l : t) : Z * t :=
  let '(old_free, l1) := get_free now l in
  let l2 := set_occupied (Z.max 0 (Z.min (capacity l1) (occupied l1 + delta))) l1 in
  let '(new_free, l3) := get_free now l2 in
  (new_free, l3).

(** The dictionary built by [to_dict]. *)
Record snapshot := mk_snapshot {
  s_id : string;
  s_capacity : Z;
  s_occupied : Z;
  s_free : Z
}.

(** [to_dict].  The dict display evaluates its entries in order, so
    ['occupied'] is read before [get_free] runs; the sweep of [get_free]
    does not touch it. *)
Definition to_dict (now : Z) (l : t) : snapshot * t :=
  let '(free, l1) := get_free now l in
  ({| s_id := id l; s_capacity := capacity l; s_occupied := occupied l;
      s_free := free |}, l1).

End ParkingLot.

(** ** Sequences of lot operations

    The five operations the frontends call on a lot, and a run of them, each
    at its own instant. *)

Inductive lot_op :=
| GetFree
| Reserve (plate : string) (ttl : Z)
| Cancel (plate : string)
| ApplyDelta (delta : Z)
| Snapshot.

#[global] Instance lot_op_eq_dec : EqDecision lot_op.
Proof. solve_decision. Defined.

Definition run_op (now : Z) (op : lot_op) (l : ParkingLot.t) : ParkingLot.t :=
  match op with
  | GetFree => (ParkingLot.get_free now l).2
  | Reserve plate ttl => (ParkingLot.reserve now plate ttl l).2
  | Cancel plate => (ParkingLot.cancel plate l).2
  | ApplyDelta delta => (ParkingLot.update_occupancy now delta l).2
  | Snapshot => (ParkingLot.to_dict now l).2
  end.

Definition run_ops (ops : list (Z * lot_op)) (l : ParkingLot.t) : ParkingLot.t :=
  foldl (λ l '(now, op), run_op now op l) l ops.

(** The free count of a lot state as it stands:
    [capacity - occupied - len(reservations)]. *)
Definition free (l : ParkingLot.t) : Z :=
  ParkingLot.capacity l - ParkingLot.occupied l - ParkingLot.len_reservations l.

(** A lot as the configuration creates it. *)
Definition valid_initial (l : ParkingLot.t) : Prop :=
  0 <= ParkingLot.occupied l <= ParkingLot.capacity l
  ∧ ParkingLot.reservations l = ∅.

(** Operations that can raise [occupied]. *)
Definition raises_occupied (op : lot_op) : bool :=
  match op with
  | ApplyDelta delta => 0 <? delta
  | _ => false
  end.

(** ** The lot operations as the specification words them

    These two definitions follow the text of the specification, not the
    code; the theorems below compare the code with them. *)

(** [clamp(x, lo, hi)]. *)
Definition clamp (x lo hi : Z) : Z :=
  if x <? lo then lo else if hi <? x then hi else x.

(** The lot with every reservation such that [now > expires_at] absent. *)
Definition swept (now : Z) (l : ParkingLot.t) : ParkingLot.t :=
  ParkingLot.set_reservations
    (filter (λ pr : string * Reservation.t, ¬ (Reservation.expires_at pr.2 < now))
            (ParkingLot.reservations l))
    l.
Arguments swept : simpl never.

(** "Sweeps expired reservations first; if [plate] already has an active
    reservation, returns EXISTS; else if [GetFree() <= 0], returns FULL; else
    inserts a new Reservation and returns OK." *)
Definition Reserve_spec (now : Z) (plate : string) (ttl : Z) (l : ParkingLot.t)
  : ParkingLot.status * ParkingLot.t :=
  let l' := swept now l in
  match ParkingLot.reservations l' !! plate with
  | Some _ => (ParkingLot.EXISTS, l')
  | None =>
      if free l' <=? 0 then (ParkingLot.FULL, l')
      else (ParkingLot.OK,
            ParkingLot.set_reservations
              (<[plate := Reservation.mk (ParkingLot.id l) plate now
                            (now + ttl * 1000000)]>
                 (ParkingLot.reservations l'))
              l')
  end.

(** ** Python strings, on the ASCII range *)

Module PyStr.

(** [str.isspace] for one ASCII character: tab to carriage return,
    the four separators 0x1c-0x1f, and the space. *)
Definition isspace (c : ascii) : bool :=
  let n := nat_of_ascii c in
  ((9 <=? n)%nat && (n <=? 13)%nat) || ((28 <=? n)%nat && (n <=? 32)%nat).

Fixpoint lstrip (s : string) : string :=
  match s with
  | EmptyString => EmptyString
  | String c s' => if isspace c then lstrip s' else s
  end.

Fixpoint rstrip (s : string) : string :=
  match s with
  | EmptyString => EmptyString
  | String c s' =>
      match rstrip s' with
      | EmptyString => if isspace c then EmptyString else String c EmptyString
      | r => String c r
      end
  end.

(** [c in s] for a character [c]. *)
Fixpoint contains (c : ascii) (s : string) : bool :=
  match s with
  | EmptyString => false
  | String c' s' => Ascii.eqb c' c || contains c s'
  end.

(** [s.strip()]. *)
Definition strip (s : string) : string := lstrip (rstrip s).

Definition snoc (s : string) (c : ascii) : string :=
  (s ++ String c EmptyString)%string.

Fixpoint split_from (cur : string) (s : string) : list string :=
  match s with
  | EmptyString => match cur with EmptyString => [] | _ => [cur] end
  | String c s' =>
      if isspace c
      then match cur with
           | EmptyString => split_from EmptyString s'
           | _ => cur :: split_from EmptyString s'
           end
      else split_from (snoc cur c) s'
  end.

(** [s.split()]: the maximal runs of non-space characters. *)
Definition split (s : string) : list string := split_from EmptyString s.

Definition upper_char (c : ascii) : ascii :=
  let n := nat_of_ascii c in
  if ((97 <=? n)%nat && (n <=? 122)%nat) then ascii_of_nat (n - 32) else c.

(** [s.upper()]. *)
Fixpoint upper (s : string) : string :=
  match s with
  | EmptyString => EmptyString
  | String c s' => String (upper_char c) (upper s')
  end.

Definition digit (c : ascii) : option Z :=
  let n := nat_of_ascii c in
  if ((48 <=? n)%nat && (n <=? 57)%nat) then Some (Z.of_nat (n - 48)) else None.

(** The digit part of a decimal literal: digits, with single underscores
    allowed between two digits. *)
Fixpoint digits (acc : Z) (after_digit : bool) (s : string) : option Z :=
  match s with
  | EmptyString => if after_digit then Some acc else None
  | String c s' =>
      if Ascii.eqb c "_"%char
      then (if after_digit then digits acc false s' else None)
      else match digit c with
           | Some d => digits (10 * acc + d) true s'
           | None => None
           end
  end.

(** [int(s)] for a token without spaces: [None] stands for [ValueError]. *)
Definition int (s : string) : option Z :=
  match s with
  | String "+"%char s' => digits 0 false s'
  | String "-"%char s' => Z.opp <$> digits 0 false s'
  | _ => digits 0 false s
  end.

(** The loop [while '\n' in buffer: line, buffer = buffer.split('\n', 1)]
    of the line-oriented handlers, by recursion on the buffer: [cur] is the
    text read since the last newline.  It returns the stripped non-empty
    lines in order and the text left in the buffer. *)
Fixpoint take_lines (cur : string) (buffer : string) : list string * string :=
  match buffer with
  | EmptyString => ([], cur)
  | String c rest =>
      if Ascii.eqb c "010"%char
      then let line := strip cur in
           let '(lines, buffer') := take_lines EmptyString rest in
           (match line with EmptyString => lines | _ => line :: lines end, buffer')
      else take_lines (snoc cur c) rest
  end.

(** The strings this module models faithfully: every character below
    U+0080.  Beyond ASCII Python knows more white space (U+0085, U+00A0,
    U+2003, ...), more digits and more letters than the functions above. *)
Fixpoint is_ascii (s : string) : bool :=
  match s with
  | EmptyString => true
  | String c s' => (nat_of_ascii c <? 128)%nat && is_ascii s'
  end.

(** The longest run of digits [int] and [str] convert on every version of
    the interpreter (the default of [sys.set_int_max_str_digits]). *)
Definition max_str_digits : Z := 4300.

End PyStr.

(** ** JSON values of the request and response envelopes

    Numbers are the integers; JSON floats do not occur in the requests the
    claims are about and are left out. *)

Unset Elimination Schemes.
Inductive json :=
| JNull
| JBool (b : bool)
| JInt (n : Z)
| JStr (s : string)
| JList (l : list json)
| JObj (l : list (string * json)).
Set Elimination Schemes.

(** [x == s] for a string literal [s]. *)
Definition json_eq_str (x : json) (s : string) : bool :=
  match x with
  | JStr s' => bool_decide (s' = s)
  | _ => false
  end.

(** [len(x)]: [None] stands for the [TypeError] of a value without length. *)
Definition py_len (x : json) : option nat :=
  match x with
  | JStr s => Some (String.length s)
  | JList l => Some (length l)
  | JObj l => Some (length l)
  | _ => None
  end.

(** [x[0]] once [len(x) >= 1] is known: [None] stands for the [KeyError] of
    an object (its keys are strings) or the [TypeError] of a scalar. *)
Definition py_item0 (x : json) : option json :=
  match x with
  | JStr (String c _) => Some (JStr (String c EmptyString))
  | JList (y :: _) => Some y
  | _ => None
  end.

(** Errors carried in the [error] field of a response ([str(e)]). *)
Inductive rpc_error :=
| MissingLotId               (* "Missing lot_id argument" *)
| MissingSubId               (* "Missing sub_id argument" *)
| UnknownLot (lot_id : json) (* "Unknown lot: ..." *)
| UnknownMethod (m : json)   (* "Unknown method: ..." *)
| UnknownSubscription        (* 'Unknown subscription' *)
| PyTypeError                (* TypeError: no len(), unhashable key *)
| PyLookupError.             (* KeyError / IndexError of args[0] *)

Record request := mk_request {
  req_rpcId : option json;
  req_method : option json;
  req_args : option json
}.

Record response := mk_response {
  rpcId : json;
  result : json;
  error : option rpc_error
}.

(** ** Bounded queue ([queue.Queue]) *)

Module Queue.

Record t (A : Type) := mk { maxsize : Z; items : list A }.
Arguments mk {A}.
Arguments maxsize {A}.
Arguments items {A}.

Definition init {A} (maxsize : Z) : t A := mk maxsize [].

Definition qsize {A} (q : t A) : Z := Z.of_nat (length (items q)).

(** [0 < maxsize <= qsize]: a queue with [maxsize <= 0] is never full. *)
Definition full {A} (q : t A) : bool :=
  (0 <? maxsize q) && (maxsize q <=? qsize q).

(** [put_nowait]: [None] stands for [queue.Full]. *)
Definition put_nowait {A} (x : A) (q : t A) : option (t A) :=
  if full q then None else Some (mk (maxsize q) (items q ++ [x])).

(** [get_nowait]: [None] stands for [queue.Empty]. *)
Definition get_nowait {A} (q : t A) : option (A * t A) :=
  match items q with
  | [] => None
  | x :: rest => Some (x, mk (maxsize q) rest)
  end.

End Queue.

(** ** Insertion-ordered dict with integer keys *)

Module PyDict.

Fixpoint get {V} (k : Z) (d : list (Z * V)) : option V :=
  match d with
  | [] => None
  | (k', v) :: d' => if decide (k' = k) then Some v else get k d'
  end.

(** [d[k] = v]: in place when the key is present, else at the end. *)
Fixpoint set {V} (k : Z) (v : V) (d : list (Z * V)) : list (Z * V) :=
  match d with
  | [] => [(k, v)]
  | (k', v') :: d' =>
      if decide (k' = k) then (k, v) :: d' else (k', v') :: set k v d'
  end.

(** [del d[k]]: the entry of key [k] is dropped, the others keep their
    order. *)
Definition del {V} (k : Z) (d : list (Z * V)) : list (Z * V) :=
  filter (λ kv, kv.1 ≠ k) d.

End PyDict.

(** ** Subscriber *)

(** The event message [f"EVENT {lot_id} {free} {datetime.now().isoformat()}"],
    by its three fields. *)
Record Event := mk_event {
  ev_lot_id : string;
  ev_free : Z;
  ev_timestamp : Z
}.

Module Subscriber.

Record t := mk {
  sub_id : Z;
  lot_id : string;
  conn : nat;
  queue : Queue.t Event;
  active : bool
}.

(** [Subscriber.__init__]. *)
Definition init (sub_id : Z) (lot_id : string) (conn : nat)
    (max_queue_size : Z) : t :=
  {| sub_id := sub_id; lot_id := lot_id; conn := conn;
     queue := Queue.init max_queue_size; active := true |}.

Definition set_queue (q : Queue.t Event) (s : t) : t :=
  {| sub_id := sub_id s; lot_id := lot_id s; conn := conn s;
     queue := q; active := active s |}.

End Subscriber.

(** ** ParkingServer *)

Module ParkingServer.

(** The entries of [config.json] the engine reads after start-up. *)
Record Config := mk_config {
  reservation_timeout_seconds : Z;
  max_queue_size : Z;
  back_pressure_policy : string
}.

(** Warnings, errors and pub/sub notices written by the server paths. *)
Inductive log_entry :=
| WarnUnknownLot (lot_id : string)     (* "Update for unknown lot: ..." *)
| ErrUpdateWorker                      (* "Update worker error: ..." *)
| WarnDroppedOldest (sub_id : Z)       (* "Dropped oldest event for subscriber ..." *)
| ErrQueueEvent (sub_id : Z)           (* "Failed to queue event for subscriber ..." *)
| InfoCreated (sub_id : Z) (lot_id : string)
| InfoUnsubscribed (sub_id : Z).

Record t := mk {
  config : Config;
  lots : gmap string ParkingLot.t;
  running : bool;
  update_queue : list string;
  subscribers : list (Z * Subscriber.t);
  next_sub_id : Z;
  log : list log_entry
}.

(** [ParkingServer.__init__]: one lot per [{id, capacity, occupied}]
    entry of the configuration, a later entry replacing an earlier one
    with the same id. *)
Definition init (cfg : Config) (lot_configs : list (string * Z * Z)) : t :=
  {| config := cfg;
     lots := foldl (λ m '(i, c, o), <[i := ParkingLot.init i c o]> m) ∅ lot_configs;
     running := false;
     update_queue := [];
     subscribers := [];
     next_sub_id := 1;
     log := [] |}.

(** [start] sets the flag the loops test. *)
Definition start (s : t) : t :=
  {| config := config s; lots := lots s; running := true;
     update_queue := update_queue s; subscribers := subscribers s;
     next_sub_id := next_sub_id s; log := log s |}.

Definition set_lots (m : gmap string ParkingLot.t) (s : t) : t :=
  {| config := config s; lots := m; running := running s;
     update_queue := update_queue s; subscribers := subscribers s;
     next_sub_id := next_sub_id s; log := log s |}.

Definition set_update_queue (q : list string) (s : t) : t :=
  {| config := config s; lots := lots s; running := running s;
     update_queue := q; subscribers := subscribers s;
     next_sub_id := next_sub_id s; log := log s |}.

Definition set_subscribers (d : list (Z * Subscriber.t)) (s : t) : t :=
  {| config := config s; lots := lots s; running := running s;
     update_queue := update_queue s; subscribers := d;
     next_sub_id := next_sub_id s; log := log s |}.

Definition set_next_sub_id (n : Z) (s : t) : t :=
  {| config := config s; lots := lots s; running := running s;
     update_queue := update_queue s; subscribers := subscribers s;
     next_sub_id := n; log := log s |}.

Definition add_log (es : list log_entry) (s : t) : t :=
  {| config := config s; lots := lots s; running := running s;
     update_queue := update_queue s; subscribers := subscribers s;
     next_sub_id := next_sub_id s; log := log s ++ es |}.

(** *** Sensor connections *)

(** ["ACK\n"]. *)
Definition ACK_line : string := String.append "ACK" (String "010"%char EmptyString).

(** One pass of the body of the [while self.running] loop of
    [_handle_sensor_client] on a received, decoded chunk [data]: every
    complete non-empty line is put on [update_queue] and answered with
    ["ACK\n"].  Returns the new buffer and the lines sent on the
    connection. *)
Definition _handle_sensor_client_recv (buffer data : string) (s : t)
  : (string * list string) * t :=
  let '(lines, buffer') := PyStr.take_lines EmptyString (buffer ++ data)%string in
  ((buffer', (λ _, ACK_line) <$> lines),
   set_update_queue (update_queue s ++ lines) s).

(** *** Publication *)

(** The body of the loop of [_publish_event] for one subscriber: the
    subscriber after the attempt and what is logged. *)
Definition enqueue_event (policy : string) (lot_id : string) (ev : Event)
    (sub : Subscriber.t) : Subscriber.t * list log_entry :=
  if bool_decide (Subscriber.lot_id sub = lot_id) && Subscriber.active sub then
    if bool_decide (policy = "drop_oldest") then
      match Queue.put_nowait ev (Subscriber.queue sub) with
      | Some q => (Subscriber.set_queue q sub, [])
      | None =>
          match Queue.get_nowait (Subscriber.queue sub) with
          | Some (_, q1) =>
              match Queue.put_nowait ev q1 with
              | Some q2 => (Subscriber.set_queue q2 sub,
                            [WarnDroppedOldest (Subscriber.sub_id sub)])
              | None => (Subscriber.set_queue q1 sub, [])
              end
          | None => (sub, [])
          end
      end
    else
      match Queue.put_nowait ev (Subscriber.queue sub) with
      | Some q => (Subscriber.set_queue q sub, [])
      | None => (sub, [ErrQueueEvent (Subscriber.sub_id sub)])
      end
  else (sub, []).

Fixpoint publish_loop (policy : string) (lot_id : string) (ev : Event)
    (d : list (Z * Subscriber.t))
  : list (Z * Subscriber.t) * list log_entry :=
  match d with
  | [] => ([], [])
  | (k, sub) :: d' =>
      let '(sub', es) := enqueue_event policy lot_id ev sub in
      let '(d'', es') := publish_loop policy lot_id ev d' in
      ((k, sub') :: d'', es ++ es')
  end.

(** [_publish_event], with the reading of [datetime.now()] passed in. *)
Definition _publish_event (now : Z) (lot_id : string) (free : Z) (s : t) : t :=
  let event_msg := mk_event lot_id free now in
  let '(d, es) := publish_loop (back_pressure_policy (config s)) lot_id
                    event_msg (subscribers s) in
  add_log es (set_subscribers d s).

(** *** Update workers *)

(** One iteration of the loop of [_update_worker].  [t_read] is the
    instant of the worker's own [get_free], [t_update] that of
    [update_occupancy], [t_publish] that of [_publish_event].  Returns the
    new state and the calls of [_publish_event] this iteration made, as
    [(lot_id, free)] pairs in order. *)
Definition _update_worker_step (t_read t_update t_publish : Z) (s : t)
  : t * list (string * Z) :=
  match update_queue s with
  | [] => (s, [])                                     (* Empty: continue *)
  | update_cmd :: q =>
      let s := set_update_queue q s in
      match PyStr.split update_cmd with
      | [p0; p1; p2] =>
          if bool_decide (PyStr.upper p0 = "UPDATE") then
            let lot_id := p1 in
            match PyStr.int p2 with
            | None => (add_log [ErrUpdateWorker] s, [])   (* ValueError *)
            | Some delta =>
                match lots s !! lot_id with
                | Some lot =>
                    let '(old_free, lot1) := ParkingLot.get_free t_read lot in
                    let '(new_free, lot2) :=
                      ParkingLot.update_occupancy t_update delta lot1 in
                    let s := set_lots (<[lot_id := lot2]> (lots s)) s in
                    if bool_decide (old_free ≠ new_free)
                    then (_publish_event t_publish lot_id new_free s,
                          [(lot_id, new_free)])
                    else (s, [])
                | None => (add_log [WarnUnknownLot lot_id] s, [])
                end
            end
          else (s, [])
      | _ => (s, [])
      end
  end.

(** *** Pub/sub control channel *)

Definition ok (rpc_id : json) (r : json) : response :=
  {| rpcId := rpc_id; result := r; error := None |}.

(** The [except Exception as e] clause of the request processors. *)
Definition failed (rpc_id : json) (e : rpc_error) : response :=
  {| rpcId := rpc_id; result := JNull; error := Some e |}.

(** [lot_id not in self.lots] for a decoded argument: [None] stands for
    the [TypeError] of an unhashable key. *)
Definition lots_lookup (x : json) (s : t) : option (option string) :=
  match x with
  | JStr k => Some (if bool_decide (is_Some (lots s !! k)) then Some k else None)
  | JList _ | JObj _ => None
  | _ => Some None
  end.

(** [sub_id in self.subscribers] for a decoded argument: the key found,
    if any; [None] stands for the [TypeError] of an unhashable key.
    [True] and [False] are the keys [1] and [0]. *)
Definition subscribers_lookup (x : json) (s : t) : option (option Z) :=
  let find k := Some (match PyDict.get k (subscribers s) with
                      | Some _ => Some k
                      | None => None
                      end) in
  match x with
  | JInt k => find k
  | JBool b => find (if b then 1 else 0)
  | JList _ | JObj _ => None
  | _ => Some None
  end.

(** [_process_pubsub_request]. *)
Definition _process_pubsub_request (req : request) (conn : nat) (s : t)
  : response * t :=
  let rpc_id := default (JInt 0) (req_rpcId req) in
  let method := default (JStr "") (req_method req) in
  let args := default (JList []) (req_args req) in
  if json_eq_str method "subscribe" then
    match py_len args with
    | None => (failed rpc_id PyTypeError, s)
    | Some n =>
        if (n <? 1)%nat then (failed rpc_id MissingLotId, s)
        else
          match py_item0 args with
          | None => (failed rpc_id PyLookupError, s)
          | Some lot_arg =>
              match lots_lookup lot_arg s with
              | None => (failed rpc_id PyTypeError, s)
              | Some None => (failed rpc_id (UnknownLot lot_arg), s)
              | Some (Some lot_id) =>
                  let sub_id := next_sub_id s in
                  let s := set_next_sub_id (next_sub_id s + 1) s in
                  let max_queue := max_queue_size (config s) in
                  let subscriber := Subscriber.init sub_id lot_id conn max_queue in
                  let s := set_subscribers
                             (PyDict.set sub_id subscriber (subscribers s)) s in
                  (ok rpc_id (JInt sub_id), add_log [InfoCreated sub_id lot_id] s)
              end
          end
    end
  else if json_eq_str method "unsubscribe" then
    match py_len args with
    | None => (failed rpc_id PyTypeError, s)
    | Some n =>
        if (n <? 1)%nat then (failed rpc_id MissingSubId, s)
        else
          match py_item0 args with
          | None => (failed rpc_id PyLookupError, s)
          | Some sub_arg =>
              match subscribers_lookup sub_arg s with
              | None => (failed rpc_id PyTypeError, s)
              | Some (Some sub_id) =>
                  (ok rpc_id (JBool true),
                   add_log [InfoUnsubscribed sub_id]
                     (set_subscribers (PyDict.del sub_id (subscribers s)) s))
              | Some None =>
                  ({| rpcId := rpc_id; result := JBool false;
                      error := Some UnknownSubscription |}, s)
              end
          end
    end
  else (failed rpc_id (UnknownMethod method), s).

(** *** Delivery *)

(** [subscriber.queue.get(timeout=1.0)] in the loop of
    [_handle_subscription_events]: the event sent next on the connection
    of [sub_id], if its queue holds one. *)
Definition next_event (sub_id : Z) (s : t) : option Event * t :=
  match PyDict.get sub_id (subscribers s) with
  | Some sub =>
      if running s && Subscriber.active sub then
        match Queue.get_nowait (Subscriber.queue sub) with
        | Some (ev, q) =>
            (Some ev,
             set_subscribers
               (PyDict.set sub_id (Subscriber.set_queue q sub) (subscribers s)) s)
        | None => (None, s)
        end
      else (None, s)
  | None => (None, s)
  end.

(** The [finally] clause of [_handle_subscription_events]. *)
Definition teardown (sub_id : Z) (s : t) : t :=
  match PyDict.get sub_id (subscribers s) with
  | Some _ => set_subscribers (PyDict.del sub_id (subscribers s)) s
  | None => s
  end.

End ParkingServer.

(** ** Runs of the server

    The steps the server threads take on the shared state, one at a time. *)

Inductive action :=
| PubsubRequest (req : request) (conn : nat)
| SensorRecv (buffer data : string)
| WorkerStep (t_read t_update t_publish : Z)
| NextEvent (sub_id : Z)
| Teardown (sub_id : Z).

(** What a step hands back to its caller. *)
Inductive output :=
| Replied (req : request) (resp : response)
| Sent (lines : list string)
| Published (calls : list (string * Z))
| Delivered (ev : option Event)
| Done.

Definition step (a : action) (s : ParkingServer.t) : output * ParkingServer.t :=
  match a with
  | PubsubRequest req conn =>
      let '(resp, s') := ParkingServer._process_pubsub_request req conn s in
      (Replied req resp, s')
  | SensorRecv buffer data =>
      let '((_, sent), s') :=
        ParkingServer._handle_sensor_client_recv buffer data s in
      (Sent sent, s')
  | WorkerStep t_read t_update t_publish =>
      let '(s', calls) :=
        ParkingServer._update_worker_step t_read t_update t_publish s in
      (Published calls, s')
  | NextEvent sub_id =>
      let '(ev, s') := ParkingServer.next_event sub_id s in (Delivered ev, s')
  | Teardown sub_id => (Done, ParkingServer.teardown sub_id s)
  end.

Fixpoint run (acts : list action) (s : ParkingServer.t)
  : list output * ParkingServer.t :=
  match acts with
  | [] => ([], s)
  | a :: acts' =>
      let '(o, s1) := step a s in
      let '(os, s2) := run acts' s1 in
      (o :: os, s2)
  end.

(** The subscription id a reply carries, when it answers a subscribe
    request without error. *)
Definition subscribed_id (o : output) : option Z :=
  match o with
  | Replied req resp =>
      if json_eq_str (default (JStr "") (req_method req)) "subscribe" then
        match error resp, result resp with
        | None, JInt n => Some n
        | _, _ => None
        end
      else None
  | _ => None
  end.

(** The ids handed out along a run, in order. *)
Definition subscribed_ids (os : list output) : list Z :=
  omap subscribed_id os.

(** A sequence of publications for one lot, each [(now, free)]. *)
Definition publish_each (lot_id : string) (evs : list (Z * Z))
    (s : ParkingServer.t) : ParkingServer.t :=
  foldl (λ s '(now, free), ParkingServer._publish_event now lot_id free s) s evs.

(** Requests as the clients build them. *)
Definition subscribe_request (rpc_id : Z) (lot_id : string) : request :=
  {| req_rpcId := Some (JInt rpc_id);
     req_method := Some (JStr "subscribe");
     req_args := Some (JList [JStr lot_id]) |}.

Definition unsubscribe_request (rpc_id : Z) (sub_id : Z) : request :=
  {| req_rpcId := Some (JInt rpc_id);
     req_method := Some (JStr "unsubscribe");
     req_args := Some (JList [JInt sub_id]) |}.

(** The event of a publication [(now, free)] for [lot_id]. *)
Definition event_of (lot_id : string) (p : Z * Z) : Event :=
  mk_event lot_id p.2 p.1.

(** The loop body of [_publish_event] applied to one subscriber for a
    sequence of events. *)
Definition enqueue_each (policy lot_id : string) (evs : list Event)
    (sub : Subscriber.t) : Subscriber.t :=
  foldl (λ sub ev, (ParkingServer.enqueue_event policy lot_id ev sub).1) sub evs.

(** ** Scenarios

    The concrete lots and servers the examples below are run on. *)

(** A server with two lots, started. *)
Definition demo_config : ParkingServer.Config :=
  {| ParkingServer.reservation_timeout_seconds := 300;
     ParkingServer.max_queue_size := 3;
     ParkingServer.back_pressure_policy := "drop_oldest" |}.

Definition demo_server : ParkingServer.t :=
  ParkingServer.start
    (ParkingServer.init demo_config [("LOT-A", 10, 8); ("LOT-B", 5, 0)]).

(** Lot A of the scenarios: capacity 10, 8 occupied. *)
Definition lot_8_of_10 : ParkingLot.t := ParkingLot.init "LOT-A" 10 8.

(** Two reservations, then a sensor reports two more cars. *)
Definition two_reserved_then_two_arrive : list (Z * lot_op) :=
  [(0, Reserve "X" 300); (1, Reserve "Y" 300); (2, ApplyDelta 2)].

(** Capacity 10, 8 occupied, plate "X" reserved at instant 0 for 5
    seconds, and no call on the lot since. *)
Definition lot_with_stale_X : ParkingLot.t :=
  (ParkingLot.reserve 0 "X" 5 lot_8_of_10).2.

(** The reply to an unsubscribe of an id that is not registered. *)
Definition unknown_subscription_reply (rpc_id : Z) : response :=
  {| rpcId := JInt rpc_id; result := JBool false;
     error := Some UnknownSubscription |}.

(** The server of scenario 3: lot A at 8 of 10, one subscriber of LOT-A
    and one of LOT-B, and ["UPDATE LOT-A -2"] waiting in the update queue. *)
Definition scenario3_server : ParkingServer.t :=
  (run [PubsubRequest (subscribe_request 1 "LOT-A") 0;
        PubsubRequest (subscribe_request 2 "LOT-B") 1;
        SensorRecv "" ("UPDATE LOT-A -2" ++ String "010"%char "")%string]
     demo_server).2.

(** A server with one subscriber of LOT-A, its queue of size 3 empty. *)
Definition one_subscriber_server : ParkingServer.t :=
  (ParkingServer._process_pubsub_request (subscribe_request 1 "LOT-A") 0
     demo_server).2.

(** The same with a queue of size 1 and a policy other than [drop_oldest]. *)
Definition blocking_server : ParkingServer.t :=
  (ParkingServer._process_pubsub_request (subscribe_request 1 "LOT-A") 0
     (ParkingServer.start
        (ParkingServer.init
           {| ParkingServer.reservation_timeout_seconds := 300;
              ParkingServer.max_queue_size := 1;
              ParkingServer.back_pressure_policy := "block" |}
           [("LOT-A", 10, 8)]))).2.

(** ** The sensor client ([sensor_simulator.py])

    [send_update] writes [f"UPDATE {lot_id} {delta}\n"]: the decimal text of
    an integer is needed to build it. *)

Module PyFmt.

(** The character of a decimal digit. *)
Definition digit_char (d : Z) : ascii := ascii_of_nat (48 + Z.to_nat d).

(** The decimal digits of [n >= 0] in front of [acc], most significant
    first; [fuel] bounds the number of digits. *)
Fixpoint digits_of (fuel : nat) (n : Z) (acc : string) : string :=
  match fuel with
  | O => acc
  | S fuel' =>
      let acc' := String (digit_char (n mod 10)) acc in
      if n <? 10 then acc' else digits_of fuel' (n / 10) acc'
  end.

(** A number of digits that is enough for [n]: its binary length. *)
Definition enough_digits (n : Z) : nat := S (Z.to_nat (Z.log2 n)).

(** [str(n)] for an integer. *)
Definition str_int (n : Z) : string :=
  if n <? 0 then String "-"%char (digits_of (enough_digits (- n)) (- n) EmptyString)
  else digits_of (enough_digits n) n EmptyString.

End PyFmt.

Module SensorSimulator.

(** The text [send_update] sends: [f"UPDATE {lot_id} {delta}\n"]. *)
Definition update_command (lot_id : string) (delta : Z) : string :=
  ("UPDATE " ++ lot_id ++ " " ++ PyFmt.str_int delta
     ++ String "010"%char EmptyString)%string.

End SensorSimulator.

(** A string without any whitespace character. *)
Fixpoint no_space (s : string) : bool :=
  match s with
  | EmptyString => true
  | String c s' => negb (PyStr.isspace c) && no_space s'
  end.

(** ** The text and RPC frontends

    Both frontends call the lot operations of one lot per request, except
    the listing, which visits every lot.  [clock i] is the instant at which
    the critical section on lot [i] runs during the request.  The dict
    [self.lots] is a [gmap], which does not keep the insertion order of its
    keys: the listing takes that order as [order]. *)

Module Frontends.

(** [x[1]] once [len(x) >= 2] is known. *)
Definition py_item1 (x : json) : option json :=
  match x with
  | JStr (String _ (String c _)) => Some (JStr (String c EmptyString))
  | JList (_ :: y :: _) => Some y
  | _ => None
  end.

(** The strings [reserve] and [cancel] return. *)
Definition status_str (st : ParkingLot.status) : string :=
  match st with
  | ParkingLot.OK => "OK"
  | ParkingLot.FULL => "FULL"
  | ParkingLot.EXISTS => "EXISTS"
  | ParkingLot.NOT_FOUND => "NOT_FOUND"
  end.

(** The dictionary of [to_dict] as a JSON object. *)
Definition snapshot_json (sn : ParkingLot.snapshot) : json :=
  JObj [("id", JStr (ParkingLot.s_id sn));
        ("capacity", JInt (ParkingLot.s_capacity sn));
        ("occupied", JInt (ParkingLot.s_occupied sn));
        ("free", JInt (ParkingLot.s_free sn))].

(** [[lot.to_dict() for lot in self.lots.values()]]: the dictionaries, and
    the lots after the sweeps of [to_dict]. *)
Fixpoint lots_to_dicts (clock : string → Z) (order : list string)
    (m : gmap string ParkingLot.t) : list json * gmap string ParkingLot.t :=
  match order with
  | [] => ([], m)
  | i :: order' =>
      match m !! i with
      | Some lot =>
          let '(sn, lot') := ParkingLot.to_dict (clock i) lot in
          let '(js, m') := lots_to_dicts clock order' (<[i := lot']> m) in
          (snapshot_json sn :: js, m')
      | None => lots_to_dicts clock order' m
      end
  end.

(** What [_process_text_command] returns: a line of text, or the text
    [json.dumps] makes of a value. *)
Inductive text_reply :=
| Text (line : string)
| Dumps (j : json).

(** [_process_text_command]. *)
Definition _process_text_command (order : list string) (clock : string → Z)
    (command : string) (s : ParkingServer.t) : text_reply * ParkingServer.t :=
  match PyStr.split command with
  | [] => (Text "ERROR: Empty command", s)
  | p0 :: args =>
      let cmd := PyStr.upper p0 in
      if bool_decide (cmd = "PING") then (Text "PONG", s)
      else if bool_decide (cmd = "LOTS") then
        let '(js, m) := lots_to_dicts clock order (ParkingServer.lots s) in
        (Dumps (JList js), ParkingServer.set_lots m s)
      else if bool_decide (cmd = "AVAIL") then
        match args with
        | [lot_id] =>
            match ParkingServer.lots s !! lot_id with
            | None => (Text "ERROR: Unknown lot", s)
            | Some lot =>
                let '(n, lot') := ParkingLot.get_free (clock lot_id) lot in
                (Text (PyFmt.str_int n),
                 ParkingServer.set_lots (<[lot_id := lot']> (ParkingServer.lots s)) s)
            end
        | _ => (Text "ERROR: AVAIL requires lot_id", s)
        end
      else if bool_decide (cmd = "RESERVE") then
        match args with
        | [lot_id; plate] =>
            match ParkingServer.lots s !! lot_id with
            | None => (Text "ERROR: Unknown lot", s)
            | Some lot =>
                let '(st, lot') :=
                  ParkingLot.reserve (clock lot_id) plate
                    (ParkingServer.reservation_timeout_seconds
                       (ParkingServer.config s)) lot in
                (Text (status_str st),
                 ParkingServer.set_lots (<[lot_id := lot']> (ParkingServer.lots s)) s)
            end
        | _ => (Text "ERROR: RESERVE requires lot_id and plate", s)
        end
      else if bool_decide (cmd = "CANCEL") then
        match args with
        | [lot_id; plate] =>
            match ParkingServer.lots s !! lot_id with
            | None => (Text "ERROR: Unknown lot", s)
            | Some lot =>
                let '(st, lot') := ParkingLot.cancel plate lot in
                (Text (status_str st),
                 ParkingServer.set_lots (<[lot_id := lot']> (ParkingServer.lots s)) s)
            end
        | _ => (Text "ERROR: CANCEL requires lot_id and plate", s)
        end
      else (Text ("ERROR: Unknown command: " ++ cmd)%string, s)
  end.

(** One pass of the loop of [_handle_text_protocol_client] on a received
    chunk: every complete non-empty line is processed in order and its reply
    sent.  [clocks] gives the clock of each command by its position.  Returns
    the new buffer and the replies. *)
Fixpoint text_commands (order : list string) (clocks : nat → string → Z)
    (k : nat) (lines : list string) (s : ParkingServer.t)
  : list text_reply * ParkingServer.t :=
  match lines with
  | [] => ([], s)
  | line :: lines' =>
      let '(r, s1) := _process_text_command order (clocks k) line s in
      let '(rs, s2) := text_commands order clocks (S k) lines' s1 in
      (r :: rs, s2)
  end.

Definition _handle_text_protocol_client_recv (order : list string)
    (clocks : nat → string → Z) (buffer data : string) (s : ParkingServer.t)
  : (string * list text_reply) * ParkingServer.t :=
  let '(lines, buffer') := PyStr.take_lines EmptyString (buffer ++ data)%string in
  let '(rs, s') := text_commands order clocks 0 lines s in
  ((buffer', rs), s').

(** Errors of the RPC channel ([str(e)] in the [error] field). *)
Inductive rpc_channel_error :=
| MissingArguments                    (* "Missing arguments" *)
| UsePubsubConnection (method : string)
                                      (* "Use pub/sub connection for ..." *)
| Other (e : rpc_error).

Record rpc_response := mk_rpc_response {
  rpc_rpcId : json;
  rpc_result : json;
  rpc_error : option rpc_channel_error
}.

Definition rpc_ok (rpc_id : json) (r : json) : rpc_response :=
  {| rpc_rpcId := rpc_id; rpc_result := r; rpc_error := None |}.

(** The [except Exception as e] clause of [_process_rpc_request]. *)
Definition rpc_failed (rpc_id : json) (e : rpc_channel_error) : rpc_response :=
  {| rpc_rpcId := rpc_id; rpc_result := JNull; rpc_error := Some e |}.

(** The checks [reserve] and [cancel] of the RPC channel share:
    [len(args) < 2], [args[0]], [args[1]], [lot_id not in self.lots]. *)
Definition two_args (args : json) (s : ParkingServer.t)
  : rpc_channel_error + (string * ParkingLot.t * json) :=
  match py_len args with
  | None => inl (Other PyTypeError)
  | Some n =>
      if (n <? 2)%nat then inl MissingArguments
      else
        match py_item0 args, py_item1 args with
        | Some lot_arg, Some plate_arg =>
            match ParkingServer.lots_lookup lot_arg s with
            | None => inl (Other PyTypeError)
            | Some None => inl (Other (UnknownLot lot_arg))
            | Some (Some lot_id) =>
                match ParkingServer.lots s !! lot_id with
                | Some lot => inr (lot_id, lot, plate_arg)
                | None => inl (Other (UnknownLot lot_arg))
                end
            end
        | _, _ => inl (Other PyLookupError)
        end
  end.

(** [_process_rpc_request].  The reservations of the model are keyed by
    strings: a [reserve] whose plate argument is a number, a boolean or null
    (which Python would use as a dict key) is outside the model, and the
    result is [None] there. *)
Definition _process_rpc_request (order : list string) (clock : string → Z)
    (req : request) (s : ParkingServer.t)
  : option (rpc_response * ParkingServer.t) :=
  let rpc_id := default (JInt 0) (req_rpcId req) in
  let method := default (JStr "") (req_method req) in
  let args := default (JList []) (req_args req) in
  if json_eq_str method "getLots" then
    let '(js, m) := lots_to_dicts clock order (ParkingServer.lots s) in
    Some (rpc_ok rpc_id (JList js), ParkingServer.set_lots m s)
  else if json_eq_str method "getAvailability" then
    match py_len args with
    | None => Some (rpc_failed rpc_id (Other PyTypeError), s)
    | Some n =>
        if (n <? 1)%nat then Some (rpc_failed rpc_id (Other MissingLotId), s)
        else
          match py_item0 args with
          | None => Some (rpc_failed rpc_id (Other PyLookupError), s)
          | Some lot_arg =>
              match ParkingServer.lots_lookup lot_arg s with
              | None => Some (rpc_failed rpc_id (Other PyTypeError), s)
              | Some None =>
                  Some (rpc_failed rpc_id (Other (UnknownLot lot_arg)), s)
              | Some (Some lot_id) =>
                  match ParkingServer.lots s !! lot_id with
                  | None =>
                      Some (rpc_failed rpc_id (Other (UnknownLot lot_arg)), s)
                  | Some lot =>
                      let '(n, lot') := ParkingLot.get_free (clock lot_id) lot in
                      Some (rpc_ok rpc_id (JInt n),
                            ParkingServer.set_lots
                              (<[lot_id := lot']> (ParkingServer.lots s)) s)
                  end
              end
          end
    end
  else if json_eq_str method "reserve" then
    match two_args args s with
    | inl e => Some (rpc_failed rpc_id e, s)
    | inr (lot_id, lot, JStr plate) =>
        let '(st, lot') :=
          ParkingLot.reserve (clock lot_id) plate
            (ParkingServer.reservation_timeout_seconds (ParkingServer.config s))
            lot in
        Some (rpc_ok rpc_id
                (JBool (bool_decide (status_str st = "OK"))),
              ParkingServer.set_lots (<[lot_id := lot']> (ParkingServer.lots s)) s)
    | inr (lot_id, lot, (JList _ | JObj _)) =>
        (* [plate in self.reservations] raises TypeError after the sweep *)
        Some (rpc_failed rpc_id (Other PyTypeError),
              ParkingServer.set_lots
                (<[lot_id := ParkingLot._cleanup_expired_reservations
                               (clock lot_id) lot]> (ParkingServer.lots s)) s)
    | inr _ => None
    end
  else if json_eq_str method "cancel" then
    match two_args args s with
    | inl e => Some (rpc_failed rpc_id e, s)
    | inr (lot_id, lot, JStr plate) =>
        let '(st, lot') := ParkingLot.cancel plate lot in
        Some (rpc_ok rpc_id
                (JBool (bool_decide (status_str st = "OK"))),
              ParkingServer.set_lots (<[lot_id := lot']> (ParkingServer.lots s)) s)
    | inr (lot_id, lot, (JList _ | JObj _)) =>
        Some (rpc_failed rpc_id (Other PyTypeError), s)
    | inr _ =>
        (* a key that is not a string is in no dict of the model *)
        Some (rpc_ok rpc_id (JBool false), s)
    end
  else if json_eq_str method "subscribe" then
    Some (rpc_failed rpc_id (UsePubsubConnection "subscribe"), s)
  else if json_eq_str method "unsubscribe" then
    Some (rpc_failed rpc_id (UsePubsubConnection "unsubscribe"), s)
  else Some (rpc_failed rpc_id (Other (UnknownMethod method)), s).

End Frontends.

(** ** Length-prefixed framing

    The RPC and pub/sub handlers, and both clients, read a 4-byte
    big-endian length and then that many bytes with [_recv_exactly]; every
    message and event is written as [struct.pack('!I', len(b)) + b].

    A connection is the list of the segments still to be received, in
    order; [recv] returns a prefix of the first one, and [b''] once the list
    is empty (the peer has closed). *)

Module Wire.

Abbreviation byte := Corelib.Init.Byte.byte.

Definition byte_of_Z (z : Z) : byte :=
  default Corelib.Init.Byte.x00 (Stdlib.Strings.Byte.of_N (Z.to_N z)).

Definition Z_of_byte (b : byte) : Z := Z.of_N (Stdlib.Strings.Byte.to_N b).

(** [struct.pack('!I', n)]: [None] stands for [struct.error]. *)
Definition pack_u32 (n : Z) : option (list byte) :=
  if (0 <=? n) && (n <? 2 ^ 32)
  then Some [byte_of_Z (n / 2 ^ 24); byte_of_Z (n / 2 ^ 16 mod 256);
             byte_of_Z (n / 2 ^ 8 mod 256); byte_of_Z (n mod 256)]
  else None.

(** [struct.unpack('!I', b)[0]]: [None] stands for [struct.error]. *)
Definition unpack_u32 (b : list byte) : option Z :=
  match b with
  | [b3; b2; b1; b0] =>
      Some (Z_of_byte b3 * 2 ^ 24 + Z_of_byte b2 * 2 ^ 16
            + Z_of_byte b1 * 2 ^ 8 + Z_of_byte b0)
  | _ => None
  end.

(** [struct.pack('!I', len(payload)) + payload]. *)
Definition frame (payload : list byte) : option (list byte) :=
  (λ prefix, prefix ++ payload) <$> pack_u32 (Z.of_nat (length payload)).

Definition connection := list (list byte).

(** [conn.recv(k)]. *)
Definition recv (k : nat) (conn : connection) : list byte * connection :=
  match conn with
  | [] => ([], [])
  | c :: rest =>
      if (length c <=? k)%nat then (c, rest)
      else (take k c, drop k c :: rest)
  end.

(** The loop of [_recv_exactly]; each round receives at least one byte, so
    [n] rounds are enough. *)
Fixpoint recv_loop (rounds : nat) (n : nat) (data : list byte)
    (conn : connection) : option (list byte) * connection :=
  if (length data <? n)%nat then
    match rounds with
    | O => (None, conn)
    | S rounds' =>
        let '(chunk, conn') := recv (n - length data) conn in
        match chunk with
        | [] => (None, conn')
        | _ => recv_loop rounds' n (data ++ chunk) conn'
        end
    end
  else (Some data, conn).

(** [_recv_exactly(conn, n)]. *)
Definition _recv_exactly (n : nat) (conn : connection)
  : option (list byte) * connection :=
  recv_loop n n [] conn.

(** The reads at the top of the loops of [_handle_rpc_client],
    [_handle_pubsub_client] and the clients: the payload of the next frame,
    or [None] where the code leaves the loop. *)
Definition read_frame (conn : connection) : option (list byte) * connection :=
  match _recv_exactly 4 conn with
  | (None, conn1) => (None, conn1)
  | (Some [], conn1) => (None, conn1)
  | (Some length_bytes, conn1) =>
      match unpack_u32 length_bytes with
      | None => (None, conn1)
      | Some msg_length =>
          match _recv_exactly (Z.to_nat msg_length) conn1 with
          | (None, conn2) => (None, conn2)
          | (Some [], conn2) => (None, conn2)
          | (Some msg_bytes, conn2) => (Some msg_bytes, conn2)
          end
      end
  end.

End Wire.

(** A stream as the socket hands it over: segments that each hold at least
    one byte, then the end of the stream. *)
Definition segments_ok (conn : Wire.connection) : Prop :=
  Forall (λ c, c ≠ []) conn.

(** ** Bytes and text

    The line-oriented handlers decode every chunk [recv] returns on its
    own, strictly, as UTF-8. *)

Module PyBytes.

Definition is_ascii_byte (b : Wire.byte) : bool := Wire.Z_of_byte b <? 128.

(** [b.decode('utf-8')] for bytes below 0x80, which decode one by one to
    the characters of the same code.  [None] stands for what the model leaves
    out: a chunk with a byte from 0x80 on, where the code makes characters
    beyond ASCII or raises [UnicodeDecodeError] (a chunk that ends inside a
    character does), which ends the connection. *)
Definition decode (b : list Wire.byte) : option string :=
  if forallb is_ascii_byte b
  then Some (Stdlib.Strings.String.string_of_list_byte b)
  else None.

(** [s.encode('utf-8')] for an ASCII string; [None] for the strings the
    model leaves out. *)
Definition encode (s : string) : option (list Wire.byte) :=
  if PyStr.is_ascii s
  then Some (Stdlib.Strings.String.list_byte_of_string s)
  else None.

End PyBytes.

(** The most bytes one [conn.recv(1024)] of the line-oriented handlers
    returns. *)
Definition recv_size : nat := 1024.

(** One pass of the [while self.running] loop of [_handle_sensor_client]
    from its [recv]: [chunk] is what [conn.recv(1024)] returned, at most
    [recv_size] bytes.  The result is [None] where the chunk is outside the
    model, [Some (None, s)] where the loop is left ([if not data: break]),
    else the new buffer and the lines sent. *)
Definition _handle_sensor_client (buffer : string) (chunk : list Wire.byte)
    (s : ParkingServer.t)
  : option (option (string * list string) * ParkingServer.t) :=
  match PyBytes.decode chunk with
  | None => None
  | Some EmptyString => Some (None, s)
  | Some data =>
      let '(out, s') := ParkingServer._handle_sensor_client_recv buffer data s in
      Some (Some out, s')
  end.

(** The same for [_handle_text_protocol_client]. *)
Definition _handle_text_protocol_client (order : list string)
    (clocks : nat → string → Z) (buffer : string) (chunk : list Wire.byte)
    (s : ParkingServer.t)
  : option (option (string * list Frontends.text_reply) * ParkingServer.t) :=
  match PyBytes.decode chunk with
  | None => None
  | Some EmptyString => Some (None, s)
  | Some data =>
      let '(out, s') :=
        Frontends._handle_text_protocol_client_recv order clocks buffer data s in
      Some (Some out, s')
  end.

(** ** Runs with the frontends *)

Inductive frontend_action :=
| Core (a : action)
| TextCommand (clock : string → Z) (command : string)
| RpcRequest (clock : string → Z) (req : request).

(** One step of the server; [None] where the RPC model does not apply. *)
Definition serve_step (order : list string) (a : frontend_action)
    (s : ParkingServer.t) : option ParkingServer.t :=
  match a with
  | Core a => Some (step a s).2
  | TextCommand clock command =>
      Some (Frontends._process_text_command order clock command s).2
  | RpcRequest clock req =>
      snd <$> Frontends._process_rpc_request order clock req s
  end.

Fixpoint serve (order : list string) (acts : list frontend_action)
    (s : ParkingServer.t) : option ParkingServer.t :=
  match acts with
  | [] => Some s
  | a :: acts' =>
      match serve_step order a s with
      | Some s' => serve order acts' s'
      | None => None
      end
  end.

(** ** Invariants of the registries *)

(** What every operation keeps of a lot: its id, its capacity, and
    0 <= occupied <= capacity if it held. *)
Definition lot_kept (l l' : ParkingLot.t) : Prop :=
  ParkingLot.id l' = ParkingLot.id l
  ∧ ParkingLot.capacity l' = ParkingLot.capacity l
  ∧ (0 <= ParkingLot.occupied l <= ParkingLot.capacity l →
     0 <= ParkingLot.occupied l' <= ParkingLot.capacity l').

(** The same lots are registered, each one kept. *)
Definition registry_kept (m m' : gmap string ParkingLot.t) : Prop :=
  ∀ i, match m !! i, m' !! i with
       | Some l, Some l' => lot_kept l l'
       | None, None => True
       | _, _ => False
       end.

(** A queue within its bound ([maxsize <= 0] means no bound). *)
Definition queue_bounded (q : Queue.t Event) : Prop :=
  Queue.maxsize q <= 0 ∨ Queue.qsize q <= Queue.maxsize q.

(** A registered subscription: filed under its own id, below the counter,
    live, for a registered lot, its queue within its bound. *)
Definition subscription_ok (s : ParkingServer.t) (k : Z) (sub : Subscriber.t)
  : Prop :=
  Subscriber.sub_id sub = k
  ∧ k < ParkingServer.next_sub_id s
  ∧ Subscriber.active sub = true
  ∧ is_Some (ParkingServer.lots s !! Subscriber.lot_id sub)
  ∧ queue_bounded (Subscriber.queue sub).

Definition subscribers_ok (s : ParkingServer.t) : Prop :=
  NoDup (ParkingServer.subscribers s).*1
  ∧ Forall (λ ks, subscription_ok s ks.1 ks.2) (ParkingServer.subscribers s).

(** The events [n] rounds of the delivery loop send for [sub_id]. *)
Fixpoint deliver (n : nat) (sub_id : Z) (s : ParkingServer.t)
  : list Event * ParkingServer.t :=
  match n with
  | O => ([], s)
  | S n' =>
      match ParkingServer.next_event sub_id s with
      | (Some ev, s1) =>
          let '(evs, s2) := deliver n' sub_id s1 in (ev :: evs, s2)
      | (None, s1) => deliver n' sub_id s1
      end
  end.

(** A reply of the text protocol that reports an error: a line that starts
    with [ERROR]. *)
Definition is_error_reply (r : Frontends.text_reply) : bool :=
  match r with
  | Frontends.Text line => String.prefix "ERROR" line
  | Frontends.Dumps _ => false
  end.

(** The dictionary [to_dict] builds for a lot at instant [now], as JSON. *)
Definition lot_json (now : Z) (lot : ParkingLot.t) : json :=
  Frontends.snapshot_json (ParkingLot.to_dict now lot).1.

(** The body of the loop of [ParkingServer.__init__] over the configured
    lots. *)
Definition register_lot (m : gmap string ParkingLot.t) (e : string * Z * Z)
  : gmap string ParkingLot.t :=
  let '(i, c, o) := e in <[i := ParkingLot.init i c o]> m.

(** ** Deltas and reservations *)

(** Whether a delta applied at [now] leaves room for the reservations that
    are active then: it is at most the free count, or no reservation is
    active. *)
Definition leaves_room (now delta : Z) (l : ParkingLot.t) : bool :=
  (delta <=? free (swept now l))
  || bool_decide (ParkingLot.reservations (swept now l) = ∅).

(** Every delta of a run leaves room in the state it is applied to. *)
Fixpoint deltas_leave_room (ops : list (Z * lot_op)) (l : ParkingLot.t) : bool :=
  match ops with
  | [] => true
  | (now, op) :: ops' =>
      match op with
      | ApplyDelta delta => leaves_room now delta l
      | _ => true
      end
      && deltas_leave_room ops' (run_op now op l)
  end.


(** [order] is an order in which a dict with the keys of [m] iterates:
    every key once. *)
Definition lists_keys (order : list string) (m : gmap string ParkingLot.t)
  : Prop :=
  NoDup order ∧ ∀ i, i ∈ order ↔ is_Some (m !! i).

(** The keys of [self.lots] in the order [__init__] inserts them: a dict
    keeps a key where it was first inserted. *)
Fixpoint dict_keys (seen : list string) (lot_configs : list (string * Z * Z))
  : list string :=
  match lot_configs with
  | [] => []
  | (i, _, _) :: rest =>
      if bool_decide (i ∈ seen) then dict_keys seen rest
      else i :: dict_keys (i :: seen) rest
  end.

(** A lot whose numbers [str] and [json.dumps] print on every version of
    the interpreter: capacity and occupancy of at most 4299 digits, and no
    more reservations than that leaves room for, so that the free count has
    at most [PyStr.max_str_digits] digits. *)
Definition lot_printable (l : ParkingLot.t) : Prop :=
  Z.abs (ParkingLot.capacity l) < 10 ^ (PyStr.max_str_digits - 1)
  ∧ Z.abs (ParkingLot.occupied l) < 10 ^ (PyStr.max_str_digits - 1)
  ∧ ParkingLot.len_reservations l < 2 * 10 ^ (PyStr.max_str_digits - 1).

(** * Properties *)

(** ** The lazy sweep *)

Section Sweep.
Import ParkingLot.

Lemma lookup_foldl_delete {V} (ps : list string) (m : gmap string V) (k : string) :
  foldl (λ rs p, delete p rs) m ps !! k
  = if decide (k ∈ ps) then None else m !! k.
Proof.
  revert m. induction ps as [|p ps IH]; intros m; simpl.
  - destruct (decide (k ∈ [])) as [Hin|_]; [by apply elem_of_nil in Hin|done].
  - rewrite IH.
    destruct (decide (k ∈ ps)) as [Hin|Hnin];
      destruct (decide (k ∈ p :: ps)) as [Hin'|Hnin']; try done.
    + exfalso. apply Hnin'. by right.
    + apply elem_of_cons in Hin' as [->|?]; [|done].
      apply lookup_delete_eq.
    + apply lookup_delete_ne. intros ->. apply Hnin'. by left.
Qed.

Lemma elem_of_expired_plates now (rs : gmap string Reservation.t) p :
  p ∈ expired_plates now rs
  ↔ ∃ r, rs !! p = Some r ∧ Reservation.is_expired now r = true.
Proof.
  unfold expired_plates. rewrite list_elem_of_fmap. split.
  - intros [[p' r] [-> [Hexp Hin%elem_of_map_to_list]%list_elem_of_filter]].
    by exists r.
  - intros [r [Hp Hexp]]. exists (p, r). split; [done|].
    apply list_elem_of_filter. split; [done|]. by apply elem_of_map_to_list.
Qed.

(** The sweep keeps exactly the reservations that are not expired. *)
Lemma cleanup_lookup now l p :
  reservations (_cleanup_expired_reservations now l) !! p
  = match reservations l !! p with
    | Some r => if Reservation.is_expired now r then None else Some r
    | None => None
    end.
Proof.
  unfold _cleanup_expired_reservations. simpl. rewrite lookup_foldl_delete.
  destruct (decide (p ∈ expired_plates now (reservations l))) as [Hin|Hnin].
  - apply elem_of_expired_plates in Hin as [r [-> ->]]. done.
  - destruct (reservations l !! p) as [r|] eqn:Hp; [|done].
    destruct (Reservation.is_expired now r) eqn:Hexp; [|done].
    exfalso. apply Hnin, elem_of_expired_plates. eauto.
Qed.

Lemma cleanup_filter now l :
  reservations (_cleanup_expired_reservations now l)
  = filter (λ pr, Reservation.is_expired now pr.2 = false) (reservations l).
Proof.
  apply map_eq. intros p. rewrite cleanup_lookup.
  destruct (reservations l !! p) as [r|] eqn:Hp.
  - destruct (Reservation.is_expired now r) eqn:Hexp.
    + symmetry. apply map_lookup_filter_None. right. intros r' Hr'. simpl.
      rewrite Hp in Hr'. injection Hr' as <-. by rewrite Hexp.
    + symmetry. by apply map_lookup_filter_Some.
  - symmetry. apply map_lookup_filter_None. by left.
Qed.

Lemma cleanup_subseteq now l :
  reservations (_cleanup_expired_reservations now l) ⊆ reservations l.
Proof. rewrite cleanup_filter. apply map_filter_subseteq. Qed.

Lemma cleanup_len now l :
  0 <= len_reservations (_cleanup_expired_reservations now l)
    <= len_reservations l.
Proof.
  unfold len_reservations. split; [lia|].
  apply inj_le, map_subseteq_size, cleanup_subseteq.
Qed.

Lemma cleanup_fields now l :
  id (_cleanup_expired_reservations now l) = id l
  ∧ capacity (_cleanup_expired_reservations now l) = capacity l
  ∧ occupied (_cleanup_expired_reservations now l) = occupied l.
Proof. done. Qed.

Lemma lot_eq (l1 l2 : t) :
  id l1 = id l2 → capacity l1 = capacity l2 → occupied l1 = occupied l2 →
  reservations l1 = reservations l2 → l1 = l2.
Proof. destruct l1, l2. simpl. congruence. Qed.

(** A second sweep at the same instant finds nothing to remove. *)
Lemma cleanup_idem now l :
  _cleanup_expired_reservations now (_cleanup_expired_reservations now l)
  = _cleanup_expired_reservations now l.
Proof.
  apply lot_eq; try done.
  apply map_eq. intros p. rewrite !cleanup_lookup.
  destruct (reservations l !! p) as [r|]; [|done].
  destruct (Reservation.is_expired now r) eqn:E; [done|]. by rewrite E.
Qed.

End Sweep.

(** ** The lot operations, in closed form *)

Section LotOperations.
Import ParkingLot.

Lemma cleanup_swept now l : _cleanup_expired_reservations now l = swept now l.
Proof.
  apply lot_eq; try done. rewrite cleanup_filter. simpl.
  apply map_filter_ext. intros p r _. simpl.
  unfold Reservation.is_expired. rewrite Z.ltb_nlt. done.
Qed.

Lemma cleanup_set_occupied now o l :
  _cleanup_expired_reservations now (set_occupied o l)
  = set_occupied o (_cleanup_expired_reservations now l).
Proof. by apply lot_eq. Qed.

Lemma get_free_eq now l :
  get_free now l
  = (free (_cleanup_expired_reservations now l),
     _cleanup_expired_reservations now l).
Proof. done. Qed.

Lemma update_occupancy_eq now delta l :
  update_occupancy now delta l
  = let l1 := _cleanup_expired_reservations now l in
    let o := Z.max 0 (Z.min (capacity l) (occupied l + delta)) in
    (capacity l - o - len_reservations l1, set_occupied o l1).
Proof.
  unfold update_occupancy. rewrite get_free_eq.
  rewrite get_free_eq, cleanup_set_occupied, cleanup_idem. done.
Qed.

Lemma reserve_eq now plate ttl l :
  reserve now plate ttl l = Reserve_spec now plate ttl l.
Proof.
  unfold reserve, Reserve_spec. rewrite get_free_eq, cleanup_idem.
  rewrite <- cleanup_swept.
  destruct (reservations (_cleanup_expired_reservations now l) !! plate)
    as [r|] eqn:Hp.
  - rewrite bool_decide_eq_true_2 by eauto. done.
  - rewrite bool_decide_eq_false_2 by (by intros [? ?]). done.
Qed.

Lemma cancel_eq plate l :
  cancel plate l
  = match reservations l !! plate with
    | Some _ => (OK, set_reservations (delete plate (reservations l)) l)
    | None => (NOT_FOUND, l)
    end.
Proof.
  unfold cancel. destruct (reservations l !! plate) as [r|] eqn:Hp.
  - rewrite bool_decide_eq_true_2 by eauto. done.
  - rewrite bool_decide_eq_false_2 by (by intros [? ?]). done.
Qed.

End LotOperations.

(** ** What one operation does to each field *)

Section Frame.
Import ParkingLot.

(** Case analysis on the operation, each case put in closed form. *)
Ltac by_operation op :=
  destruct op; simpl;
  rewrite ?reserve_eq, ?cancel_eq, ?update_occupancy_eq;
  unfold Reserve_spec; simpl;
  repeat case_match; simpl; try done.

Lemma run_op_id now op l : id (run_op now op l) = id l.
Proof. by_operation op. Qed.

Lemma run_op_capacity now op l : capacity (run_op now op l) = capacity l.
Proof. by_operation op. Qed.

Lemma run_op_occupied now op l :
  occupied (run_op now op l)
  = match op with
    | ApplyDelta delta => Z.max 0 (Z.min (capacity l) (occupied l + delta))
    | _ => occupied l
    end.
Proof. by_operation op. Qed.

Lemma run_op_reservations now op l :
  reservations (run_op now op l)
  = match op with
    | Reserve plate ttl =>
        let rs := reservations (swept now l) in
        match rs !! plate with
        | Some _ => rs
        | None =>
            if free (swept now l) <=? 0 then rs
            else <[plate := Reservation.init now (id l) plate ttl]> rs
        end
    | Cancel plate => delete plate (reservations l)
    | _ => reservations (swept now l)
    end.
Proof.
  destruct op; unfold run_op.
  - by rewrite get_free_eq, cleanup_swept.
  - rewrite reserve_eq. unfold Reserve_spec. cbv zeta.
    destruct (_ !! plate); [done|]. by destruct (_ <=? 0).
  - rewrite cancel_eq. destruct (_ !! plate) eqn:Hp; [done|].
    simpl. by rewrite delete_id.
  - rewrite update_occupancy_eq. cbv zeta. by rewrite cleanup_swept.
  - unfold to_dict. by rewrite get_free_eq, cleanup_swept.
Qed.

Lemma swept_len now l : 0 <= len_reservations (swept now l) <= len_reservations l.
Proof. rewrite <- cleanup_swept. apply cleanup_len. Qed.

Lemma swept_lookup now l p :
  reservations (swept now l) !! p
  = match reservations l !! p with
    | Some r => if Reservation.is_expired now r then None else Some r
    | None => None
    end.
Proof. rewrite <- cleanup_swept. apply cleanup_lookup. Qed.

(** The number of reservations after one operation. *)
Lemma run_op_len now op l :
  0 <= len_reservations (run_op now op l)
  ∧ match op with
    | Reserve plate ttl =>
        len_reservations (run_op now op l) <= len_reservations (swept now l)
        ∨ (0 < free (swept now l)
           ∧ len_reservations (run_op now op l)
             = len_reservations (swept now l) + 1)
    | _ => len_reservations (run_op now op l) <= len_reservations l
    end.
Proof.
  split; [unfold len_reservations; lia|].
  pose proof (swept_len now l) as Hs.
  pose proof (run_op_reservations now op l) as Hr.
  unfold len_reservations in *.
  destruct op; rewrite Hr; try lia.
  - cbv zeta.
    destruct (reservations (swept now l) !! plate) eqn:Hp; [left; lia|].
    destruct (free (swept now l) <=? 0) eqn:Hf; [left; lia|]. right.
    apply Z.leb_gt in Hf. split; [done|].
    rewrite map_size_insert_None by done. lia.
  - apply inj_le, map_subseteq_size, delete_subseteq.
Qed.

End Frame.

(** ** C1: the bounds on the free count *)

Section FreeBounds.
Import ParkingLot.

Lemma run_op_occupied_bounds now op l :
  0 <= occupied l <= capacity l →
  0 <= occupied (run_op now op l) <= capacity (run_op now op l).
Proof.
  intros H. rewrite run_op_capacity, run_op_occupied. destruct op; lia.
Qed.

Lemma run_op_free_nonneg now op l :
  0 <= occupied l <= capacity l →
  raises_occupied op = false →
  0 <= free l → 0 <= free (run_op now op l).
Proof.
  intros Hocc Hop Hfree.
  destruct (run_op_len now op l) as [_ Hlen].
  pose proof (swept_len now l) as Hs.
  unfold free in *. rewrite run_op_capacity, run_op_occupied.
  change (capacity (swept now l)) with (capacity l) in Hlen.
  change (occupied (swept now l)) with (occupied l) in Hlen.
  destruct op; simpl in Hop; lia.
Qed.

Lemma run_ops_occupied_bounds ops l :
  0 <= occupied l <= capacity l →
  0 <= occupied (run_ops ops l) <= capacity (run_ops ops l).
Proof.
  revert l. induction ops as [|[now op] ops IH]; intros l H; [done|].
  simpl. by apply IH, run_op_occupied_bounds.
Qed.

Lemma run_ops_free_nonneg ops l :
  0 <= occupied l <= capacity l →
  Forall (λ o : Z * lot_op, raises_occupied o.2 = false) ops →
  0 <= free l → 0 <= free (run_ops ops l).
Proof.
  revert l. induction ops as [|[now op] ops IH]; intros l Hocc Hops Hfree;
    [done|].
  apply Forall_cons in Hops as [Hop Hops]. simpl.
  apply IH; [by apply run_op_occupied_bounds|done|].
  by apply run_op_free_nonneg.
Qed.

Lemma free_swept_ge now l : free l <= free (swept now l).
Proof.
  pose proof (swept_len now l) as Hs. unfold free.
  change (capacity (swept now l)) with (capacity l).
  change (occupied (swept now l)) with (occupied l). lia.
Qed.

Lemma len_reservations_zero l : len_reservations l = 0 ↔ reservations l = ∅.
Proof.
  unfold len_reservations. split.
  - intros H. apply map_size_empty_iff. lia.
  - intros ->. by rewrite map_size_empty.
Qed.

(** One delta on a lot whose free count is at least 0. *)
Lemma apply_delta_free_nonneg now delta l :
  0 <= occupied l <= capacity l →
  0 <= free l →
  0 <= free (run_op now (ApplyDelta delta) l) ↔ leaves_room now delta l = true.
Proof.
  intros Hocc Hf.
  pose proof (free_swept_ge now l) as Hge.
  pose proof (len_reservations_zero (swept now l)) as Hz.
  pose proof (swept_len now l) as [Hs _].
  unfold leaves_room. rewrite orb_true_iff, Z.leb_le, bool_decide_eq_true.
  rewrite <- Hz.
  assert (free (run_op now (ApplyDelta delta) l)
          = capacity l - Z.max 0 (Z.min (capacity l) (occupied l + delta))
            - len_reservations (swept now l)) as ->.
  { unfold free. rewrite run_op_capacity, run_op_occupied.
    unfold len_reservations. by rewrite run_op_reservations. }
  unfold free in *.
  change (capacity (swept now l)) with (capacity l) in *.
  change (occupied (swept now l)) with (occupied l) in *.
  lia.
Qed.

Lemma run_op_free_room now op l :
  0 <= occupied l <= capacity l →
  match op with
  | ApplyDelta delta => leaves_room now delta l = true
  | _ => True
  end →
  0 <= free l → 0 <= free (run_op now op l).
Proof.
  intros Hocc Hop Hfree.
  destruct (decide (raises_occupied op = false)) as [Hno|Hyes].
  - by apply run_op_free_nonneg.
  - destruct op; try done. by apply apply_delta_free_nonneg.
Qed.

Lemma run_ops_leave_room ops l :
  0 <= occupied l <= capacity l →
  0 <= free l →
  deltas_leave_room ops l = true →
  0 <= free (run_ops ops l).
Proof.
  revert l. induction ops as [|[now op] ops IH]; intros l Hocc Hfree Hroom;
    [done|].
  cbn [deltas_leave_room] in Hroom. apply andb_true_iff in Hroom as [Hop Hroom].
  simpl. apply IH; [by apply run_op_occupied_bounds| |done].
  apply run_op_free_room; [done| |done]. by destruct op.
Qed.

Lemma no_rise_leaves_room ops l :
  0 <= occupied l <= capacity l →
  0 <= free l →
  Forall (λ o : Z * lot_op, raises_occupied o.2 = false) ops →
  deltas_leave_room ops l = true.
Proof.
  revert l. induction ops as [|[now op] ops IH]; intros l Hocc Hfree Hops;
    [done|].
  apply Forall_cons in Hops as [Hop Hops]. cbn [deltas_leave_room snd] in *.
  apply andb_true_iff. split.
  - destruct op; try done. unfold leaves_room. apply orb_true_iff. left.
    apply Z.leb_le. cbn in Hop. apply Z.ltb_ge in Hop.
    pose proof (free_swept_ge now l). lia.
  - apply IH; [by apply run_op_occupied_bounds| |done].
    by apply run_op_free_nonneg.
Qed.

End FreeBounds.

(** C1, counterexample: from capacity 10 and 8 occupied, two reservations
    and a delta of +2 give occupied = 10 with both reservations active: the
    free count [get_free] returns is -2, below 0. *)
Lemma free_negative_after_delta :
  valid_initial lot_8_of_10
  ∧ (ParkingLot.get_free 3 (run_ops two_reserved_then_two_arrive lot_8_of_10)).1
    = -2
  ∧ ¬ (0 <= free (run_ops two_reserved_then_two_arrive lot_8_of_10)
         <= ParkingLot.capacity
              (run_ops two_reserved_then_two_arrive lot_8_of_10)).
Proof.
  split; [split; [done|reflexivity]|].
  split; [by vm_compute|].
  vm_compute. intros [H _]. by apply H.
Qed.

(** C1, as the code has it: after any sequence of lot operations from a
    valid initial state, 0 <= occupied <= capacity and the free count
    capacity - occupied - (number of reservations) is at most the capacity,
    for the state and for the value [get_free] returns at any later instant,
    which is the free count of the swept state.  The free count is at least
    0 after every sequence in which each delta leaves room for the
    reservations active when it is applied (it is at most the free count of
    that instant, or no reservation is active), and so after every sequence
    without a delta above 0.  The condition is exact: after a sequence that
    kept the free count at 0 or more, one more delta keeps it there if and
    only if it leaves room. *)
Theorem lot_free_bounds (l0 : ParkingLot.t) (ops : list (Z * lot_op)) :
  valid_initial l0 →
  0 <= ParkingLot.occupied (run_ops ops l0)
    <= ParkingLot.capacity (run_ops ops l0)
  ∧ free (run_ops ops l0) <= ParkingLot.capacity (run_ops ops l0)
  ∧ (∀ now,
       (ParkingLot.get_free now (run_ops ops l0)).1
       = free (swept now (run_ops ops l0))
       ∧ (ParkingLot.get_free now (run_ops ops l0)).1
         <= ParkingLot.capacity (run_ops ops l0))
  ∧ (deltas_leave_room ops l0 = true →
     0 <= free (run_ops ops l0)
     ∧ ∀ now, 0 <= (ParkingLot.get_free now (run_ops ops l0)).1)
  ∧ (Forall (λ o : Z * lot_op, raises_occupied o.2 = false) ops →
     deltas_leave_room ops l0 = true)
  ∧ (∀ now delta,
       0 <= free (run_ops ops l0) →
       (0 <= free (run_op now (ApplyDelta delta) (run_ops ops l0))
        ↔ leaves_room now delta (run_ops ops l0) = true)).
Proof.
  intros [Hocc Hres].
  pose proof (run_ops_occupied_bounds ops l0 Hocc) as Hb.
  assert (0 <= ParkingLot.len_reservations (run_ops ops l0)) as Hlen
    by (unfold ParkingLot.len_reservations; lia).
  assert (0 <= free l0) as Hf0.
  { unfold free, ParkingLot.len_reservations. rewrite Hres, map_size_empty.
    lia. }
  split; [done|]. split; [unfold free; lia|]. split; [|split; [|split]].
  - intros now. rewrite get_free_eq, cleanup_swept. cbn [fst]. split; [done|].
    pose proof (swept_len now (run_ops ops l0)) as Hc.
    unfold free.
    change (ParkingLot.capacity (swept now (run_ops ops l0)))
      with (ParkingLot.capacity (run_ops ops l0)).
    change (ParkingLot.occupied (swept now (run_ops ops l0)))
      with (ParkingLot.occupied (run_ops ops l0)).
    lia.
  - intros Hroom.
    assert (0 <= free (run_ops ops l0)) as Hf
      by (by apply run_ops_leave_room).
    split; [done|]. intros now. rewrite get_free_eq, cleanup_swept. cbn [fst].
    pose proof (free_swept_ge now (run_ops ops l0)). lia.
  - intros Hops. by apply no_rise_leaves_room.
  - intros now delta Hf. by apply apply_delta_free_nonneg.
Qed.

Lemma lot_free_bounds_witness :
  valid_initial lot_8_of_10
  ∧ 0 <= free (run_ops [(0, Reserve "X" 300); (1, ApplyDelta 1);
                        (2, Cancel "X"); (3, ApplyDelta 1)] lot_8_of_10).
Proof.
  assert (valid_initial lot_8_of_10) as Hinit by (split; [done|reflexivity]).
  split; [exact Hinit|].
  pose proof (lot_free_bounds lot_8_of_10
                [(0, Reserve "X" 300); (1, ApplyDelta 1);
                 (2, Cancel "X"); (3, ApplyDelta 1)] Hinit)
    as (_ & _ & _ & Hroom & _).
  exact (proj1 (Hroom eq_refl)).
Defined.

(** ** C2: admission by [reserve] *)

Section Admission.
Import ParkingLot.

(** A reservation that is not expired at [now] survives every operation
    run at [now], except a cancel of its plate. *)
Lemma run_op_keeps_active now op l plate r :
  reservations l !! plate = Some r →
  now <= Reservation.expires_at r →
  op ≠ Cancel plate →
  reservations (run_op now op l) !! plate = Some r.
Proof.
  intros Hp Hexp Hop.
  assert (reservations (swept now l) !! plate = Some r) as Hs.
  { rewrite swept_lookup, Hp. unfold Reservation.is_expired.
    by rewrite (proj2 (Z.ltb_ge _ _)). }
  rewrite run_op_reservations. destruct op as [|p ttl|p| |]; try done.
  - cbv zeta. destruct (decide (p = plate)) as [->|Hne].
    + by rewrite Hs.
    + destruct (reservations (swept now l) !! p); [done|].
      destruct (free (swept now l) <=? 0); [done|].
      by rewrite lookup_insert_ne.
  - rewrite lookup_delete_ne; [done|]. congruence.
Qed.

Lemma run_ops_keeps_active ops l plate r :
  reservations l !! plate = Some r →
  Forall (λ o : Z * lot_op,
            o.1 <= Reservation.expires_at r ∧ o.2 ≠ Cancel plate) ops →
  reservations (run_ops ops l) !! plate = Some r.
Proof.
  revert l. induction ops as [|[now op] ops IH]; intros l Hp Hops; [done|].
  apply Forall_cons in Hops as [[Ht Hop] Hops]. simpl.
  apply IH; [|done]. by apply run_op_keeps_active.
Qed.

Lemma reserve_exists now plate ttl l r :
  reservations l !! plate = Some r →
  now <= Reservation.expires_at r →
  (reserve now plate ttl l).1 = EXISTS.
Proof.
  intros Hp Hexp. rewrite reserve_eq. unfold Reserve_spec. cbv zeta.
  rewrite swept_lookup, Hp. unfold Reservation.is_expired.
  by rewrite (proj2 (Z.ltb_ge _ _)).
Qed.

Lemma reserve_ok_inserts now plate ttl l :
  (reserve now plate ttl l).1 = OK →
  reservations (reserve now plate ttl l).2 !! plate
  = Some (Reservation.init now (id l) plate ttl).
Proof.
  rewrite reserve_eq. unfold Reserve_spec. cbv zeta.
  destruct (reservations (swept now l) !! plate); [done|].
  destruct (free (swept now l) <=? 0); [done|].
  intros _. simpl. by rewrite lookup_insert_eq.
Qed.

End Admission.

(** C2: where the expiry instant [now + ttl] is one a [datetime] can hold
    (needed only when the call admits the plate; the constructor of the
    reservation raises [OverflowError] otherwise), [reserve] is the operation
    the specification words (sweep, then EXISTS for a plate with an active
    reservation, else FULL when the free count is at most 0, else insert and
    OK); with occupied = capacity it returns FULL unless the plate already
    holds an active reservation; and once a call returned OK, a second call
    for the same plate returns EXISTS as long as the first reservation has
    not expired and was not cancelled, whatever other operations ran in
    between. *)
Theorem reserve_admission (now : Z) (plate : string) (ttl : Z)
    (l : ParkingLot.t) :
  (((Reserve_spec now plate ttl l).1 = ParkingLot.OK →
    Reservation.representable now ttl = true) →
   ParkingLot.reserve now plate ttl l = Reserve_spec now plate ttl l)
  ∧ (ParkingLot.occupied l = ParkingLot.capacity l →
     (ParkingLot.reserve now plate ttl l).1
     = match ParkingLot.reservations (swept now l) !! plate with
       | Some _ => ParkingLot.EXISTS
       | None => ParkingLot.FULL
       end)
  ∧ (∀ (between : list (Z * lot_op)) (now2 ttl2 : Z),
       (ParkingLot.reserve now plate ttl l).1 = ParkingLot.OK →
       Forall (λ o : Z * lot_op,
                 o.1 <= now + ttl * 1000000 ∧ o.2 ≠ Cancel plate) between →
       now2 <= now + ttl * 1000000 →
       (ParkingLot.reserve now2 plate ttl2
          (run_ops between (ParkingLot.reserve now plate ttl l).2)).1
       = ParkingLot.EXISTS).
Proof.
  split; [intros _; apply reserve_eq|]. split.
  - intros Hfull. rewrite reserve_eq. unfold Reserve_spec. cbv zeta.
    destruct (ParkingLot.reservations (swept now l) !! plate); [done|].
    pose proof (swept_len now l) as [Hlen _].
    unfold free. change (ParkingLot.capacity (swept now l))
      with (ParkingLot.capacity l).
    change (ParkingLot.occupied (swept now l)) with (ParkingLot.occupied l).
    rewrite Hfull.
    by rewrite (proj2 (Z.leb_le _ 0)) by lia.
  - intros between now2 ttl2 Hok Hbetween Hnow2.
    apply reserve_ok_inserts in Hok.
    eapply reserve_exists.
    + eapply run_ops_keeps_active; [exact Hok|]. exact Hbetween.
    + exact Hnow2.
Qed.

(** Scenario 1 (a full lot answers FULL) and the duplicate call of
    scenario 2. *)
Lemma reserve_admission_witness :
  (ParkingLot.reserve 0 "X" 300 (ParkingLot.init "LOT-A" 10 10)).1
  = ParkingLot.FULL
  ∧ ParkingLot.reserve 0 "X" 300 lot_8_of_10
    = Reserve_spec 0 "X" 300 lot_8_of_10
  ∧ (ParkingLot.reserve 0 "X" 300 lot_8_of_10).1 = ParkingLot.OK
  ∧ (ParkingLot.reserve 7 "X" 300
       (run_ops [(5, GetFree); (6, ApplyDelta 1)]
          (ParkingLot.reserve 0 "X" 300 lot_8_of_10).2)).1
    = ParkingLot.EXISTS.
Proof.
  split.
  - destruct (reserve_admission 0 "X" 300 (ParkingLot.init "LOT-A" 10 10))
      as (_ & Hfull & _).
    rewrite Hfull; reflexivity.
  - destruct (reserve_admission 0 "X" 300 lot_8_of_10) as (Hspec & _ & Hdup).
    split; [exact (Hspec (λ _, eq_refl))|].
    split; [reflexivity|].
    apply Hdup.
    + reflexivity.
    + repeat constructor; simpl; lia || discriminate.
    + lia.
Defined.

(** ** C3: expiry *)

Section Expiry.
Import ParkingLot.

(** [get_free] does not count a reservation that has expired. *)
Lemma get_free_skips_expired now l plate r :
  reservations l !! plate = Some r →
  Reservation.expires_at r < now →
  reservations (get_free now l).2 !! plate = None
  ∧ (get_free now l).1
    = capacity l - occupied l - len_reservations (swept now l).
Proof.
  intros Hp Hexp. rewrite get_free_eq, cleanup_swept. cbn [fst snd].
  split; [|done].
  rewrite swept_lookup, Hp. unfold Reservation.is_expired.
  by rewrite (proj2 (Z.ltb_lt _ _)).
Qed.

(** [reserve] does not answer EXISTS because of an expired reservation. *)
Lemma reserve_skips_expired now l plate ttl r :
  reservations l !! plate = Some r →
  Reservation.expires_at r < now →
  (reserve now plate ttl l).1 ≠ EXISTS.
Proof.
  intros Hp Hexp. rewrite reserve_eq. unfold Reserve_spec. cbv zeta.
  rewrite swept_lookup, Hp. unfold Reservation.is_expired.
  rewrite (proj2 (Z.ltb_lt _ _)) by done.
  by destruct (free (swept now l) <=? 0).
Qed.

(** [cancel] does not sweep: it answers OK for any plate still in the
    dict, expired or not. *)
Lemma cancel_present l plate r :
  reservations l !! plate = Some r →
  cancel plate l = (OK, set_reservations (delete plate (reservations l)) l).
Proof. intros Hp. by rewrite cancel_eq, Hp. Qed.

End Expiry.

(** C3, the code at the failing input: the reservation of "X" expired at
    5 s; at 6 s [get_free] does not count it and [reserve] does not answer
    EXISTS, but [cancel], which does not sweep, finds the plate in the dict
    and answers OK instead of NOT_FOUND. *)
Theorem cancel_after_expiry_returns_OK :
  (ParkingLot.reserve 0 "X" 5 lot_8_of_10).1 = ParkingLot.OK
  ∧ Reservation.is_expired 6000000 <$>
      ParkingLot.reservations lot_with_stale_X !! "X" = Some true
  ∧ (ParkingLot.get_free 6000000 lot_with_stale_X).1 = 2
  ∧ (ParkingLot.reserve 6000000 "X" 5 lot_with_stale_X).1 = ParkingLot.OK
  ∧ (ParkingLot.cancel "X" lot_with_stale_X).1 = ParkingLot.OK.
Proof. repeat split; by vm_compute. Qed.

(** ** C4: the clamp of [update_occupancy] *)

Lemma max_min_clamp (x cap : Z) :
  0 <= cap → Z.max 0 (Z.min cap x) = clamp x 0 cap.
Proof.
  intros Hcap. unfold clamp.
  destruct (x <? 0) eqn:H1; [apply Z.ltb_lt in H1; lia|].
  apply Z.ltb_ge in H1.
  destruct (cap <? x) eqn:H2; [apply Z.ltb_lt in H2|apply Z.ltb_ge in H2]; lia.
Qed.

(** C4: on a lot with 0 <= occupied <= capacity, [update_occupancy] sets
    occupied to clamp(occupied + delta, 0, capacity), which lies in
    [0, capacity], and returns the free count of the resulting state (the
    value [get_free] reads at that instant); a delta of +capacity on an
    empty lot gives occupied = capacity. *)
Theorem update_occupancy_clamps (now delta : Z) (l : ParkingLot.t) :
  0 <= ParkingLot.occupied l <= ParkingLot.capacity l →
  ParkingLot.occupied (ParkingLot.update_occupancy now delta l).2
  = clamp (ParkingLot.occupied l + delta) 0 (ParkingLot.capacity l)
  ∧ 0 <= ParkingLot.occupied (ParkingLot.update_occupancy now delta l).2
      <= ParkingLot.capacity (ParkingLot.update_occupancy now delta l).2
  ∧ ParkingLot.capacity (ParkingLot.update_occupancy now delta l).2
    = ParkingLot.capacity l
  ∧ (ParkingLot.update_occupancy now delta l).1
    = free (ParkingLot.update_occupancy now delta l).2
  ∧ ParkingLot.get_free now (ParkingLot.update_occupancy now delta l).2
    = ParkingLot.update_occupancy now delta l
  ∧ (ParkingLot.occupied l = 0 → delta = ParkingLot.capacity l →
     ParkingLot.occupied (ParkingLot.update_occupancy now delta l).2
     = ParkingLot.capacity l).
Proof.
  intros Hocc. rewrite update_occupancy_eq. cbv zeta. cbn [fst snd].
  repeat split.
  - cbn. apply max_min_clamp. lia.
  - cbn. lia.
  - cbn. lia.
  - rewrite get_free_eq, cleanup_set_occupied, cleanup_idem. done.
  - intros H0 Hd. cbn. lia.
Qed.

(** Scenario 3's delta and the "+capacity on an empty lot" case. *)
Lemma update_occupancy_clamps_witness :
  ParkingLot.occupied (ParkingLot.update_occupancy 0 (-2) lot_8_of_10).2 = 6
  ∧ ParkingLot.occupied
      (ParkingLot.update_occupancy 0 10 (ParkingLot.init "LOT-A" 10 0)).2 = 10
  ∧ ParkingLot.occupied
      (ParkingLot.update_occupancy 0 25 (ParkingLot.init "LOT-A" 10 0)).2 = 10.
Proof.
  split; [|split].
  - destruct (update_occupancy_clamps 0 (-2) lot_8_of_10) as [H _];
      [simpl; lia|]. rewrite H. reflexivity.
  - destruct (update_occupancy_clamps 0 10 (ParkingLot.init "LOT-A" 10 0))
      as (_ & _ & _ & _ & _ & H); [simpl; lia|].
    apply H; reflexivity.
  - destruct (update_occupancy_clamps 0 25 (ParkingLot.init "LOT-A" 10 0))
      as [H _]; [simpl; lia|]. rewrite H. reflexivity.
Defined.

(** ** C10: what the lot operations leave alone *)

(** C10: no lot operation changes the id or the capacity; only a delta
    changes occupied; a delta adds no reservation; and a reservation that
    is gone after an operation was expired at the instant of the operation,
    or the operation was a cancel of its plate. *)
Theorem lot_frame (now : Z) (op : lot_op) (l : ParkingLot.t) :
  ParkingLot.id (run_op now op l) = ParkingLot.id l
  ∧ ParkingLot.capacity (run_op now op l) = ParkingLot.capacity l
  ∧ ((∀ delta, op ≠ ApplyDelta delta) →
     ParkingLot.occupied (run_op now op l) = ParkingLot.occupied l)
  ∧ ((∃ delta, op = ApplyDelta delta) →
     ParkingLot.reservations (run_op now op l) ⊆ ParkingLot.reservations l)
  ∧ (∀ plate r,
       ParkingLot.reservations l !! plate = Some r →
       ParkingLot.reservations (run_op now op l) !! plate ≠ Some r →
       Reservation.is_expired now r = true ∨ op = Cancel plate).
Proof.
  split; [apply run_op_id|]. split; [apply run_op_capacity|]. split; [|split].
  - intros Hop. rewrite run_op_occupied. destruct op; try done.
    by destruct (Hop delta).
  - intros [delta ->]. rewrite run_op_reservations, <- cleanup_swept.
    apply cleanup_subseteq.
  - intros plate r Hp Hgone.
    destruct (Reservation.is_expired now r) eqn:Hexp; [by left|right].
    destruct (decide (op = Cancel plate)) as [|Hop]; [done|].
    exfalso. apply Hgone. apply run_op_keeps_active; [done| |done].
    unfold Reservation.is_expired in Hexp. by apply Z.ltb_ge in Hexp.
Qed.

Lemma lot_frame_witness :
  ParkingLot.occupied (run_op 1 (Reserve "Y" 300) lot_with_stale_X) = 8
  ∧ ParkingLot.reservations (run_op 6000000 (ApplyDelta 1) lot_with_stale_X)
    ⊆ ParkingLot.reservations lot_with_stale_X.
Proof.
  split.
  - destruct (lot_frame 1 (Reserve "Y" 300) lot_with_stale_X)
      as (_ & _ & Hocc & _).
    rewrite Hocc; [reflexivity|]. intros delta. discriminate.
  - destruct (lot_frame 6000000 (ApplyDelta 1) lot_with_stale_X)
      as (_ & _ & _ & Hres & _).
    apply Hres. exists 1. reflexivity.
Defined.

(** ** The subscription registry *)

Section Registry.
Context {V : Type}.
Implicit Types d : list (Z * V).

Lemma get_del_eq k d : PyDict.get k (PyDict.del k d) = None.
Proof.
  unfold PyDict.del. induction d as [|[k' v] d IH]; [done|].
  rewrite filter_cons. simpl. case_decide as Hk; simpl.
  - by rewrite decide_False.
  - done.
Qed.

Lemma get_del_ne k k' d :
  k ≠ k' → PyDict.get k' (PyDict.del k d) = PyDict.get k' d.
Proof.
  intros Hne. unfold PyDict.del. induction d as [|[k0 v] d IH]; [done|].
  rewrite filter_cons. simpl. case_decide as Hk; simpl.
  - by rewrite IH.
  - rewrite IH. subst k0. by rewrite decide_False.
Qed.

Lemma get_set_eq k v d : PyDict.get k (PyDict.set k v d) = Some v.
Proof.
  induction d as [|[k' v'] d IH]; simpl.
  - by rewrite decide_True.
  - destruct (decide (k' = k)) as [->|Hne]; simpl.
    + by rewrite decide_True.
    + by rewrite decide_False.
Qed.

Lemma get_set_ne k k' v d :
  k ≠ k' → PyDict.get k' (PyDict.set k v d) = PyDict.get k' d.
Proof.
  intros Hne. induction d as [|[k0 v0] d IH]; simpl.
  - by rewrite decide_False.
  - destruct (decide (k0 = k)) as [->|Hk]; simpl.
    + by rewrite !decide_False.
    + by rewrite IH.
Qed.

End Registry.

(** ** C7: the reply to unsubscribe *)

(** C7, counterexample: on a server without subscriptions, unsubscribe of
    id 7 is answered with result false and the error 'Unknown subscription':
    the error field is not null.  The same reply answers the second of two
    unsubscribe requests for an id that was registered. *)
Lemma unsubscribe_unknown_sets_error :
  (ParkingServer._process_pubsub_request (unsubscribe_request 1 7) 0
     demo_server).1
  = unknown_subscription_reply 1
  ∧ error (ParkingServer._process_pubsub_request (unsubscribe_request 1 7) 0
             demo_server).1 ≠ None
  ∧ (run [PubsubRequest (subscribe_request 1 "LOT-A") 0;
          PubsubRequest (unsubscribe_request 2 1) 1;
          PubsubRequest (unsubscribe_request 3 1) 1] demo_server).1
    = [Replied (subscribe_request 1 "LOT-A") (ParkingServer.ok (JInt 1) (JInt 1));
       Replied (unsubscribe_request 2 1) (ParkingServer.ok (JInt 2) (JBool true));
       Replied (unsubscribe_request 3 1) (unknown_subscription_reply 3)].
Proof. split; [by vm_compute|]. split; [by vm_compute|]. by vm_compute. Qed.

(** C7, as the code has it: unsubscribe of a registered id answers result
    true with a null error and removes that subscription only; unsubscribe of
    an id that is not registered (as after a first unsubscribe) raises
    nothing and leaves the server as it was, and its reply carries result
    false together with the error 'Unknown subscription'. *)
Theorem unsubscribe_reply (s : ParkingServer.t) (rpc_id sub_id : Z)
    (conn : nat) :
  (is_Some (PyDict.get sub_id (ParkingServer.subscribers s)) →
     (ParkingServer._process_pubsub_request
        (unsubscribe_request rpc_id sub_id) conn s).1
     = ParkingServer.ok (JInt rpc_id) (JBool true)
     ∧ PyDict.get sub_id
         (ParkingServer.subscribers
            (ParkingServer._process_pubsub_request
               (unsubscribe_request rpc_id sub_id) conn s).2) = None
     ∧ (∀ k, k ≠ sub_id →
          PyDict.get k
            (ParkingServer.subscribers
               (ParkingServer._process_pubsub_request
                  (unsubscribe_request rpc_id sub_id) conn s).2)
          = PyDict.get k (ParkingServer.subscribers s))
     ∧ ∀ rpc_id' conn',
         (ParkingServer._process_pubsub_request
            (unsubscribe_request rpc_id' sub_id) conn'
            (ParkingServer._process_pubsub_request
               (unsubscribe_request rpc_id sub_id) conn s).2).1
         = unknown_subscription_reply rpc_id')
  ∧ (PyDict.get sub_id (ParkingServer.subscribers s) = None →
     ParkingServer._process_pubsub_request
       (unsubscribe_request rpc_id sub_id) conn s
     = (unknown_subscription_reply rpc_id, s)).
Proof.
  assert (∀ s' r c, PyDict.get sub_id (ParkingServer.subscribers s') = None →
            ParkingServer._process_pubsub_request
              (unsubscribe_request r sub_id) c s'
            = (unknown_subscription_reply r, s')) as Hunknown.
  { intros s' r c Hnone. unfold ParkingServer._process_pubsub_request.
    simpl. unfold ParkingServer.subscribers_lookup. by rewrite Hnone. }
  split; [|apply Hunknown].
  intros [sub Hsub].
  assert (ParkingServer._process_pubsub_request
            (unsubscribe_request rpc_id sub_id) conn s
          = (ParkingServer.ok (JInt rpc_id) (JBool true),
             ParkingServer.add_log [ParkingServer.InfoUnsubscribed sub_id]
               (ParkingServer.set_subscribers
                  (PyDict.del sub_id (ParkingServer.subscribers s)) s))) as ->.
  { unfold ParkingServer._process_pubsub_request. simpl.
    unfold ParkingServer.subscribers_lookup. by rewrite Hsub. }
  cbn [fst snd]. split; [done|]. split; [apply get_del_eq|]. split.
  - intros k Hk. simpl. by apply get_del_ne.
  - intros r c. rewrite Hunknown; [done|]. apply get_del_eq.
Qed.

Lemma unsubscribe_reply_witness :
  (ParkingServer._process_pubsub_request (unsubscribe_request 1 7) 0
     demo_server).1
  = unknown_subscription_reply 1.
Proof.
  destruct (unsubscribe_reply demo_server 1 7 0) as [_ H].
  rewrite H; reflexivity.
Defined.

(** ** C9: subscription ids *)

Section SubscriptionIds.
Import ParkingServer.

Lemma publish_event_next_sub_id now lot_id fr s :
  next_sub_id (_publish_event now lot_id fr s) = next_sub_id s.
Proof.
  unfold _publish_event. by destruct (publish_loop _ _ _ _).
Qed.

Lemma update_worker_next_sub_id t1 t2 t3 s :
  next_sub_id (_update_worker_step t1 t2 t3 s).1 = next_sub_id s.
Proof.
  unfold _update_worker_step.
  repeat case_match; simpl; rewrite ?publish_event_next_sub_id; done.
Qed.

(** A request either hands out the current counter and advances it by
    one, or leaves the counter alone. *)
Lemma pubsub_request_next_sub_id req conn s :
  match subscribed_id
          (Replied req (_process_pubsub_request req conn s).1) with
  | Some i =>
      i = next_sub_id s
      ∧ next_sub_id (_process_pubsub_request req conn s).2 = next_sub_id s + 1
  | None =>
      next_sub_id s <= next_sub_id (_process_pubsub_request req conn s).2
  end.
Proof.
  unfold subscribed_id, _process_pubsub_request.
  repeat case_match; simplify_eq/=; try done; lia.
Qed.

Lemma step_next_sub_id a s :
  match subscribed_id (step a s).1 with
  | Some i => i = next_sub_id s ∧ next_sub_id (step a s).2 = next_sub_id s + 1
  | None => next_sub_id s <= next_sub_id (step a s).2
  end.
Proof.
  destruct a as [req conn|buffer data|t1 t2 t3|k|k]; simpl.
  - pose proof (pubsub_request_next_sub_id req conn s) as H.
    destruct (_process_pubsub_request req conn s) as [resp s']. exact H.
  - unfold _handle_sensor_client_recv.
    destruct (PyStr.take_lines _ _). simpl. lia.
  - pose proof (update_worker_next_sub_id t1 t2 t3 s) as H.
    destruct (_update_worker_step t1 t2 t3 s) as [s' calls].
    simpl in *. lia.
  - unfold next_event. repeat case_match; simplify_eq/=; lia.
  - unfold teardown. case_match; simpl; lia.
Qed.

Lemma run_cons a acts s :
  run (a :: acts) s
  = ((step a s).1 :: (run acts (step a s).2).1, (run acts (step a s).2).2).
Proof.
  simpl. destruct (step a s) as [o s1]. simpl.
  by destruct (run acts s1).
Qed.

Lemma run_ids_bounds acts s :
  next_sub_id s <= next_sub_id (run acts s).2
  ∧ Forall (λ i, next_sub_id s <= i < next_sub_id (run acts s).2)
      (subscribed_ids (run acts s).1)
  ∧ StronglySorted Z.lt (subscribed_ids (run acts s).1).
Proof.
  revert s. induction acts as [|a acts IH]; intros s.
  - simpl. split; [lia|]. split; constructor.
  - rewrite run_cons. cbn [fst snd].
    pose proof (step_next_sub_id a s) as Hstep.
    destruct (IH (step a s).2) as (Hle & Hall & Hsorted).
    unfold subscribed_ids in *. cbn [omap list_omap].
    destruct (subscribed_id (step a s).1) as [i|].
    + destruct Hstep as [-> Hnext]. rewrite Hnext in Hle, Hall.
      split; [lia|]. split.
      * constructor; [lia|]. eapply Forall_impl; [exact Hall|].
        simpl. intros; lia.
      * constructor; [done|]. eapply Forall_impl; [exact Hall|].
        simpl. intros; lia.
    + split; [lia|]. split; [|done].
      eapply Forall_impl; [exact Hall|]. simpl. intros; lia.
Qed.

End SubscriptionIds.

(** C9: along any run of the server, the ids returned by the successful
    subscribe requests are strictly increasing, hence pairwise distinct;
    each is at least the counter the run started with (1 for a fresh
    server), whatever unsubscribe requests and teardowns happen in
    between. *)
Theorem subscription_ids_increase (acts : list action) (s : ParkingServer.t) :
  StronglySorted Z.lt (subscribed_ids (run acts s).1)
  ∧ NoDup (subscribed_ids (run acts s).1)
  ∧ Forall (λ i, ParkingServer.next_sub_id s <= i
                 < ParkingServer.next_sub_id (run acts s).2)
      (subscribed_ids (run acts s).1).
Proof.
  destruct (run_ids_bounds acts s) as (_ & Hall & Hsorted).
  split; [done|]. split; [|done].
  clear Hall. induction Hsorted as [|i l _ IH Hlt]; constructor; [|done].
  intros Hin. eapply Forall_forall in Hlt; [|exact Hin]. lia.
Qed.

(** Scenario 4: three subscribe requests with an unsubscribe in between. *)
Example subscription_ids_scenario :
  subscribed_ids
    (run [PubsubRequest (subscribe_request 1 "LOT-A") 0;
          PubsubRequest (unsubscribe_request 2 1) 1;
          PubsubRequest (subscribe_request 3 "LOT-A") 2;
          PubsubRequest (subscribe_request 4 "NO-SUCH-LOT") 3;
          PubsubRequest (subscribe_request 5 "LOT-B") 4] demo_server).1
  = [1; 2; 3].
Proof. by vm_compute. Qed.

(** ** C5 and C8: the update worker *)

Section UpdateWorker.
Import ParkingServer.

(** The iteration on a well-formed command, in closed form. *)
Lemma update_worker_step_eq t_read t_update t_publish s cmd q kw lot_id d delta :
  update_queue s = cmd :: q →
  PyStr.split cmd = [kw; lot_id; d] →
  PyStr.upper kw = "UPDATE" →
  PyStr.int d = Some delta →
  _update_worker_step t_read t_update t_publish s
  = match lots s !! lot_id with
    | Some lot =>
        let old_free := (ParkingLot.get_free t_read lot).1 in
        let lot1 := (ParkingLot.get_free t_read lot).2 in
        let new_free := (ParkingLot.update_occupancy t_update delta lot1).1 in
        let lot2 := (ParkingLot.update_occupancy t_update delta lot1).2 in
        let s1 := set_lots (<[lot_id := lot2]> (lots s)) (set_update_queue q s) in
        if bool_decide (old_free ≠ new_free)
        then (_publish_event t_publish lot_id new_free s1, [(lot_id, new_free)])
        else (s1, [])
    | None => (add_log [WarnUnknownLot lot_id] (set_update_queue q s), [])
    end.
Proof.
  intros Hq Hsplit Hkw Hint. unfold _update_worker_step.
  rewrite Hq, Hsplit, Hkw, Hint.
  rewrite bool_decide_eq_true_2 by done.
  change (lots (set_update_queue q s)) with (lots s).
  destruct (lots s !! lot_id) as [lot|]; [|done].
  destruct (ParkingLot.get_free t_read lot) as [old_free lot1].
  cbn [fst snd].
  destruct (ParkingLot.update_occupancy t_update delta lot1) as [new_free lot2].
  done.
Qed.

(** The subscribers after a publication, one by one. *)
Lemma publish_loop_get policy lot_id ev d k :
  PyDict.get k (publish_loop policy lot_id ev d).1
  = (λ sub, (enqueue_event policy lot_id ev sub).1) <$> PyDict.get k d.
Proof.
  induction d as [|[k' sub] d IH]; [done|]. cbn [publish_loop].
  destruct (enqueue_event policy lot_id ev sub) as [sub' es] eqn:He.
  destruct (publish_loop policy lot_id ev d) as [d' es'].
  cbn [fst snd PyDict.get] in *.
  destruct (decide (k' = k)); [|exact IH].
  cbn. by rewrite He.
Qed.

Lemma publish_event_get now lot_id fr s k :
  PyDict.get k (subscribers (_publish_event now lot_id fr s))
  = (λ sub, (enqueue_event (back_pressure_policy (config s)) lot_id
               (mk_event lot_id fr now) sub).1)
      <$> PyDict.get k (subscribers s).
Proof.
  unfold _publish_event. rewrite <- publish_loop_get.
  by destruct (publish_loop _ _ _ _).
Qed.

Lemma publish_event_fields now lot_id fr s :
  config (_publish_event now lot_id fr s) = config s
  ∧ lots (_publish_event now lot_id fr s) = lots s
  ∧ running (_publish_event now lot_id fr s) = running s
  ∧ update_queue (_publish_event now lot_id fr s) = update_queue s.
Proof. unfold _publish_event. by destruct (publish_loop _ _ _ _). Qed.

End UpdateWorker.




Section SensorLines.

Lemma append_empty_r (s : string) : (s ++ "")%string = s.
Proof.
  induction s as [|c s IH]; [done|].
  change (String c (s ++ "")%string = String c s). by rewrite IH.
Qed.

Lemma snoc_append (cur : string) (c : ascii) (rest : string) :
  (PyStr.snoc cur c ++ rest)%string = (cur ++ String c rest)%string.
Proof.
  unfold PyStr.snoc. induction cur as [|c' cur IH]; [done|].
  change (String c' ((cur ++ String c "") ++ rest)%string
          = String c' (cur ++ String c rest)%string).
  by rewrite IH.
Qed.

(** One line followed by its newline: the loop hands out the stripped
    line, if it is not blank, and leaves the buffer empty. *)
Lemma take_lines_one (raw cur : string) :
  PyStr.contains "010"%char raw = false →
  PyStr.take_lines cur (raw ++ String "010"%char "")%string
  = (let line := PyStr.strip (cur ++ raw)%string in
     match line with
     | EmptyString => []
     | _ => [line]
     end, EmptyString).
Proof.
  revert cur. induction raw as [|c raw IH]; intros cur Hnl.
  - rewrite append_empty_r.
    change ("" ++ String "010"%char "")%string with (String "010"%char "").
    reflexivity.
  - simpl in Hnl. apply orb_false_iff in Hnl as [Hc Hraw].
    change (String c raw ++ String "010"%char "")%string
      with (String c (raw ++ String "010"%char ""))%string.
    cbn [PyStr.take_lines]. rewrite Hc.
    rewrite IH by done. by rewrite snoc_append.
Qed.

Lemma split_empty_line : PyStr.split EmptyString = [].
Proof. done. Qed.

End SensorLines.

Section Decoding.

Lemma string_of_list_byte_cons (x : Wire.byte) (a : list Wire.byte) :
  Stdlib.Strings.String.string_of_list_byte (x :: a)
  = String (Stdlib.Strings.Ascii.ascii_of_byte x)
      (Stdlib.Strings.String.string_of_list_byte a).
Proof. done. Qed.

Lemma list_byte_of_string_cons (c : ascii) (data : string) :
  Stdlib.Strings.String.list_byte_of_string (String c data)
  = Stdlib.Strings.Ascii.byte_of_ascii c
    :: Stdlib.Strings.String.list_byte_of_string data.
Proof. done. Qed.

Lemma string_of_list_byte_app (a b : list Wire.byte) :
  Stdlib.Strings.String.string_of_list_byte (a ++ b)
  = (Stdlib.Strings.String.string_of_list_byte a
     ++ Stdlib.Strings.String.string_of_list_byte b)%string.
Proof.
  induction a as [|x a IH]; [done|].
  change ((x :: a) ++ b) with (x :: (a ++ b)).
  change (String (Stdlib.Strings.Ascii.ascii_of_byte x)
            (Stdlib.Strings.String.string_of_list_byte (a ++ b))
          = String (Stdlib.Strings.Ascii.ascii_of_byte x)
              (Stdlib.Strings.String.string_of_list_byte a
               ++ Stdlib.Strings.String.string_of_list_byte b)%string).
  by rewrite IH.
Qed.

Lemma decode_app (a b : list Wire.byte) (data : string) :
  PyBytes.decode (a ++ b) = Some data →
  ∃ da db, PyBytes.decode a = Some da ∧ PyBytes.decode b = Some db
           ∧ data = (da ++ db)%string.
Proof.
  unfold PyBytes.decode. rewrite forallb_app.
  destruct (forallb PyBytes.is_ascii_byte a); [|done].
  destruct (forallb PyBytes.is_ascii_byte b); [|done].
  cbn [andb]. intros [= <-]. eexists _, _. split; [done|]. split; [done|].
  apply string_of_list_byte_app.
Qed.

Lemma decode_nonempty (a : list Wire.byte) (data : string) :
  PyBytes.decode a = Some data → a ≠ [] → data ≠ EmptyString.
Proof.
  unfold PyBytes.decode. destruct (forallb PyBytes.is_ascii_byte a); [|done].
  intros [= <-] Ha. by destruct a.
Qed.

Lemma ascii_of_byte_ascii (b : Wire.byte) :
  PyBytes.is_ascii_byte b = true →
  (nat_of_ascii (Stdlib.Strings.Ascii.ascii_of_byte b) <? 128)%nat = true.
Proof. by destruct b. Qed.

Lemma decode_is_ascii (a : list Wire.byte) (data : string) :
  PyBytes.decode a = Some data → PyStr.is_ascii data = true.
Proof.
  unfold PyBytes.decode.
  destruct (forallb PyBytes.is_ascii_byte a) eqn:Ha; [|done].
  intros [= <-]. induction a as [|x a IH]; [done|].
  cbn [forallb] in Ha. apply andb_true_iff in Ha as [Hx Ha].
  rewrite string_of_list_byte_cons. cbn [PyStr.is_ascii].
  rewrite (ascii_of_byte_ascii x Hx). by apply IH.
Qed.

Lemma byte_of_ascii_ascii (c : ascii) :
  (nat_of_ascii c <? 128)%nat = true →
  PyBytes.is_ascii_byte (Stdlib.Strings.Ascii.byte_of_ascii c) = true.
Proof. by destruct c as [[] [] [] [] [] [] [] []]. Qed.

(** What an ASCII string is encoded to decodes to that string. *)
Lemma decode_encode (data : string) (chunk : list Wire.byte) :
  PyBytes.encode data = Some chunk → PyBytes.decode chunk = Some data.
Proof.
  unfold PyBytes.encode, PyBytes.decode.
  destruct (PyStr.is_ascii data) eqn:Ha; [|done]. intros [= <-].
  assert (forallb PyBytes.is_ascii_byte
            (Stdlib.Strings.String.list_byte_of_string data) = true) as ->.
  { induction data as [|c data IH]; [done|].
    cbn [PyStr.is_ascii] in Ha. apply andb_true_iff in Ha as [Hc Ha].
    rewrite list_byte_of_string_cons. cbn [forallb].
    rewrite (byte_of_ascii_ascii c Hc). by apply IH. }
  by rewrite Stdlib.Strings.String.string_of_list_byte_of_string.
Qed.

Lemma is_ascii_append (a b : string) :
  PyStr.is_ascii (a ++ b)%string = PyStr.is_ascii a && PyStr.is_ascii b.
Proof.
  induction a as [|c a IH]; [done|].
  change (String c a ++ b)%string with (String c (a ++ b)%string).
  cbn [PyStr.is_ascii]. rewrite IH. by rewrite andb_assoc.
Qed.

(** The pass of the sensor loop on a chunk that decodes to text. *)
Lemma handle_sensor_client_decoded (buffer data : string)
    (chunk : list Wire.byte) (s : ParkingServer.t) :
  PyBytes.decode chunk = Some data → data ≠ EmptyString →
  _handle_sensor_client buffer chunk s
  = Some (Some (ParkingServer._handle_sensor_client_recv buffer data s).1,
          (ParkingServer._handle_sensor_client_recv buffer data s).2).
Proof.
  intros Hd Hne. unfold _handle_sensor_client. rewrite Hd.
  destruct data as [|c data]; [done|].
  by destruct (ParkingServer._handle_sensor_client_recv _ _ _).
Qed.

End Decoding.

(** C8: a chunk received on the sensor connection that holds one line of
    ASCII text, whatever lot the line names, is answered with the one line
    ["ACK\n"] and the line is queued; when the worker takes that line, a
    well-formed update naming a lot that is not registered, it only logs a
    warning: the lots, the subscribers and the [running] flag are as before,
    and no publication is made. *)
Theorem unknown_lot_update_discarded (t_read t_update t_publish : Z)
    (s0 s : ParkingServer.t) (chunk : list Wire.byte) (raw line : string)
    (q : list string) (kw lot_id d : string) (delta : Z) :
  (length chunk <= recv_size)%nat →
  PyBytes.decode chunk = Some (raw ++ String "010"%char "")%string →
  PyStr.contains "010"%char raw = false →
  PyStr.strip raw = line →
  PyStr.split line = [kw; lot_id; d] →
  PyStr.upper kw = "UPDATE" →
  PyStr.int d = Some delta →
  Z.of_nat (String.length d) <= PyStr.max_str_digits →
  ParkingServer.update_queue s = line :: q →
  ParkingServer.lots s !! lot_id = None →
  _handle_sensor_client "" chunk s0
  = Some (Some ("", [String "A"%char (String "C"%char (String "K"%char
                       (String "010"%char EmptyString)))]),
          ParkingServer.set_update_queue
            (ParkingServer.update_queue s0 ++ [line]) s0)
  ∧ ParkingServer._update_worker_step t_read t_update t_publish s
    = (ParkingServer.add_log [ParkingServer.WarnUnknownLot lot_id]
         (ParkingServer.set_update_queue q s), [])
  ∧ ParkingServer.lots
      (ParkingServer._update_worker_step t_read t_update t_publish s).1
    = ParkingServer.lots s
  ∧ ParkingServer.subscribers
      (ParkingServer._update_worker_step t_read t_update t_publish s).1
    = ParkingServer.subscribers s
  ∧ ParkingServer.running
      (ParkingServer._update_worker_step t_read t_update t_publish s).1
    = ParkingServer.running s
  ∧ ParkingServer.log
      (ParkingServer._update_worker_step t_read t_update t_publish s).1
    = ParkingServer.log s ++ [ParkingServer.WarnUnknownLot lot_id].
Proof.
  intros _ Hdec Hnl Hstrip Hsplit Hkw Hint _ Hq Hlot. split.
  - rewrite (handle_sensor_client_decoded _ _ _ _ Hdec) by (by destruct raw).
    unfold ParkingServer._handle_sensor_client_recv.
    change ("" ++ (raw ++ String "010"%char ""))%string
      with (raw ++ String "010"%char "")%string.
    rewrite take_lines_one by done.
    change ("" ++ raw)%string with raw. rewrite Hstrip. cbv zeta.
    destruct line as [|c line]; [|done].
    by rewrite split_empty_line in Hsplit.
  - rewrite (update_worker_step_eq _ _ _ _ _ _ _ _ _ _ Hq Hsplit Hkw Hint), Hlot.
    done.
Qed.

(** An update for a lot the configuration does not have, from the socket
    to the worker. *)
Lemma unknown_lot_update_discarded_witness :
  ∃ chunk,
    PyBytes.encode
      (" UPDATE LOT-Z +1" ++ String "013"%char (String "010"%char ""))%string
    = Some chunk
    ∧ _handle_sensor_client "" chunk demo_server
      = Some (Some ("", [String "A"%char (String "C"%char (String "K"%char
                           (String "010"%char EmptyString)))]),
              ParkingServer.set_update_queue ["UPDATE LOT-Z +1"] demo_server)
    ∧ ParkingServer._update_worker_step 1 2 3
        (ParkingServer.set_update_queue ["UPDATE LOT-Z +1"] demo_server)
      = (ParkingServer.add_log [ParkingServer.WarnUnknownLot "LOT-Z"]
           demo_server, []).
Proof.
  eexists. split; [reflexivity|].
  assert (Z.of_nat (String.length "+1") <= PyStr.max_str_digits) as Hlen
    by (by vm_compute).
  assert (length (Stdlib.Strings.String.list_byte_of_string
                    (" UPDATE LOT-Z +1"
                       ++ String "013"%char (String "010"%char ""))%string)
          <= recv_size)%nat as Hsize by (vm_compute; lia).
  destruct (unknown_lot_update_discarded 1 2 3 demo_server
              (ParkingServer.set_update_queue ["UPDATE LOT-Z +1"] demo_server)
              (Stdlib.Strings.String.list_byte_of_string
                 (" UPDATE LOT-Z +1"
                    ++ String "013"%char (String "010"%char ""))%string)
              (" UPDATE LOT-Z +1" ++ String "013"%char "")%string
              "UPDATE LOT-Z +1" [] "UPDATE" "LOT-Z" "+1" 1
              Hsize eq_refl eq_refl eq_refl eq_refl eq_refl eq_refl Hlen
              eq_refl eq_refl)
    as (Hack & Hstep & _).
  split.
  - etransitivity; [exact Hack|]. reflexivity.
  - etransitivity; [exact Hstep|]. reflexivity.
Defined.

(** ** C6: the bounded queue of a subscriber *)

Section Backpressure.
Import ParkingServer.

Lemma enqueue_event_room policy lot_id ev sub :
  Subscriber.lot_id sub = lot_id →
  Subscriber.active sub = true →
  Queue.full (Subscriber.queue sub) = false →
  enqueue_event policy lot_id ev sub
  = (Subscriber.set_queue
       (Queue.mk (Queue.maxsize (Subscriber.queue sub))
                 (Queue.items (Subscriber.queue sub) ++ [ev])) sub, []).
Proof.
  intros Hlot Hact Hfull. unfold enqueue_event, Queue.put_nowait.
  rewrite bool_decide_eq_true_2, Hact, Hfull by done. cbn [andb].
  by destruct (bool_decide (policy = "drop_oldest")).
Qed.

Lemma full_queue (q : Queue.t Event) :
  0 < Queue.maxsize q → Queue.qsize q = Queue.maxsize q →
  Queue.full q = true
  ∧ ∃ x rest, Queue.items q = x :: rest
              ∧ Queue.full (Queue.mk (Queue.maxsize q) rest) = false.
Proof.
  intros Hpos Hsize. unfold Queue.full, Queue.qsize in *. split.
  - apply andb_true_iff. split; [by apply Z.ltb_lt|apply Z.leb_le; lia].
  - destruct (Queue.items q) as [|x rest] eqn:Hitems; simpl in *; [lia|].
    exists x, rest. split; [done|].
    apply andb_false_iff. right. apply Z.leb_gt. lia.
Qed.

Lemma enqueue_event_full_drop_oldest lot_id ev sub :
  Subscriber.lot_id sub = lot_id →
  Subscriber.active sub = true →
  0 < Queue.maxsize (Subscriber.queue sub) →
  Queue.qsize (Subscriber.queue sub) = Queue.maxsize (Subscriber.queue sub) →
  enqueue_event "drop_oldest" lot_id ev sub
  = (Subscriber.set_queue
       (Queue.mk (Queue.maxsize (Subscriber.queue sub))
                 (tail (Queue.items (Subscriber.queue sub)) ++ [ev])) sub,
     [WarnDroppedOldest (Subscriber.sub_id sub)]).
Proof.
  intros Hlot Hact Hpos Hsize.
  destruct (full_queue _ Hpos Hsize) as [Hfull (x & rest & Hitems & Hroom)].
  unfold enqueue_event, Queue.put_nowait, Queue.get_nowait.
  rewrite bool_decide_eq_true_2, Hact, Hfull, Hitems by done.
  cbn [andb]. rewrite bool_decide_eq_true_2 by done.
  cbn [Queue.maxsize Queue.items] in *. by rewrite Hroom.
Qed.

Lemma enqueue_event_full_default policy lot_id ev sub :
  Subscriber.lot_id sub = lot_id →
  Subscriber.active sub = true →
  Queue.full (Subscriber.queue sub) = true →
  policy ≠ "drop_oldest" →
  enqueue_event policy lot_id ev sub
  = (sub, [ErrQueueEvent (Subscriber.sub_id sub)]).
Proof.
  intros Hlot Hact Hfull Hpol. unfold enqueue_event, Queue.put_nowait.
  rewrite bool_decide_eq_true_2, Hact, Hfull by done. cbn [andb].
  by rewrite bool_decide_eq_false_2.
Qed.

Lemma enqueue_each_cons policy lot_id ev evs sub :
  enqueue_each policy lot_id (ev :: evs) sub
  = enqueue_each policy lot_id evs (enqueue_event policy lot_id ev sub).1.
Proof. done. Qed.

Lemma publish_each_cons lot_id now fr evs s :
  publish_each lot_id ((now, fr) :: evs) s
  = publish_each lot_id evs (_publish_event now lot_id fr s).
Proof. done. Qed.

(** While there is room, the events queue up in order. *)
Lemma enqueue_each_room policy lot_id evs sub :
  Subscriber.lot_id sub = lot_id →
  Subscriber.active sub = true →
  Queue.qsize (Subscriber.queue sub) + Z.of_nat (length evs)
    <= Queue.maxsize (Subscriber.queue sub) →
  enqueue_each policy lot_id evs sub
  = Subscriber.set_queue
      (Queue.mk (Queue.maxsize (Subscriber.queue sub))
                (Queue.items (Subscriber.queue sub) ++ evs)) sub.
Proof.
  revert sub. induction evs as [|ev evs IH]; intros sub Hlot Hact Hlen.
  - simpl. rewrite app_nil_r. by destruct sub as [? ? ? [? ?] ?].
  - rewrite enqueue_each_cons.
    rewrite enqueue_event_room; [|done|done|].
    + cbn [fst]. rewrite IH.
      * cbn. by rewrite <- app_assoc.
      * done.
      * done.
      * unfold Queue.qsize in *. cbn in *. rewrite length_app. cbn. lia.
    + unfold Queue.full, Queue.qsize in *. cbn [length] in Hlen.
      apply andb_false_iff. right. apply Z.leb_gt. lia.
Qed.

Lemma enqueue_each_app policy lot_id evs1 evs2 sub :
  enqueue_each policy lot_id (evs1 ++ evs2) sub
  = enqueue_each policy lot_id evs2 (enqueue_each policy lot_id evs1 sub).
Proof. unfold enqueue_each. apply foldl_app. Qed.

(** A queue of size N that was empty holds, after N + 1 events, all of
    them but the first. *)
Lemma enqueue_each_overflow lot_id evs sub :
  Subscriber.lot_id sub = lot_id →
  Subscriber.active sub = true →
  Queue.items (Subscriber.queue sub) = [] →
  0 < Queue.maxsize (Subscriber.queue sub) →
  Z.of_nat (length evs) = Queue.maxsize (Subscriber.queue sub) + 1 →
  enqueue_each "drop_oldest" lot_id evs sub
  = Subscriber.set_queue
      (Queue.mk (Queue.maxsize (Subscriber.queue sub)) (tail evs)) sub.
Proof.
  intros Hlot Hact Hempty Hpos Hlen.
  destruct (decide (evs = [])) as [->|Hne]; [simpl in Hlen; lia|].
  destruct (exists_last Hne) as (pre & ev & ->).
  rewrite length_app in Hlen. cbn [length] in Hlen.
  assert (Queue.qsize (Subscriber.queue sub) + Z.of_nat (length pre)
          <= Queue.maxsize (Subscriber.queue sub)) as Hroom.
  { unfold Queue.qsize. rewrite Hempty. cbn [length]. lia. }
  rewrite enqueue_each_app.
  rewrite (enqueue_each_room _ _ _ _ Hlot Hact Hroom).
  rewrite enqueue_each_cons.
  rewrite enqueue_event_full_drop_oldest; [|done|done|done|].
  - cbn. rewrite Hempty. cbn [app].
    destruct pre as [|e pre]; [simpl in Hlen; lia|done].
  - unfold Queue.qsize. cbn. rewrite Hempty. cbn [app]. lia.
Qed.

Lemma publish_each_config lot_id evs s :
  config (publish_each lot_id evs s) = config s
  ∧ running (publish_each lot_id evs s) = running s.
Proof.
  revert s. induction evs as [|[now fr] evs IH]; intros s; [done|].
  rewrite publish_each_cons.
  destruct (IH (_publish_event now lot_id fr s)) as [-> ->].
  by destruct (publish_event_fields now lot_id fr s) as (-> & _ & -> & _).
Qed.

Lemma publish_each_get lot_id evs s k :
  PyDict.get k (subscribers (publish_each lot_id evs s))
  = enqueue_each (back_pressure_policy (config s)) lot_id
      (event_of lot_id <$> evs)
    <$> PyDict.get k (subscribers s).
Proof.
  revert s. induction evs as [|[now fr] evs IH]; intros s.
  - cbn. by destruct (PyDict.get k (subscribers s)).
  - rewrite publish_each_cons.
    rewrite IH, publish_event_get.
    destruct (publish_event_fields now lot_id fr s) as (-> & _).
    by destruct (PyDict.get k (subscribers s)).
Qed.

End Backpressure.

(** C6: for a live subscriber of the lot whose queue is bounded by
    N > 0.  When the queue holds N events, a publication under
    [drop_oldest] replaces the oldest queued event by the new one at the
    tail, and a publication under any other policy leaves the queue as it
    was: the new event is dropped, the call returns, and every other
    subscriber is served by the same loop body on its own queue.  Under
    [drop_oldest], after N + 1 publications on an empty queue with no
    delivery in between, the next event delivered is the second one
    published. *)
Theorem publish_on_bounded_queue (s : ParkingServer.t) (k : Z)
    (sub : Subscriber.t) (lot_id : string) (N : Z) :
  PyDict.get k (ParkingServer.subscribers s) = Some sub →
  Subscriber.lot_id sub = lot_id →
  Subscriber.active sub = true →
  Queue.maxsize (Subscriber.queue sub) = N →
  0 < N →
  (Queue.qsize (Subscriber.queue sub) = N →
   ∀ now fr,
     (ParkingServer.back_pressure_policy (ParkingServer.config s) = "drop_oldest" →
      PyDict.get k (ParkingServer.subscribers
                      (ParkingServer._publish_event now lot_id fr s))
      = Some (Subscriber.set_queue
                (Queue.mk N (tail (Queue.items (Subscriber.queue sub))
                             ++ [mk_event lot_id fr now])) sub))
     ∧ (ParkingServer.back_pressure_policy (ParkingServer.config s) ≠ "drop_oldest" →
        PyDict.get k (ParkingServer.subscribers
                        (ParkingServer._publish_event now lot_id fr s))
        = Some sub)
     ∧ (∀ k' sub',
          PyDict.get k' (ParkingServer.subscribers s) = Some sub' →
          PyDict.get k' (ParkingServer.subscribers
                           (ParkingServer._publish_event now lot_id fr s))
          = Some (ParkingServer.enqueue_event
                    (ParkingServer.back_pressure_policy (ParkingServer.config s))
                    lot_id (mk_event lot_id fr now) sub').1))
  ∧ (Queue.items (Subscriber.queue sub) = [] →
     ParkingServer.back_pressure_policy (ParkingServer.config s) = "drop_oldest" →
     ParkingServer.running s = true →
     ∀ evs : list (Z * Z),
       Z.of_nat (length evs) = N + 1 →
       (ParkingServer.next_event k (publish_each lot_id evs s)).1
       = event_of lot_id <$> evs !! 1%nat).
Proof.
  intros Hk Hlot Hact Hmax Hpos. split.
  - intros Hsize now fr. rewrite <- Hmax in *. split; [|split].
    + intros Hpol. rewrite publish_event_get, Hk, Hpol. cbn [fmap option_fmap option_map].
      by rewrite enqueue_event_full_drop_oldest.
    + intros Hpol. rewrite publish_event_get, Hk. cbn [fmap option_fmap option_map].
      rewrite enqueue_event_full_default; try done.
      by destruct (full_queue _ Hpos Hsize).
    + intros k' sub' Hk'. by rewrite publish_event_get, Hk'.
  - intros Hempty Hpol Hrun evs Hlen.
    unfold ParkingServer.next_event.
    rewrite publish_each_get, Hk, Hpol. cbn [fmap option_fmap option_map].
    destruct (publish_each_config lot_id evs s) as [_ ->]. rewrite Hrun.
    rewrite enqueue_each_overflow; try done.
    + cbn. rewrite Hact. unfold Queue.get_nowait. cbn.
      destruct evs as [|p1 [|p2 evs]]; cbn in *; try lia. done.
    + lia.
    + rewrite length_fmap. lia.
Qed.

Lemma publish_on_bounded_queue_witness :
  (ParkingServer.next_event 1
     (publish_each "LOT-A" [(1, 3); (2, 4); (3, 5); (4, 6)]
        one_subscriber_server)).1
  = Some (mk_event "LOT-A" 4 2)
  ∧ (Queue.items ∘ Subscriber.queue <$>
       PyDict.get 1 (ParkingServer.subscribers
          (ParkingServer._publish_event 2 "LOT-A" 4
             (ParkingServer._publish_event 1 "LOT-A" 3 blocking_server))))
    = Some [mk_event "LOT-A" 3 1].
Proof.
  split.
  - pose proof (publish_on_bounded_queue one_subscriber_server 1
                  (Subscriber.init 1 "LOT-A" 0 3) "LOT-A" 3
                  eq_refl eq_refl eq_refl eq_refl eq_refl) as [_ H].
    exact (H eq_refl eq_refl eq_refl [(1, 3); (2, 4); (3, 5); (4, 6)] eq_refl).
  - pose proof (publish_on_bounded_queue
                  (ParkingServer._publish_event 1 "LOT-A" 3 blocking_server) 1
                  (Subscriber.set_queue (Queue.mk 1 [mk_event "LOT-A" 3 1])
                     (Subscriber.init 1 "LOT-A" 0 1)) "LOT-A" 1
                  eq_refl eq_refl eq_refl eq_refl eq_refl) as [H _].
    destruct (H eq_refl 2 4) as (_ & Hdrop & _).
    rewrite Hdrop; [reflexivity|]. vm_compute. discriminate.
Defined.

(** * Further properties of the lot *)

Section LazySweep.
Import ParkingLot.

Lemma is_expired_mono t1 t2 r :
  t1 <= t2 → Reservation.is_expired t1 r = true →
  Reservation.is_expired t2 r = true.
Proof.
  unfold Reservation.is_expired. rewrite !Z.ltb_lt. lia.
Qed.

Lemma cleanup_cleanup t1 t2 l :
  t1 <= t2 →
  _cleanup_expired_reservations t2 (_cleanup_expired_reservations t1 l)
  = _cleanup_expired_reservations t2 l.
Proof.
  intros Ht. apply lot_eq; try done.
  apply map_eq. intros p. rewrite !cleanup_lookup.
  destruct (reservations l !! p) as [r|]; [|done].
  destruct (Reservation.is_expired t1 r) eqn:E1; [|done].
  by rewrite (is_expired_mono t1 t2 r Ht E1).
Qed.

End LazySweep.

(** X1: the sweep is lazy without being observable.  For t1 <= t2, a
    [get_free] at t2 returns the same count and leaves the same lot whether
    or not a [get_free] ran at t1 in between; and the count read at t2 is at
    least the one read at t1. *)
Theorem get_free_lazy (t1 t2 : Z) (l : ParkingLot.t) :
  t1 <= t2 →
  ParkingLot.get_free t2 (ParkingLot.get_free t1 l).2 = ParkingLot.get_free t2 l
  ∧ (ParkingLot.get_free t1 l).1 <= (ParkingLot.get_free t2 l).1.
Proof.
  intros Ht. rewrite !get_free_eq. cbn [fst snd].
  rewrite (cleanup_cleanup t1 t2 l Ht). split; [done|].
  rewrite <- (cleanup_cleanup t1 t2 l Ht).
  pose proof (cleanup_len t2 (ParkingLot._cleanup_expired_reservations t1 l)) as H.
  unfold free. cbn. cbn in H. lia.
Qed.

Lemma get_free_lazy_witness :
  (ParkingLot.get_free 6000000 lot_with_stale_X).1 = 2
  ∧ (ParkingLot.get_free 1 lot_with_stale_X).1 <= 2.
Proof.
  pose proof (get_free_lazy 1 6000000 lot_with_stale_X) as [Heq Hle]; [lia|].
  split; [reflexivity|]. exact Hle.
Defined.

Section ReserveCancel.
Import ParkingLot.

(** The state after a reserve that returned OK. *)
Lemma reserve_ok_state now plate ttl l :
  (reserve now plate ttl l).1 = OK →
  reservations (swept now l) !! plate = None
  ∧ 0 < free (swept now l)
  ∧ (reserve now plate ttl l).2
    = set_reservations
        (<[plate := Reservation.init now (id l) plate ttl]>
           (reservations (swept now l)))
        (swept now l).
Proof.
  rewrite reserve_eq. unfold Reserve_spec. cbv zeta.
  destruct (reservations (swept now l) !! plate); [done|].
  destruct (free (swept now l) <=? 0) eqn:Hf; [done|].
  apply Z.leb_gt in Hf. done.
Qed.

End ReserveCancel.

(** X2: reserve and cancel undo each other.  When [reserve] returns OK, a
    [cancel] of the same plate returns OK and leaves the lot exactly as the
    sweep of [reserve] left it; in between, with a timeout of at least 0,
    [get_free] at the same instant reads one spot less than before the
    reservation. *)
Theorem reserve_cancel_round_trip (now : Z) (plate : string) (ttl : Z)
    (l : ParkingLot.t) :
  (ParkingLot.reserve now plate ttl l).1 = ParkingLot.OK →
  ParkingLot.cancel plate (ParkingLot.reserve now plate ttl l).2
  = (ParkingLot.OK, ParkingLot._cleanup_expired_reservations now l)
  ∧ (0 <= ttl →
     (ParkingLot.get_free now (ParkingLot.reserve now plate ttl l).2).1
     = (ParkingLot.get_free now l).1 - 1).
Proof.
  intros Hok. destruct (reserve_ok_state _ _ _ _ Hok) as (Hnone & Hfree & ->).
  split.
  - rewrite cancel_eq. cbn [ParkingLot.reservations ParkingLot.set_reservations].
    rewrite lookup_insert_eq. rewrite delete_insert_id by done.
    rewrite cleanup_swept. f_equal.
  - intros Httl. rewrite !get_free_eq. cbn [fst]. rewrite !cleanup_swept.
    unfold free, ParkingLot.len_reservations.
    assert (ParkingLot.reservations
              (swept now
                 (ParkingLot.set_reservations
                    (<[plate:=Reservation.init now (ParkingLot.id l) plate ttl]>
                       (ParkingLot.reservations (swept now l))) (swept now l)))
            = <[plate:=Reservation.init now (ParkingLot.id l) plate ttl]>
                (ParkingLot.reservations (swept now l))) as ->.
    { apply map_eq. intros p. rewrite swept_lookup.
      cbn [ParkingLot.reservations ParkingLot.set_reservations].
      destruct (decide (p = plate)) as [->|Hne].
      - rewrite lookup_insert_eq. unfold Reservation.is_expired.
        cbn. unfold Reservation.timedelta_seconds.
        by rewrite (proj2 (Z.ltb_ge _ _)) by lia.
      - rewrite lookup_insert_ne by done.
        rewrite swept_lookup.
        destruct (ParkingLot.reservations l !! p) as [r|]; [|done].
        destruct (Reservation.is_expired now r) eqn:E; [done|]. by rewrite E. }
    rewrite map_size_insert_None by done.
    change (ParkingLot.capacity (swept now (ParkingLot.set_reservations _ _)))
      with (ParkingLot.capacity (swept now l)).
    change (ParkingLot.occupied (swept now (ParkingLot.set_reservations _ _)))
      with (ParkingLot.occupied (swept now l)).
    lia.
Qed.

Lemma reserve_cancel_round_trip_witness :
  ParkingLot.cancel "X" (ParkingLot.reserve 0 "X" 300 lot_8_of_10).2
  = (ParkingLot.OK, lot_8_of_10)
  ∧ (ParkingLot.get_free 0 (ParkingLot.reserve 0 "X" 300 lot_8_of_10).2).1 = 1.
Proof.
  pose proof (reserve_cancel_round_trip 0 "X" 300 lot_8_of_10 eq_refl)
    as [Hcancel Hfree].
  split.
  - etransitivity; [exact Hcancel|]. reflexivity.
  - etransitivity; [apply Hfree; lia|]. reflexivity.
Defined.

(** X3: a reservation made with a negative timeout is admitted (OK) but is
    already expired: the next sweep at the same instant removes it, so
    [get_free] reads the same count as before the reservation and a second
    [reserve] of the plate is admitted again. *)
Theorem reserve_negative_timeout (now : Z) (plate : string) (ttl : Z)
    (l : ParkingLot.t) :
  ttl < 0 →
  (ParkingLot.reserve now plate ttl l).1 = ParkingLot.OK →
  ParkingLot.get_free now (ParkingLot.reserve now plate ttl l).2
  = ParkingLot.get_free now l
  ∧ (ParkingLot.reserve now plate ttl
       (ParkingLot.reserve now plate ttl l).2).1 = ParkingLot.OK.
Proof.
  intros Httl Hok. destruct (reserve_ok_state _ _ _ _ Hok) as (Hnone & Hfree & Hst).
  assert (ParkingLot._cleanup_expired_reservations now
            (ParkingLot.reserve now plate ttl l).2
          = ParkingLot._cleanup_expired_reservations now l) as Hsweep.
  { rewrite Hst. apply lot_eq; try done.
    apply map_eq. intros p. rewrite cleanup_lookup.
    cbn [ParkingLot.reservations ParkingLot.set_reservations].
    destruct (decide (p = plate)) as [->|Hne].
    - rewrite lookup_insert_eq. unfold Reservation.is_expired.
      cbn [Reservation.expires_at Reservation.init].
      unfold Reservation.timedelta_seconds.
      rewrite (proj2 (Z.ltb_lt _ _)) by lia.
      by rewrite cleanup_swept.
    - rewrite lookup_insert_ne by done. rewrite cleanup_lookup, swept_lookup.
      destruct (ParkingLot.reservations l !! p) as [r|]; [|done].
      destruct (Reservation.is_expired now r) eqn:E; [done|]. by rewrite E. }
  split.
  - by rewrite !get_free_eq, Hsweep.
  - rewrite reserve_eq. unfold Reserve_spec. cbv zeta.
    rewrite <- !cleanup_swept, Hsweep, !cleanup_swept, Hnone.
    by rewrite (proj2 (Z.leb_gt _ _)) by lia.
Qed.

Lemma reserve_negative_timeout_witness :
  (ParkingLot.get_free 0 (ParkingLot.reserve 0 "X" (-1) lot_8_of_10).2).1 = 2.
Proof.
  pose proof (reserve_negative_timeout 0 "X" (-1) lot_8_of_10) as [H _];
    [lia|reflexivity|].
  rewrite H. reflexivity.
Defined.

(** X4: [cancel] removes the entry of the plate and nothing else.  After a
    cancel the plate is absent and every other plate is as before; a cancel
    that returned OK frees exactly one spot, one that returned NOT_FOUND left
    the lot as it was; and a second cancel of the plate returns NOT_FOUND. *)
Theorem cancel_twice (plate : string) (l : ParkingLot.t) :
  ParkingLot.reservations (ParkingLot.cancel plate l).2 !! plate = None
  ∧ (∀ p, p ≠ plate →
       ParkingLot.reservations (ParkingLot.cancel plate l).2 !! p
       = ParkingLot.reservations l !! p)
  ∧ ((ParkingLot.cancel plate l).1 = ParkingLot.OK →
     free (ParkingLot.cancel plate l).2 = free l + 1)
  ∧ ((ParkingLot.cancel plate l).1 = ParkingLot.NOT_FOUND →
     (ParkingLot.cancel plate l).2 = l)
  ∧ ParkingLot.cancel plate (ParkingLot.cancel plate l).2
    = (ParkingLot.NOT_FOUND, (ParkingLot.cancel plate l).2).
Proof.
  rewrite cancel_eq.
  destruct (ParkingLot.reservations l !! plate) as [r|] eqn:Hp; cbn [fst snd].
  - split; [apply lookup_delete_eq|]. split.
    { intros p Hne. cbn. by apply lookup_delete_ne. }
    split.
    { intros _. unfold free, ParkingLot.len_reservations. cbn.
      rewrite map_size_delete_Some by eauto.
      assert (size (ParkingLot.reservations l) ≠ 0%nat).
      { apply map_size_non_empty_iff. intros Hempty.
        by rewrite Hempty, lookup_empty in Hp. }
      lia. }
    split; [done|].
    rewrite cancel_eq. cbn. by rewrite lookup_delete_eq.
  - split; [done|]. split; [done|]. split; [done|]. split; [done|].
    by rewrite cancel_eq, Hp.
Qed.

Lemma cancel_twice_witness :
  free (ParkingLot.cancel "X" lot_with_stale_X).2 = 2
  ∧ (ParkingLot.cancel "Y" lot_with_stale_X).2 = lot_with_stale_X.
Proof.
  pose proof (cancel_twice "X" lot_with_stale_X) as (_ & _ & Hok & _).
  pose proof (cancel_twice "Y" lot_with_stale_X) as (_ & _ & _ & Hnf & _).
  split.
  - etransitivity; [apply Hok; reflexivity|]. reflexivity.
  - apply Hnf. reflexivity.
Defined.

(** X5: a reservation is held up to and including its expiry instant.
    After a [reserve] at [t0] with timeout [ttl] returned OK, a [get_free] at
    instant [t] still finds the plate reserved exactly when
    t <= t0 + ttl seconds. *)
Theorem reservation_held_until_expiry (t0 t : Z) (plate : string) (ttl : Z)
    (l : ParkingLot.t) :
  (ParkingLot.reserve t0 plate ttl l).1 = ParkingLot.OK →
  is_Some (ParkingLot.reservations
             (ParkingLot.get_free t (ParkingLot.reserve t0 plate ttl l).2).2
           !! plate)
  ↔ t <= t0 + ttl * 1000000.
Proof.
  intros Hok. destruct (reserve_ok_state _ _ _ _ Hok) as (_ & _ & ->).
  rewrite get_free_eq. cbn [snd]. rewrite cleanup_lookup.
  cbn [ParkingLot.reservations ParkingLot.set_reservations].
  rewrite lookup_insert_eq. unfold Reservation.is_expired.
  cbn [Reservation.expires_at Reservation.init].
  unfold Reservation.timedelta_seconds.
  destruct (t0 + ttl * 1000000 <? t) eqn:E.
  - apply Z.ltb_lt in E. split; [by intros [? ?]|lia].
  - apply Z.ltb_ge in E. split; [done|eauto].
Qed.

Lemma reservation_held_until_expiry_witness :
  is_Some (ParkingLot.reservations
             (ParkingLot.get_free 5000000 lot_with_stale_X).2 !! "X")
  ∧ ¬ is_Some (ParkingLot.reservations
                 (ParkingLot.get_free 5000001 lot_with_stale_X).2 !! "X").
Proof.
  split.
  - apply (reservation_held_until_expiry 0 5000000 "X" 5 lot_8_of_10 eq_refl).
    lia.
  - intros H.
    apply (reservation_held_until_expiry 0 5000001 "X" 5 lot_8_of_10 eq_refl)
      in H.
    lia.
Defined.

(** X6: deltas that stay within [0, capacity] add up.  When neither
    occupied + d1 nor occupied + d1 + d2 leaves the range, two calls of
    [update_occupancy] leave occupied + d1 + d2; so a delta followed by its
    opposite restores the occupancy. *)
Theorem deltas_in_range_add_up (t1 t2 d1 d2 : Z) (l : ParkingLot.t) :
  0 <= ParkingLot.occupied l + d1 <= ParkingLot.capacity l →
  0 <= ParkingLot.occupied l + d1 + d2 <= ParkingLot.capacity l →
  ParkingLot.occupied
    (ParkingLot.update_occupancy t2 d2
       (ParkingLot.update_occupancy t1 d1 l).2).2
  = ParkingLot.occupied l + d1 + d2.
Proof.
  intros H1 H2. rewrite !update_occupancy_eq. cbv zeta. cbn. lia.
Qed.

Lemma deltas_in_range_add_up_witness :
  ParkingLot.occupied
    (ParkingLot.update_occupancy 2 (-2)
       (ParkingLot.update_occupancy 1 2 lot_8_of_10).2).2 = 8.
Proof.
  etransitivity;
    [apply (deltas_in_range_add_up 1 2 2 (-2) lot_8_of_10); simpl; lia|].
  reflexivity.
Defined.

(** * Further properties of the line-oriented paths *)

Section Lines.

Lemma append_assoc (a b c : string) :
  ((a ++ b) ++ c)%string = (a ++ (b ++ c))%string.
Proof.
  induction a as [|x a IH]; [done|].
  change (String x ((a ++ b) ++ c)%string = String x (a ++ (b ++ c))%string).
  by rewrite IH.
Qed.

Lemma append_cons (x : ascii) (a b : string) :
  (String x a ++ b)%string = String x (a ++ b)%string.
Proof. done. Qed.

Lemma append_nil_l (a : string) : ("" ++ a)%string = a.
Proof. done. Qed.

Lemma contains_append (c : ascii) (a b : string) :
  PyStr.contains c (a ++ b)%string = PyStr.contains c a || PyStr.contains c b.
Proof.
  induction a as [|x a IH]; [done|].
  rewrite append_cons. cbn [PyStr.contains]. rewrite IH. by rewrite orb_assoc.
Qed.

Lemma contains_snoc (c : ascii) (a : string) (x : ascii) :
  PyStr.contains c (PyStr.snoc a x) = PyStr.contains c a || Ascii.eqb x c.
Proof.
  unfold PyStr.snoc. rewrite contains_append. cbn [PyStr.contains].
  by rewrite orb_false_r.
Qed.

(** The text carried since the last newline can as well be put back in
    front of the buffer. *)
Lemma take_lines_carry (cur buffer : string) :
  PyStr.contains "010"%char cur = false →
  ∀ cur0, PyStr.take_lines cur0 (cur ++ buffer)%string
          = PyStr.take_lines (cur0 ++ cur)%string buffer.
Proof.
  induction cur as [|x cur IH]; intros Hnl cur0.
  - by rewrite append_nil_l, append_empty_r.
  - cbn [PyStr.contains] in Hnl. apply orb_false_iff in Hnl as [Hx Hnl].
    rewrite append_cons. cbn [PyStr.take_lines]. rewrite Hx.
    rewrite IH by done. by rewrite snoc_append.
Qed.

(** What stays in the buffer holds no newline. *)
Lemma take_lines_rest (buffer cur : string) :
  PyStr.contains "010"%char cur = false →
  PyStr.contains "010"%char (PyStr.take_lines cur buffer).2 = false.
Proof.
  revert cur. induction buffer as [|x buffer IH]; intros cur Hnl; [done|].
  cbn [PyStr.take_lines]. destruct (Ascii.eqb x "010"%char) eqn:Hx.
  - specialize (IH EmptyString eq_refl).
    destruct (PyStr.take_lines "" buffer) as [lines rest]. exact IH.
  - apply IH. rewrite contains_snoc, Hnl, Hx. done.
Qed.

Lemma take_lines_append (a b cur : string) :
  PyStr.take_lines cur (a ++ b)%string
  = ((PyStr.take_lines cur a).1
       ++ (PyStr.take_lines (PyStr.take_lines cur a).2 b).1,
     (PyStr.take_lines (PyStr.take_lines cur a).2 b).2).
Proof.
  revert cur. induction a as [|x a IH]; intros cur.
  - rewrite append_nil_l. cbn [PyStr.take_lines fst snd app].
    by destruct (PyStr.take_lines cur b).
  - rewrite append_cons. cbn [PyStr.take_lines].
    destruct (Ascii.eqb x "010"%char).
    + rewrite IH. destruct (PyStr.take_lines "" a) as [l1 r1]. cbn [fst snd].
      destruct (PyStr.take_lines r1 b) as [l2 r2]. cbn [fst snd].
      by destruct (PyStr.strip cur).
    + apply IH.
Qed.

(** Two decoded chunks against their concatenation. *)
Lemma sensor_recv_strings (buffer d1 d2 : string) (s : ParkingServer.t) :
  PyStr.contains "010"%char buffer = false →
  let r1 := ParkingServer._handle_sensor_client_recv buffer d1 s in
  let r2 := ParkingServer._handle_sensor_client_recv r1.1.1 d2 r1.2 in
  let r := ParkingServer._handle_sensor_client_recv buffer (d1 ++ d2)%string s in
  r.1.1 = r2.1.1
  ∧ r.1.2 = r1.1.2 ++ r2.1.2
  ∧ r.2 = r2.2.
Proof.
  intros Hnl. cbv zeta. unfold ParkingServer._handle_sensor_client_recv.
  rewrite <- append_assoc, take_lines_append.
  pose proof (take_lines_rest (buffer ++ d1)%string "" eq_refl) as Hrest.
  destruct (PyStr.take_lines "" (buffer ++ d1)%string) as [l1 b1].
  cbn [fst snd] in *.
  rewrite (take_lines_carry b1 d2 Hrest ""), append_nil_l.
  destruct (PyStr.take_lines b1 d2) as [l2 b2]. cbn [fst snd].
  split; [done|]. split; [by rewrite fmap_app|].
  destruct s. unfold ParkingServer.set_update_queue. cbn.
  by rewrite app_assoc.
Qed.

End Lines.

(** X7: the sensor handler does not depend on where an ASCII stream is
    cut.  For two chunks that are not empty, hold ASCII bytes only and fit
    in one [recv] together, receiving the first and then the second, with
    the buffer carried from one [recv] to the next, queues the same lines in
    the same order, answers the same ACK lines and leaves the same buffer as
    receiving the two in one chunk.  (A chunk with a byte from 0x80 on is outside the model: the code
    decodes each chunk on its own, so a cut inside a character of several
    bytes ends the connection.) *)
Theorem sensor_recv_fragmentation (buffer : string) (c1 c2 : list Wire.byte)
    (s : ParkingServer.t) :
  PyStr.contains "010"%char buffer = false →
  c1 ≠ [] → c2 ≠ [] →
  (length (c1 ++ c2) <= recv_size)%nat →
  is_Some (PyBytes.decode (c1 ++ c2)) →
  ∃ b1 sent1 s1 b2 sent2 s2,
    _handle_sensor_client buffer c1 s = Some (Some (b1, sent1), s1)
    ∧ _handle_sensor_client b1 c2 s1 = Some (Some (b2, sent2), s2)
    ∧ _handle_sensor_client buffer (c1 ++ c2) s
      = Some (Some (b2, sent1 ++ sent2), s2).
Proof.
  intros Hnl Hc1 Hc2 _ [data Hdata].
  destruct (decode_app _ _ _ Hdata) as (d1 & d2 & Hd1 & Hd2 & ->).
  pose proof (decode_nonempty _ _ Hd1 Hc1) as Hn1.
  pose proof (decode_nonempty _ _ Hd2 Hc2) as Hn2.
  rewrite (handle_sensor_client_decoded _ _ _ _ Hd1 Hn1).
  rewrite (handle_sensor_client_decoded _ _ _ _ Hdata)
    by (destruct d1; [done|discriminate]).
  pose proof (sensor_recv_strings buffer d1 d2 s Hnl) as Hfrag.
  cbv zeta in Hfrag. destruct Hfrag as (Hb & Hsent & Hs).
  destruct (ParkingServer._handle_sensor_client_recv buffer d1 s)
    as [[b1 sent1] s1].
  cbn [fst snd] in *.
  pose proof (handle_sensor_client_decoded b1 d2 c2 s1 Hd2 Hn2) as H2.
  destruct (ParkingServer._handle_sensor_client_recv b1 d2 s1)
    as [[b2 sent2] s2].
  destruct (ParkingServer._handle_sensor_client_recv buffer (d1 ++ d2) s)
    as [[b sent] s'].
  cbn [fst snd] in *. subst.
  exists b1, sent1, s1, b2, sent2, s2. by rewrite H2.
Qed.

Lemma sensor_recv_fragmentation_witness :
  ∃ c1 c2,
    PyBytes.encode "UPDATE LOT-A +1" = Some c1
    ∧ PyBytes.encode (String "010"%char "UPDATE LOT") = Some c2
    ∧ (fst <$> _handle_sensor_client "" c1 demo_server)
      = Some (Some ("UPDATE LOT-A +1", []))
    ∧ (fst <$> _handle_sensor_client "" (c1 ++ c2) demo_server)
      = Some (Some ("UPDATE LOT",
                    [String "A"%char (String "C"%char (String "K"%char
                       (String "010"%char EmptyString)))])).
Proof.
  eexists _, _. split; [reflexivity|]. split; [reflexivity|].
  split; [reflexivity|].
  assert (Stdlib.Strings.String.list_byte_of_string "UPDATE LOT-A +1" ≠ [])
    as H1 by discriminate.
  assert (Stdlib.Strings.String.list_byte_of_string
            (String "010"%char "UPDATE LOT") ≠ []) as H2 by discriminate.
  assert (length
            (Stdlib.Strings.String.list_byte_of_string "UPDATE LOT-A +1"
             ++ Stdlib.Strings.String.list_byte_of_string
                  (String "010"%char "UPDATE LOT")) <= recv_size)%nat
    as Hsize by (vm_compute; lia).
  destruct (sensor_recv_fragmentation ""
              (Stdlib.Strings.String.list_byte_of_string "UPDATE LOT-A +1")
              (Stdlib.Strings.String.list_byte_of_string
                 (String "010"%char "UPDATE LOT"))
              demo_server eq_refl H1 H2 Hsize (mk_is_Some _ _ eq_refl))
    as (b1 & sent1 & s1 & b2 & sent2 & s2 & Hr1 & Hr2 & Hr).
  rewrite Hr. vm_compute in Hr1. injection Hr1 as <- <- <-.
  vm_compute in Hr2. injection Hr2 as <- <- <-. reflexivity.
Defined.

Section Decimal.

Lemma digit_cases (d : Z) (P : Z → Prop) :
  0 <= d < 10 →
  P 0 → P 1 → P 2 → P 3 → P 4 → P 5 → P 6 → P 7 → P 8 → P 9 → P d.
Proof.
  intros Hd. intros.
  assert (d = 0 ∨ d = 1 ∨ d = 2 ∨ d = 3 ∨ d = 4 ∨ d = 5 ∨ d = 6 ∨ d = 7
          ∨ d = 8 ∨ d = 9) as Hcases by lia.
  repeat (destruct Hcases as [->|Hcases]; [assumption|]). by subst.
Qed.

Lemma digit_of_digit_char (d : Z) :
  0 <= d < 10 →
  PyStr.digit (PyFmt.digit_char d) = Some d
  ∧ Ascii.eqb (PyFmt.digit_char d) "_"%char = false
  ∧ PyStr.isspace (PyFmt.digit_char d) = false
  ∧ PyFmt.digit_char d ≠ "+"%char
  ∧ PyFmt.digit_char d ≠ "-"%char.
Proof.
  intros Hd. pattern d. apply (digit_cases d); [done|..]; by vm_compute.
Qed.

Lemma digits_of_S (fuel : nat) (n : Z) (acc : string) :
  PyFmt.digits_of (S fuel) n acc
  = if n <? 10 then String (PyFmt.digit_char (n mod 10)) acc
    else PyFmt.digits_of fuel (n / 10) (String (PyFmt.digit_char (n mod 10)) acc).
Proof. done. Qed.

Lemma digits_of_parse (fuel : nat) :
  ∀ (n : Z) (acc : string) (b : bool),
    0 <= n < 10 ^ Z.of_nat (S fuel) →
    PyStr.digits 0 b (PyFmt.digits_of (S fuel) n acc) = PyStr.digits n true acc.
Proof.
  induction fuel as [|fuel IH]; intros n acc b Hn;
    assert (0 <= n mod 10 < 10) as Hd by (apply Z.mod_pos_bound; lia);
    destruct (digit_of_digit_char _ Hd) as (Hdig & Hunder & _);
    rewrite digits_of_S; destruct (n <? 10) eqn:Hlt;
    try (apply Z.ltb_lt in Hlt; cbn [PyStr.digits]; rewrite Hunder, Hdig;
         rewrite Z.mod_small by lia; f_equal; lia).
  - apply Z.ltb_ge in Hlt. change (10 ^ Z.of_nat 1) with 10 in Hn. lia.
  - apply Z.ltb_ge in Hlt.
    rewrite (IH (n / 10)).
    + cbn [PyStr.digits]. rewrite Hunder, Hdig. f_equal.
      pose proof (Z.div_mod n 10). lia.
    + rewrite (Nat2Z.inj_succ (S fuel)), Z.pow_succ_r in Hn by lia.
      split; [apply Z.div_pos; lia|].
      apply Z.div_lt_upper_bound; lia.
Qed.

Lemma enough_digits_bound (n : Z) :
  0 <= n → n < 10 ^ Z.of_nat (PyFmt.enough_digits n).
Proof.
  intros Hn. unfold PyFmt.enough_digits.
  rewrite Nat2Z.inj_succ, Z2Nat.id by apply Z.log2_nonneg.
  destruct (decide (n = 0)) as [->|Hne]; [done|].
  pose proof (Z.log2_spec n ltac:(lia)) as [_ Hlog].
  eapply Z.lt_le_trans; [exact Hlog|].
  apply Z.pow_le_mono_l. pose proof (Z.log2_nonneg n). lia.
Qed.

(** The text of a number that is not negative starts with a digit. *)
Lemma digits_of_head (fuel : nat) (n : Z) (acc : string) :
  0 <= n →
  ∃ d rest, 0 <= d < 10
            ∧ PyFmt.digits_of (S fuel) n acc = String (PyFmt.digit_char d) rest.
Proof.
  revert n acc. induction fuel as [|fuel IH]; intros n acc Hn;
    assert (0 <= n mod 10 < 10) as Hd by (apply Z.mod_pos_bound; lia).
  - rewrite digits_of_S. destruct (n <? 10); eauto.
  - rewrite digits_of_S.
    destruct (n <? 10); [eauto|]. apply IH. apply Z.div_pos; lia.
Qed.

Lemma digits_of_no_space (fuel : nat) (n : Z) (acc : string) :
  0 <= n → no_space (PyFmt.digits_of fuel n acc) = no_space acc.
Proof.
  revert n acc. induction fuel as [|fuel IH]; intros n acc Hn; [done|].
  assert (0 <= n mod 10 < 10) as Hd by (apply Z.mod_pos_bound; lia).
  destruct (digit_of_digit_char _ Hd) as (_ & _ & Hsp & _).
  rewrite digits_of_S. destruct (n <? 10).
  - cbn [no_space]. by rewrite Hsp.
  - rewrite IH by (apply Z.div_pos; lia). cbn [no_space]. by rewrite Hsp.
Qed.

Lemma int_str_int (n : Z) : PyStr.int (PyFmt.str_int n) = Some n.
Proof.
  unfold PyFmt.str_int. destruct (n <? 0) eqn:Hneg.
  - apply Z.ltb_lt in Hneg. cbn [PyStr.int]. unfold PyFmt.enough_digits.
    rewrite digits_of_parse.
    + cbn. f_equal. lia.
    + split; [lia|]. apply (enough_digits_bound (- n)). lia.
  - apply Z.ltb_ge in Hneg. unfold PyFmt.enough_digits.
    destruct (digits_of_head (Z.to_nat (Z.log2 n)) n "" Hneg)
      as (d & rest & Hd & Hhead).
    destruct (digit_of_digit_char _ Hd) as (_ & _ & _ & Hplus & Hminus).
    assert (PyStr.int (String (PyFmt.digit_char d) rest)
            = PyStr.digits 0 false (String (PyFmt.digit_char d) rest)) as Hint.
    { unfold PyStr.int. destruct (PyFmt.digit_char d) as [[] [] [] [] [] [] [] []];
        try done. }
    rewrite Hhead, Hint, <- Hhead.
    rewrite digits_of_parse; [done|].
    split; [done|]. by apply (enough_digits_bound n).
Qed.

Lemma str_int_no_space (n : Z) :
  no_space (PyFmt.str_int n) = true ∧ PyFmt.str_int n ≠ EmptyString.
Proof.
  unfold PyFmt.str_int. destruct (n <? 0) eqn:Hneg.
  - apply Z.ltb_lt in Hneg. split; [|done].
    cbn [no_space]. rewrite digits_of_no_space by lia. done.
  - apply Z.ltb_ge in Hneg. split.
    + by rewrite digits_of_no_space.
    + unfold PyFmt.enough_digits.
      destruct (digits_of_head (Z.to_nat (Z.log2 n)) n "" Hneg)
        as (d & rest & _ & ->). done.
Qed.

End Decimal.

Section Tokens.

Lemma no_space_append (a b : string) :
  no_space (a ++ b)%string = no_space a && no_space b.
Proof.
  induction a as [|x a IH]; [done|].
  rewrite append_cons. cbn [no_space]. rewrite IH. by rewrite andb_assoc.
Qed.

Lemma no_space_no_newline (a : string) :
  no_space a = true → PyStr.contains "010"%char a = false.
Proof.
  induction a as [|x a IH]; [done|]. cbn [no_space PyStr.contains].
  intros [Hx Ha]%andb_true_iff. rewrite IH by done.
  destruct (Ascii.eqb x "010"%char) eqn:E; [|done].
  apply Ascii.eqb_eq in E. subst x. done.
Qed.

Lemma append_eq_empty (a b : string) :
  (a ++ b)%string = EmptyString → a = EmptyString.
Proof. by destruct a. Qed.

(** A run of characters without whitespace goes to the current token. *)
Lemma split_from_token (tok rest : string) :
  no_space tok = true →
  ∀ cur, PyStr.split_from cur (tok ++ rest)%string
         = PyStr.split_from (cur ++ tok)%string rest.
Proof.
  induction tok as [|x tok IH]; intros Hns cur.
  - by rewrite append_nil_l, append_empty_r.
  - cbn [no_space] in Hns. apply andb_true_iff in Hns as [Hx Hns].
    apply negb_true_iff in Hx.
    rewrite append_cons. cbn [PyStr.split_from]. rewrite Hx.
    rewrite IH by done. by rewrite snoc_append.
Qed.

Lemma split_from_space (cur rest : string) :
  cur ≠ EmptyString →
  PyStr.split_from cur (String " "%char rest)
  = cur :: PyStr.split_from EmptyString rest.
Proof. intros Hne. cbn. by destruct cur. Qed.

Lemma split_three (a b c : string) :
  a ≠ EmptyString → b ≠ EmptyString → c ≠ EmptyString →
  no_space a = true → no_space b = true → no_space c = true →
  PyStr.split (a ++ String " "%char (b ++ String " "%char c))%string = [a; b; c].
Proof.
  intros Ha Hb Hc Hna Hnb Hnc. unfold PyStr.split.
  rewrite split_from_token, append_nil_l, split_from_space by done.
  rewrite split_from_token, append_nil_l, split_from_space by done.
  rewrite <- (append_empty_r c) at 1.
  rewrite split_from_token, append_nil_l by done.
  cbn. by destruct c.
Qed.

Lemma rstrip_no_space (b : string) : no_space b = true → PyStr.rstrip b = b.
Proof.
  induction b as [|x b IH]; [done|]. cbn [no_space PyStr.rstrip].
  intros [Hx Hb]%andb_true_iff. apply negb_true_iff in Hx.
  rewrite IH by done. rewrite Hx. by destruct b.
Qed.

Lemma rstrip_append (a b : string) :
  b ≠ EmptyString → no_space b = true →
  PyStr.rstrip (a ++ b)%string = (a ++ b)%string.
Proof.
  intros Hb Hnb. induction a as [|x a IH].
  - rewrite append_nil_l. by apply rstrip_no_space.
  - rewrite append_cons. cbn [PyStr.rstrip]. rewrite IH.
    destruct (a ++ b)%string eqn:E; [|done].
    exfalso. pose proof (append_eq_empty _ _ E) as Ha. subst a.
    by rewrite append_nil_l in E.
Qed.

End Tokens.

Section AsciiText.

Lemma digit_char_ascii (d : Z) :
  0 <= d < 10 → (nat_of_ascii (PyFmt.digit_char d) <? 128)%nat = true.
Proof.
  intros Hd. pattern d. apply (digit_cases d); [done|..]; by vm_compute.
Qed.

Lemma digits_of_ascii (fuel : nat) (n : Z) (acc : string) :
  0 <= n → PyStr.is_ascii (PyFmt.digits_of fuel n acc) = PyStr.is_ascii acc.
Proof.
  revert n acc. induction fuel as [|fuel IH]; intros n acc Hn; [done|].
  assert (0 <= n mod 10 < 10) as Hd by (apply Z.mod_pos_bound; lia).
  rewrite digits_of_S. destruct (n <? 10).
  - cbn [PyStr.is_ascii]. by rewrite (digit_char_ascii _ Hd).
  - rewrite IH by (apply Z.div_pos; lia). cbn [PyStr.is_ascii].
    by rewrite (digit_char_ascii _ Hd).
Qed.

Lemma str_int_ascii (n : Z) : PyStr.is_ascii (PyFmt.str_int n) = true.
Proof.
  unfold PyFmt.str_int. destruct (n <? 0) eqn:Hneg.
  - apply Z.ltb_lt in Hneg. cbn [PyStr.is_ascii].
    rewrite digits_of_ascii by lia. done.
  - apply Z.ltb_ge in Hneg. by rewrite digits_of_ascii.
Qed.

End AsciiText.

(** X8: the server reads back what the sensor client writes.  For an ASCII
    lot id that is not empty and holds no whitespace, and a delta of at most
    4300 digits, the bytes [send_update] sends for [(lot_id, delta)],
    received as one chunk (so at most 1024 of them), are answered with the
    one line ["ACK\n"] and
    queued as one line; that line splits into the three tokens [UPDATE], the
    lot id and the decimal text of the delta, whose [int] is the delta; so
    the worker that takes the line applies exactly [update_occupancy(delta)]
    to a registered lot. *)
Theorem sensor_update_round_trip (lot_id : string) (delta : Z)
    (s0 s : ParkingServer.t) (q : list string) (lot : ParkingLot.t)
    (t_read t_update t_publish : Z) :
  lot_id ≠ EmptyString →
  no_space lot_id = true →
  PyStr.is_ascii lot_id = true →
  Z.abs delta < 10 ^ PyStr.max_str_digits →
  (String.length (SensorSimulator.update_command lot_id delta)
   <= recv_size)%nat →
  ParkingServer.update_queue s
  = ("UPDATE " ++ lot_id ++ " " ++ PyFmt.str_int delta)%string :: q →
  ParkingServer.lots s !! lot_id = Some lot →
  (∃ chunk,
     PyBytes.encode (SensorSimulator.update_command lot_id delta) = Some chunk
     ∧ _handle_sensor_client "" chunk s0
       = Some (Some ("", [String "A"%char (String "C"%char (String "K"%char
                            (String "010"%char EmptyString)))]),
               ParkingServer.set_update_queue
                 (ParkingServer.update_queue s0
                    ++ [("UPDATE " ++ lot_id ++ " "
                           ++ PyFmt.str_int delta)%string]) s0))
  ∧ PyStr.split ("UPDATE " ++ lot_id ++ " " ++ PyFmt.str_int delta)%string
    = ["UPDATE"; lot_id; PyFmt.str_int delta]
  ∧ PyStr.int (PyFmt.str_int delta) = Some delta
  ∧ ParkingServer.lots
      (ParkingServer._update_worker_step t_read t_update t_publish s).1
    = <[lot_id :=
          (ParkingLot.update_occupancy t_update delta
             (ParkingLot.get_free t_read lot).2).2]> (ParkingServer.lots s).
Proof.
  intros Hne Hns Hascii _ _ Hq Hlot.
  destruct (str_int_no_space delta) as [Hnd Hned].
  assert (("UPDATE " ++ lot_id ++ " " ++ PyFmt.str_int delta)%string
          = ("UPDATE" ++ String " "%char
               (lot_id ++ String " "%char (PyFmt.str_int delta)))%string)
    as Hline by done.
  assert (PyStr.split ("UPDATE " ++ lot_id ++ " " ++ PyFmt.str_int delta)%string
          = ["UPDATE"; lot_id; PyFmt.str_int delta]) as Hsplit.
  { rewrite Hline. by apply split_three. }
  assert (SensorSimulator.update_command lot_id delta
          = (("UPDATE " ++ lot_id ++ " " ++ PyFmt.str_int delta)
               ++ String "010"%char "")%string) as Hcmd.
  { unfold SensorSimulator.update_command.
    change ("UPDATE " ++ ?x)%string
      with ("UPDATE" ++ (String " "%char x))%string.
    rewrite !append_assoc. rewrite !append_cons, !append_nil_l.
    by rewrite !append_assoc. }
  split; [|split; [exact Hsplit|split; [apply int_str_int|]]].
  - assert (PyStr.is_ascii (SensorSimulator.update_command lot_id delta) = true)
      as Hacmd.
    { unfold SensorSimulator.update_command.
      rewrite !is_ascii_append, Hascii, str_int_ascii. done. }
    exists (Stdlib.Strings.String.list_byte_of_string
              (SensorSimulator.update_command lot_id delta)).
    assert (PyBytes.encode (SensorSimulator.update_command lot_id delta)
            = Some (Stdlib.Strings.String.list_byte_of_string
                      (SensorSimulator.update_command lot_id delta))) as Henc
      by (unfold PyBytes.encode; by rewrite Hacmd).
    split; [exact Henc|].
    rewrite (handle_sensor_client_decoded _ _ _ _ (decode_encode _ _ Henc))
      by (rewrite Hcmd, Hline; discriminate).
    unfold ParkingServer._handle_sensor_client_recv.
    rewrite append_nil_l, Hcmd.
    rewrite take_lines_one.
    2:{ rewrite Hline, contains_append. cbn [PyStr.contains orb Ascii.eqb].
        rewrite contains_append, (no_space_no_newline lot_id Hns).
        cbn [PyStr.contains orb]. by rewrite (no_space_no_newline _ Hnd). }
    rewrite append_nil_l. cbv zeta.
    assert (PyStr.strip ("UPDATE " ++ lot_id ++ " " ++ PyFmt.str_int delta)%string
            = ("UPDATE " ++ lot_id ++ " " ++ PyFmt.str_int delta)%string) as ->.
    { unfold PyStr.strip.
      rewrite <- (append_assoc "UPDATE " lot_id), <- append_assoc.
      rewrite rstrip_append by done. by rewrite !append_assoc. }
    by rewrite Hline.
  - rewrite (update_worker_step_eq _ _ _ _ _ _ "UPDATE" lot_id
               (PyFmt.str_int delta) delta Hq Hsplit eq_refl (int_str_int delta)).
    rewrite Hlot. cbv zeta.
    destruct (bool_decide _); cbn [fst]; [|done].
    by destruct (publish_event_fields t_publish lot_id
                   (ParkingLot.update_occupancy t_update delta
                      (ParkingLot.get_free t_read lot).2).1
                   (ParkingServer.set_lots
                      (<[lot_id:=(ParkingLot.update_occupancy t_update delta
                                    (ParkingLot.get_free t_read lot).2).2]>
                         (ParkingServer.lots s))
                      (ParkingServer.set_update_queue q s)))
      as (_ & -> & _).
Qed.

Lemma sensor_update_round_trip_witness :
  (∃ chunk,
     PyBytes.encode (SensorSimulator.update_command "LOT-A" (-2)) = Some chunk
     ∧ (fst <$> _handle_sensor_client "" chunk demo_server)
       = Some (Some ("", [String "A"%char (String "C"%char (String "K"%char
                            (String "010"%char EmptyString)))])))
  ∧ ParkingLot.occupied <$>
      ParkingServer.lots
        (ParkingServer._update_worker_step 10 11 12 scenario3_server).1
      !! "LOT-A"
    = Some 6.
Proof.
  assert ("LOT-A" ≠ EmptyString) as Hne by discriminate.
  assert (Z.abs (-2) < 10 ^ PyStr.max_str_digits) as Hd by (by vm_compute).
  assert (String.length (SensorSimulator.update_command "LOT-A" (-2))
          <= recv_size)%nat as Hsize by (vm_compute; lia).
  pose proof (sensor_update_round_trip "LOT-A" (-2) demo_server
                scenario3_server [] lot_8_of_10 10 11 12
                Hne eq_refl eq_refl Hd Hsize eq_refl eq_refl)
    as ((chunk & Henc & Hack) & _ & _ & Hlots).
  split.
  - exists chunk. split; [exact Henc|]. rewrite Hack. reflexivity.
  - rewrite Hlots. reflexivity.
Defined.

(** * Further properties of the server *)

Section RegistryKept.
Import ParkingServer.

Lemma lot_kept_refl l : lot_kept l l.
Proof. by unfold lot_kept. Qed.

Lemma lot_kept_trans l1 l2 l3 : lot_kept l1 l2 → lot_kept l2 l3 → lot_kept l1 l3.
Proof.
  intros (Hi & Hc & Ho) (Hi' & Hc' & Ho'). unfold lot_kept.
  rewrite Hi', Hi, Hc', Hc. split; [done|]. split; [done|].
  intros H. rewrite <- Hc, <- Hc'. apply Ho', Ho, H.
Qed.

Lemma lot_kept_run_op now op l : lot_kept l (run_op now op l).
Proof.
  split; [apply run_op_id|]. split; [apply run_op_capacity|].
  apply run_op_occupied_bounds.
Qed.

Lemma registry_kept_refl m : registry_kept m m.
Proof. intros i. destruct (m !! i); [apply lot_kept_refl|done]. Qed.

Lemma registry_kept_trans m1 m2 m3 :
  registry_kept m1 m2 → registry_kept m2 m3 → registry_kept m1 m3.
Proof.
  intros H12 H23 i. specialize (H12 i). specialize (H23 i).
  destruct (m1 !! i), (m2 !! i), (m3 !! i); try done.
  by eapply lot_kept_trans.
Qed.

Lemma registry_kept_insert m i l l' :
  m !! i = Some l → lot_kept l l' → registry_kept m (<[i := l']> m).
Proof.
  intros Hi Hkept j. destruct (decide (i = j)) as [<-|Hne].
  - by rewrite lookup_insert_eq, Hi.
  - rewrite lookup_insert_ne by done. destruct (m !! j); [apply lot_kept_refl|done].
Qed.

Lemma registry_kept_lots_to_dicts clock order m :
  registry_kept m (Frontends.lots_to_dicts clock order m).2.
Proof.
  revert m. induction order as [|i order IH]; intros m; [apply registry_kept_refl|].
  cbn [Frontends.lots_to_dicts].
  destruct (m !! i) as [lot|] eqn:Hi; [|apply IH].
  destruct (ParkingLot.to_dict (clock i) lot) as [sn lot'] eqn:Hd.
  specialize (IH (<[i:=lot']> m)).
  destruct (Frontends.lots_to_dicts clock order (<[i:=lot']> m)) as [js m'].
  cbn [snd] in *. eapply registry_kept_trans; [|exact IH].
  apply (registry_kept_insert _ _ _ _ Hi).
  change lot' with (sn, lot').2. rewrite <- Hd.
  apply (lot_kept_run_op (clock i) Snapshot lot).
Qed.

Lemma registry_kept_update_worker t1 t2 t3 s :
  registry_kept (lots s) (lots (_update_worker_step t1 t2 t3 s).1).
Proof.
  unfold _update_worker_step.
  destruct (update_queue s) as [|cmd q]; [apply registry_kept_refl|].
  destruct (PyStr.split cmd) as [|p0 [|p1 [|p2 [|? ?]]]];
    try apply registry_kept_refl.
  destruct (bool_decide _); [|apply registry_kept_refl].
  destruct (PyStr.int p2) as [delta|]; [|apply registry_kept_refl].
  change (lots (set_update_queue q s)) with (lots s).
  destruct (lots s !! p1) as [lot|] eqn:Hlot; [|apply registry_kept_refl].
  destruct (ParkingLot.get_free t1 lot) as [old_free lot1] eqn:H1.
  destruct (ParkingLot.update_occupancy t2 delta lot1) as [new_free lot2] eqn:H2.
  assert (lot_kept lot lot2) as Hkept.
  { eapply lot_kept_trans.
    - apply (lot_kept_run_op t1 GetFree lot).
    - cbn [run_op]. rewrite H1. cbn [snd].
      change lot2 with (new_free, lot2).2. rewrite <- H2.
      apply (lot_kept_run_op t2 (ApplyDelta delta) lot1). }
  destruct (bool_decide _); cbn [fst].
  - destruct (publish_event_fields t3 p1 new_free
                (set_lots (<[p1:=lot2]> (lots s)) (set_update_queue q s)))
      as (_ & -> & _).
    exact (registry_kept_insert _ _ _ _ Hlot Hkept).
  - exact (registry_kept_insert _ _ _ _ Hlot Hkept).
Qed.

Lemma pubsub_request_lots req conn s :
  lots (_process_pubsub_request req conn s).2 = lots s.
Proof.
  unfold _process_pubsub_request. repeat case_match; done.
Qed.

Lemma next_event_lots k s : lots (next_event k s).2 = lots s.
Proof. unfold next_event. repeat case_match; done. Qed.

Lemma registry_kept_step a s : registry_kept (lots s) (lots (step a s).2).
Proof.
  destruct a as [req conn|buffer data|t1 t2 t3|k|k]; cbn [step].
  - pose proof (pubsub_request_lots req conn s) as H.
    destruct (_process_pubsub_request req conn s). cbn [snd] in *.
    rewrite H. apply registry_kept_refl.
  - unfold _handle_sensor_client_recv. destruct (PyStr.take_lines _ _).
    apply registry_kept_refl.
  - pose proof (registry_kept_update_worker t1 t2 t3 s) as H.
    by destruct (_update_worker_step t1 t2 t3 s).
  - pose proof (next_event_lots k s) as H.
    destruct (next_event k s). cbn [snd] in *. rewrite H.
    apply registry_kept_refl.
  - unfold teardown. case_match; apply registry_kept_refl.
Qed.

Lemma registry_kept_text order clock command s :
  registry_kept (lots s)
    (lots (Frontends._process_text_command order clock command s).2).
Proof.
  unfold Frontends._process_text_command.
  destruct (PyStr.split command) as [|p0 args]; [apply registry_kept_refl|].
  repeat (destruct (bool_decide _); [|idtac]); try apply registry_kept_refl.
  - pose proof (registry_kept_lots_to_dicts clock order (lots s)) as H.
    by destruct (Frontends.lots_to_dicts clock order (lots s)).
  - destruct args as [|lot_id [|? ?]]; try apply registry_kept_refl.
    destruct (lots s !! lot_id) as [lot|] eqn:Hlot; [|apply registry_kept_refl].
    pose proof (lot_kept_run_op (clock lot_id) GetFree lot) as H.
    cbn [run_op] in H.
    destruct (ParkingLot.get_free (clock lot_id) lot) as [n lot'].
    exact (registry_kept_insert _ _ _ _ Hlot H).
  - destruct args as [|lot_id [|plate [|? ?]]]; try apply registry_kept_refl.
    destruct (lots s !! lot_id) as [lot|] eqn:Hlot; [|apply registry_kept_refl].
    pose proof (lot_kept_run_op (clock lot_id)
                  (Reserve plate (reservation_timeout_seconds (config s))) lot)
      as H. cbn [run_op] in H.
    destruct (ParkingLot.reserve (clock lot_id) plate _ lot) as [st lot'].
    exact (registry_kept_insert _ _ _ _ Hlot H).
  - destruct args as [|lot_id [|plate [|? ?]]]; try apply registry_kept_refl.
    destruct (lots s !! lot_id) as [lot|] eqn:Hlot; [|apply registry_kept_refl].
    pose proof (lot_kept_run_op 0 (Cancel plate) lot) as H. cbn [run_op] in H.
    destruct (ParkingLot.cancel plate lot) as [st lot'].
    exact (registry_kept_insert _ _ _ _ Hlot H).
Qed.

End RegistryKept.

Section RegistryKeptRpc.
Import ParkingServer.

Lemma two_args_inr args s lot_id lot plate_arg :
  Frontends.two_args args s = inr (lot_id, lot, plate_arg) →
  lots s !! lot_id = Some lot
  ∧ py_item0 args = Some (JStr lot_id)
  ∧ Frontends.py_item1 args = Some plate_arg.
Proof.
  unfold Frontends.two_args, lots_lookup.
  repeat case_match; intros; simplify_eq; done.
Qed.

Lemma registry_kept_rpc order clock req s resp s' :
  Frontends._process_rpc_request order clock req s = Some (resp, s') →
  registry_kept (lots s) (lots s').
Proof.
  unfold Frontends._process_rpc_request.
  destruct (json_eq_str _ "getLots").
  { pose proof (registry_kept_lots_to_dicts clock order (lots s)) as H.
    destruct (Frontends.lots_to_dicts clock order (lots s)).
    intros [= <- <-]. exact H. }
  destruct (json_eq_str _ "getAvailability").
  { destruct (py_len _) as [n|]; [|intros [= <- <-]; apply registry_kept_refl].
    destruct (n <? 1)%nat; [intros [= <- <-]; apply registry_kept_refl|].
    destruct (py_item0 _) as [lot_arg|];
      [|intros [= <- <-]; apply registry_kept_refl].
    destruct (lots_lookup lot_arg s) as [[lot_id|]|];
      try (intros [= <- <-]; apply registry_kept_refl).
    destruct (lots s !! lot_id) as [lot|] eqn:Hlot;
      [|intros [= <- <-]; apply registry_kept_refl].
    pose proof (lot_kept_run_op (clock lot_id) GetFree lot) as H.
    cbn [run_op] in H.
    destruct (ParkingLot.get_free (clock lot_id) lot) as [n' lot'].
    intros [= <- <-]. exact (registry_kept_insert _ _ _ _ Hlot H). }
  destruct (json_eq_str _ "reserve").
  { destruct (Frontends.two_args _ s) as [e|[[lot_id lot] plate_arg]] eqn:Hargs;
      [intros [= <- <-]; apply registry_kept_refl|].
    apply two_args_inr in Hargs as (Hlot & _).
    destruct plate_arg as [|b|n|plate|l|l]; try done.
    - pose proof (lot_kept_run_op (clock lot_id)
                    (Reserve plate (reservation_timeout_seconds (config s))) lot)
        as H. cbn [run_op] in H.
      destruct (ParkingLot.reserve (clock lot_id) plate _ lot) as [st lot'].
      intros [= <- <-]. exact (registry_kept_insert _ _ _ _ Hlot H).
    - intros [= <- <-]. apply (registry_kept_insert _ _ _ _ Hlot).
      apply (lot_kept_run_op (clock lot_id) GetFree lot).
    - intros [= <- <-]. apply (registry_kept_insert _ _ _ _ Hlot).
      apply (lot_kept_run_op (clock lot_id) GetFree lot). }
  destruct (json_eq_str _ "cancel").
  { destruct (Frontends.two_args _ s) as [e|[[lot_id lot] plate_arg]] eqn:Hargs;
      [intros [= <- <-]; apply registry_kept_refl|].
    apply two_args_inr in Hargs as (Hlot & _).
    destruct plate_arg as [|b|n|plate|l|l];
      try (intros [= <- <-]; apply registry_kept_refl).
    pose proof (lot_kept_run_op 0 (Cancel plate) lot) as H. cbn [run_op] in H.
    destruct (ParkingLot.cancel plate lot) as [st lot'].
    intros [= <- <-]. exact (registry_kept_insert _ _ _ _ Hlot H). }
  repeat (destruct (json_eq_str _ _));
    intros [= <- <-]; apply registry_kept_refl.
Qed.

Lemma registry_kept_serve order acts s s' :
  serve order acts s = Some s' → registry_kept (lots s) (lots s').
Proof.
  revert s. induction acts as [|a acts IH]; intros s.
  - intros [= <-]. apply registry_kept_refl.
  - cbn [serve]. destruct (serve_step order a s) as [s1|] eqn:Hstep; [|done].
    intros Hrest. eapply registry_kept_trans; [|exact (IH _ Hrest)].
    destruct a as [a|clock command|clock req]; cbn [serve_step] in Hstep.
    + injection Hstep as <-. apply registry_kept_step.
    + injection Hstep as <-. apply registry_kept_text.
    + destruct (Frontends._process_rpc_request order clock req s)
        as [[resp s2]|] eqn:Hrpc; [|done].
      injection Hstep as <-. by eapply registry_kept_rpc.
Qed.

End RegistryKeptRpc.

(** X9: the lot registry is fixed at start-up.  Along any run of the
    server (pub/sub requests, sensor input, worker iterations, deliveries,
    teardowns, text commands and RPC requests) the same lot ids stay
    registered, and every lot keeps its id and its capacity, and keeps
    0 <= occupied <= capacity if it started with it. *)
Theorem lot_registry_fixed (order : list string) (acts : list frontend_action)
    (s s' : ParkingServer.t) :
  serve order acts s = Some s' →
  dom (ParkingServer.lots s') = dom (ParkingServer.lots s)
  ∧ ∀ i l,
      ParkingServer.lots s !! i = Some l →
      ∃ l', ParkingServer.lots s' !! i = Some l'
            ∧ ParkingLot.id l' = ParkingLot.id l
            ∧ ParkingLot.capacity l' = ParkingLot.capacity l
            ∧ (0 <= ParkingLot.occupied l <= ParkingLot.capacity l →
               0 <= ParkingLot.occupied l' <= ParkingLot.capacity l').
Proof.
  intros Hserve. pose proof (registry_kept_serve _ _ _ _ Hserve) as Hkept.
  split.
  - apply set_eq. intros i. rewrite !elem_of_dom. specialize (Hkept i).
    destruct (ParkingServer.lots s !! i), (ParkingServer.lots s' !! i);
      try done; split; intros [? ?]; eauto; done.
  - intros i l Hi. specialize (Hkept i). rewrite Hi in Hkept.
    destruct (ParkingServer.lots s' !! i) as [l'|]; [|done].
    exists l'. split; [done|]. exact Hkept.
Qed.

Lemma lot_registry_fixed_witness :
  ParkingLot.capacity <$>
    ParkingServer.lots
      (default demo_server
         (serve ["LOT-A"; "LOT-B"]
            [TextCommand (λ _, 1) "RESERVE LOT-A X";
             Core (SensorRecv "" (SensorSimulator.update_command "LOT-A" 5));
             Core (WorkerStep 2 3 4);
             TextCommand (λ _, 5) "lots"] demo_server)) !! "LOT-A"
  = Some 10.
Proof.
  destruct (serve ["LOT-A"; "LOT-B"]
              [TextCommand (λ _, 1) "RESERVE LOT-A X";
               Core (SensorRecv "" (SensorSimulator.update_command "LOT-A" 5));
               Core (WorkerStep 2 3 4);
               TextCommand (λ _, 5) "lots"] demo_server) as [s'|] eqn:Hserve;
    [|by vm_compute in Hserve].
  destruct (lot_registry_fixed _ _ _ _ Hserve) as [_ H].
  destruct (H "LOT-A" lot_8_of_10 eq_refl) as (l' & Hl' & _ & Hcap & _).
  change (ParkingLot.capacity <$> ParkingServer.lots s' !! "LOT-A" = Some 10).
  rewrite Hl'. cbn. by rewrite Hcap.
Defined.

Section SubscribersOk.
Import ParkingServer.

Lemma subscription_ok_mono s s' k sub :
  next_sub_id s <= next_sub_id s' →
  registry_kept (lots s) (lots s') →
  subscription_ok s k sub → subscription_ok s' k sub.
Proof.
  intros Hnext Hkept (Hid & Hlt & Hact & Hlot & Hq).
  repeat split; try done; [lia|].
  specialize (Hkept (Subscriber.lot_id sub)).
  destruct Hlot as [l Hl]. rewrite Hl in Hkept.
  destruct (lots s' !! Subscriber.lot_id sub); [eauto|done].
Qed.

Lemma subscribers_ok_mono s s' :
  subscribers s' = subscribers s →
  next_sub_id s <= next_sub_id s' →
  registry_kept (lots s) (lots s') →
  subscribers_ok s → subscribers_ok s'.
Proof.
  intros Hsubs Hnext Hkept [Hnd Hall]. unfold subscribers_ok. rewrite Hsubs.
  split; [done|]. eapply Forall_impl; [exact Hall|].
  intros [k sub]. by apply subscription_ok_mono.
Qed.

Lemma enqueue_event_keeps policy lot_id ev sub :
  Subscriber.sub_id (enqueue_event policy lot_id ev sub).1 = Subscriber.sub_id sub
  ∧ Subscriber.lot_id (enqueue_event policy lot_id ev sub).1
    = Subscriber.lot_id sub
  ∧ Subscriber.active (enqueue_event policy lot_id ev sub).1
    = Subscriber.active sub
  ∧ Queue.maxsize (Subscriber.queue (enqueue_event policy lot_id ev sub).1)
    = Queue.maxsize (Subscriber.queue sub)
  ∧ (queue_bounded (Subscriber.queue sub) →
     queue_bounded (Subscriber.queue (enqueue_event policy lot_id ev sub).1)).
Proof.
  unfold enqueue_event, Queue.put_nowait, Queue.get_nowait, queue_bounded,
    Queue.full, Queue.qsize.
  destruct sub as [i l c [m items] a]. cbn.
  repeat case_match; simplify_eq; cbn; repeat split; try done;
    intros Hb; rewrite ?length_app; cbn in *; lia.
Qed.

Lemma publish_loop_map policy lot_id ev d :
  (publish_loop policy lot_id ev d).1
  = (λ ks : Z * Subscriber.t, (ks.1, (enqueue_event policy lot_id ev ks.2).1))
      <$> d.
Proof.
  induction d as [|[k sub] d IH]; [done|]. cbn [publish_loop].
  destruct (enqueue_event policy lot_id ev sub) as [sub' es] eqn:He.
  destruct (publish_loop policy lot_id ev d) as [d' es'].
  cbn [fst snd fmap list_fmap] in *. rewrite IH. cbn. by rewrite He.
Qed.

Lemma publish_event_subscribers now lot_id fr s :
  subscribers (_publish_event now lot_id fr s)
  = (λ ks : Z * Subscriber.t,
       (ks.1, (enqueue_event (back_pressure_policy (config s)) lot_id
                 (mk_event lot_id fr now) ks.2).1))
      <$> subscribers s.
Proof.
  unfold _publish_event. rewrite <- publish_loop_map.
  by destruct (publish_loop _ _ _ _).
Qed.

Lemma subscribers_ok_publish now lot_id fr s :
  subscribers_ok s → subscribers_ok (_publish_event now lot_id fr s).
Proof.
  intros [Hnd Hall]. unfold subscribers_ok.
  rewrite publish_event_subscribers.
  split.
  - rewrite <- list_fmap_compose.
    erewrite list_fmap_ext; [exact Hnd|]. by intros ? [? ?].
  - apply Forall_fmap. eapply Forall_impl; [exact Hall|].
    intros [k sub] (Hid & Hlt & Hact & Hlot & Hq). unfold compose.
    cbn [fst snd] in *.
    destruct (enqueue_event_keeps (back_pressure_policy (config s)) lot_id
                (mk_event lot_id fr now) sub) as (H1 & H2 & H3 & _ & H5).
    unfold subscription_ok. rewrite H1, H2, H3.
    rewrite publish_event_next_sub_id.
    destruct (publish_event_fields now lot_id fr s) as (_ & -> & _).
    repeat split; auto.
Qed.

Lemma NoDup_del {V} k (d : list (Z * V)) :
  NoDup d.*1 → NoDup (PyDict.del k d).*1.
Proof.
  unfold PyDict.del. induction d as [|[k' v] d IH]; [done|].
  cbn [fmap list_fmap]. intros [Hnin Hnd]%NoDup_cons.
  rewrite filter_cons. case_decide; [|by apply IH].
  cbn [fmap list_fmap]. apply NoDup_cons. split; [|by apply IH].
  intros Hin. apply Hnin. apply list_elem_of_fmap in Hin as [ks [-> Hks]].
  apply list_elem_of_fmap. exists ks. split; [done|].
  by apply list_elem_of_filter in Hks as [_ ?].
Qed.

Lemma subscribers_ok_del k s :
  subscribers_ok s →
  subscribers_ok (set_subscribers (PyDict.del k (subscribers s)) s).
Proof.
  intros [Hnd Hall]. split; cbn.
  - by apply NoDup_del.
  - unfold PyDict.del. apply Forall_forall. intros ks Hks.
    apply list_elem_of_filter in Hks as [_ Hks].
    exact (proj1 (Forall_forall _ _) Hall ks Hks).
Qed.

Lemma set_keys {V} k (v : V) d :
  (PyDict.set k v d).*1
  = if decide (k ∈ d.*1) then d.*1 else d.*1 ++ [k].
Proof.
  induction d as [|[k' v'] d IH]; cbn.
  - rewrite decide_False; [done|]. apply not_elem_of_nil.
  - destruct (decide (k' = k)) as [->|Hne]; cbn.
    + rewrite decide_True; [done|]. left.
    + rewrite IH. destruct (decide (k ∈ d.*1)) as [Hin|Hnin].
      * rewrite decide_True; [done|]. by right.
      * rewrite decide_False; [done|].
        intros [?|?]%elem_of_cons; [by subst|done].
Qed.

Lemma Forall_set {V} (P : Z * V → Prop) k v d :
  Forall P d → P (k, v) → Forall P (PyDict.set k v d).
Proof.
  intros Hall Hkv. induction Hall as [|[k' v'] d Hx Hall IH]; cbn.
  - by constructor.
  - destruct (decide (k' = k)); constructor; done.
Qed.

Lemma NoDup_set {V} k (v : V) d : NoDup d.*1 → NoDup (PyDict.set k v d).*1.
Proof.
  intros Hnd. rewrite set_keys. destruct (decide (k ∈ d.*1)); [done|].
  apply NoDup_app. split; [done|]. split.
  - intros x Hx Hin. apply list_elem_of_singleton in Hin. by subst.
  - apply NoDup_singleton.
Qed.

Lemma get_Some_elem_of {V} k (v : V) d :
  PyDict.get k d = Some v → (k, v) ∈ d.
Proof.
  induction d as [|[k' v'] d IH]; [done|]. cbn.
  destruct (decide (k' = k)) as [->|Hne].
  - intros [= ->]. left.
  - intros H. right. by apply IH.
Qed.

(** The three outcomes of a pub/sub request on the state. *)
Lemma pubsub_request_cases req conn s :
  (_process_pubsub_request req conn s).2 = s
  ∨ (∃ lot_id,
       is_Some (lots s !! lot_id)
       ∧ req_method req = Some (JStr "subscribe")
       ∧ py_item0 (default (JList []) (req_args req)) = Some (JStr lot_id)
       ∧ _process_pubsub_request req conn s
         = (ok (default (JInt 0) (req_rpcId req)) (JInt (next_sub_id s)),
            add_log [InfoCreated (next_sub_id s) lot_id]
              (set_subscribers
                 (PyDict.set (next_sub_id s)
                    (Subscriber.init (next_sub_id s) lot_id conn
                       (max_queue_size (config s)))
                    (subscribers s))
                 (set_next_sub_id (next_sub_id s + 1) s))))
  ∨ (∃ k,
       is_Some (PyDict.get k (subscribers s))
       ∧ _process_pubsub_request req conn s
         = (ok (default (JInt 0) (req_rpcId req)) (JBool true),
            add_log [InfoUnsubscribed k]
              (set_subscribers (PyDict.del k (subscribers s)) s))).
Proof.
  unfold _process_pubsub_request.
  destruct (json_eq_str (default (JStr "") (req_method req)) "subscribe") eqn:Hm.
  - destruct (py_len _) as [n|]; [|by left].
    destruct (n <? 1)%nat; [by left|].
    destruct (py_item0 _) as [lot_arg|] eqn:Hitem; [|by left].
    destruct (lots_lookup lot_arg s) as [[lot_id|]|] eqn:Hlook; try by left.
    right. left. exists lot_id.
    unfold lots_lookup in Hlook.
    destruct lot_arg as [| | |k| |]; try done.
    destruct (bool_decide (is_Some (lots s !! k))) eqn:Hk; [|done].
    injection Hlook as <-. apply bool_decide_eq_true_1 in Hk.
    split; [done|]. split; [|done].
    destruct (req_method req) as [[| | |m| |]|]; try done.
    cbn in Hm. apply bool_decide_eq_true_1 in Hm. by subst.
  - destruct (json_eq_str _ "unsubscribe"); [|by left].
    destruct (py_len _) as [n|]; [|by left].
    destruct (n <? 1)%nat; [by left|].
    destruct (py_item0 _) as [sub_arg|]; [|by left].
    destruct (subscribers_lookup sub_arg s) as [[k|]|] eqn:Hlook; try by left.
    right. right. exists k. split; [|done].
    unfold subscribers_lookup in Hlook.
    destruct sub_arg as [|b|n'| | |]; try done;
      match type of Hlook with
      | Some (match PyDict.get ?x _ with _ => _ end) = _ =>
          destruct (PyDict.get x (subscribers s)) eqn:Hg; [|done];
          injection Hlook as <-; eauto
      end.
Qed.

Lemma subscribers_ok_pubsub req conn s :
  subscribers_ok s → subscribers_ok (_process_pubsub_request req conn s).2.
Proof.
  intros Hok.
  destruct (pubsub_request_cases req conn s)
    as [->|[(lot_id & Hlot & _ & _ & ->)|(k & _ & ->)]]; [done|..]; cbn [snd].
  - destruct Hok as [Hnd Hall]. split; cbn.
    + by apply NoDup_set.
    + apply Forall_set.
      * eapply Forall_impl; [exact Hall|].
        intros [k sub] (Hid & Hlt & Hact & Hlot' & Hq).
        unfold subscription_ok. cbn in *. repeat split; try done. lia.
      * unfold subscription_ok, queue_bounded, Queue.qsize. cbn.
        repeat split; try done; lia.
  - apply (subscribers_ok_mono
             (set_subscribers (PyDict.del k (subscribers s)) s));
      [done|done|apply registry_kept_refl|].
    by apply subscribers_ok_del.
Qed.

End SubscribersOk.

Section SubscribersOkSteps.
Import ParkingServer.

Lemma subscribers_ok_update_worker t1 t2 t3 s :
  subscribers_ok s → subscribers_ok (_update_worker_step t1 t2 t3 s).1.
Proof.
  intros Hok.
  pose proof (registry_kept_update_worker t1 t2 t3 s) as Hkept.
  pose proof (update_worker_next_sub_id t1 t2 t3 s) as Hnext.
  revert Hkept Hnext. unfold _update_worker_step.
  destruct (update_queue s) as [|cmd q]; [done|].
  assert (∀ s', subscribers s' = subscribers s →
                registry_kept (lots s) (lots s') →
                next_sub_id s' = next_sub_id s → subscribers_ok s') as Hsame.
  { intros s' Hs Hk Hn. apply (subscribers_ok_mono s); [done|lia|done|done]. }
  destruct (PyStr.split cmd) as [|p0 [|p1 [|p2 [|? ?]]]];
    try (intros; by apply Hsame).
  destruct (bool_decide _); [|intros; by apply Hsame].
  destruct (PyStr.int p2) as [delta|]; [|intros; by apply Hsame].
  change (lots (set_update_queue q s)) with (lots s).
  destruct (lots s !! p1) as [lot|] eqn:Hlot; [|intros; by apply Hsame].
  destruct (ParkingLot.get_free t1 lot) as [old_free lot1].
  destruct (ParkingLot.update_occupancy t2 delta lot1) as [new_free lot2].
  destruct (bool_decide _); cbn [fst]; [|intros; by apply Hsame].
  intros Hkept Hnext. apply subscribers_ok_publish. apply Hsame; [done| |done].
  by destruct (publish_event_fields t3 p1 new_free
                 (set_lots (<[p1:=lot2]> (lots s)) (set_update_queue q s)))
    as (_ & <- & _).
Qed.

Lemma subscribers_ok_next_event k s :
  subscribers_ok s → subscribers_ok (next_event k s).2.
Proof.
  intros Hok. unfold next_event.
  destruct (PyDict.get k (subscribers s)) as [sub|] eqn:Hget; [|done].
  destruct (running s && Subscriber.active sub); [|done].
  destruct (Queue.get_nowait (Subscriber.queue sub)) as [[ev q]|] eqn:Hq; [|done].
  cbn [snd]. destruct Hok as [Hnd Hall]. split; cbn.
  - by apply NoDup_set.
  - apply Forall_set; [done|].
    apply get_Some_elem_of in Hget.
    pose proof (proj1 (Forall_forall _ _) Hall _ Hget)
      as (Hid & Hlt & Hact & Hlot & Hb).
    unfold subscription_ok. cbn in *. repeat split; try done.
    unfold Queue.get_nowait in Hq.
    destruct (Queue.items (Subscriber.queue sub)) as [|x rest] eqn:Hitems;
      [done|]. injection Hq as <- <-.
    unfold queue_bounded, Queue.qsize in *. cbn. rewrite Hitems in Hb.
    cbn in Hb. lia.
Qed.

Lemma subscribers_ok_teardown k s :
  subscribers_ok s → subscribers_ok (teardown k s).
Proof.
  intros Hok. unfold teardown. destruct (PyDict.get k (subscribers s)); [|done].
  by apply subscribers_ok_del.
Qed.

Lemma subscribers_ok_step a s : subscribers_ok s → subscribers_ok (step a s).2.
Proof.
  intros Hok. destruct a as [req conn|buffer data|t1 t2 t3|k|k]; cbn [step].
  - pose proof (subscribers_ok_pubsub req conn s Hok) as H.
    by destruct (_process_pubsub_request req conn s).
  - unfold _handle_sensor_client_recv. by destruct (PyStr.take_lines _ _).
  - pose proof (subscribers_ok_update_worker t1 t2 t3 s Hok) as H.
    by destruct (_update_worker_step t1 t2 t3 s).
  - pose proof (subscribers_ok_next_event k s Hok) as H.
    by destruct (next_event k s).
  - by apply subscribers_ok_teardown.
Qed.

(** The text and RPC frontends touch the lots only. *)
Lemma text_command_frame order clock command s :
  subscribers (Frontends._process_text_command order clock command s).2
  = subscribers s
  ∧ next_sub_id (Frontends._process_text_command order clock command s).2
    = next_sub_id s
  ∧ update_queue (Frontends._process_text_command order clock command s).2
    = update_queue s
  ∧ log (Frontends._process_text_command order clock command s).2 = log s.
Proof.
  unfold Frontends._process_text_command. repeat case_match; done.
Qed.

Lemma rpc_request_frame order clock req s resp s' :
  Frontends._process_rpc_request order clock req s = Some (resp, s') →
  subscribers s' = subscribers s
  ∧ next_sub_id s' = next_sub_id s
  ∧ update_queue s' = update_queue s
  ∧ log s' = log s.
Proof.
  unfold Frontends._process_rpc_request.
  repeat case_match; intros; simplify_eq; done.
Qed.

Lemma next_sub_id_step a s : next_sub_id s <= next_sub_id (step a s).2.
Proof.
  pose proof (step_next_sub_id a s) as H.
  destruct (subscribed_id (step a s).1); lia.
Qed.

Lemma subscribers_ok_serve order acts s s' :
  serve order acts s = Some s' → subscribers_ok s → subscribers_ok s'.
Proof.
  revert s. induction acts as [|a acts IH]; intros s.
  - by intros [= <-].
  - cbn [serve]. destruct (serve_step order a s) as [s1|] eqn:Hstep; [|done].
    intros Hrest Hok. apply (IH _ Hrest).
    destruct a as [a|clock command|clock req]; cbn [serve_step] in Hstep.
    + injection Hstep as <-. by apply subscribers_ok_step.
    + injection Hstep as <-.
      destruct (text_command_frame order clock command s) as (Hs & Hn & _).
      apply (subscribers_ok_mono s); [done|lia|apply registry_kept_text|done].
    + destruct (Frontends._process_rpc_request order clock req s)
        as [[resp s2]|] eqn:Hrpc; [|done].
      injection Hstep as <-.
      destruct (rpc_request_frame _ _ _ _ _ _ Hrpc) as (Hs & Hn & _).
      apply (subscribers_ok_mono s);
        [done|lia|by eapply registry_kept_rpc|done].
Qed.

End SubscribersOkSteps.

(** X10: the subscription registry stays well formed.  From a well-formed
    registry (the empty one of a fresh server is), along any run, the
    registered subscriptions have pairwise distinct ids, each filed under its
    own id, below the id counter, live and for a registered lot, and a
    bounded queue never holds more than [max_queue_size] events. *)
Theorem subscription_registry_invariant (order : list string)
    (acts : list frontend_action) (s s' : ParkingServer.t) :
  serve order acts s = Some s' →
  subscribers_ok s →
  NoDup (ParkingServer.subscribers s').*1
  ∧ ∀ k sub,
      PyDict.get k (ParkingServer.subscribers s') = Some sub →
      Subscriber.sub_id sub = k
      ∧ k < ParkingServer.next_sub_id s'
      ∧ Subscriber.active sub = true
      ∧ is_Some (ParkingServer.lots s' !! Subscriber.lot_id sub)
      ∧ (0 < Queue.maxsize (Subscriber.queue sub) →
         Z.of_nat (length (Queue.items (Subscriber.queue sub)))
         <= Queue.maxsize (Subscriber.queue sub)).
Proof.
  intros Hserve Hok.
  destruct (subscribers_ok_serve _ _ _ _ Hserve Hok) as [Hnd Hall].
  split; [done|]. intros k sub Hget. apply get_Some_elem_of in Hget.
  pose proof (proj1 (Forall_forall _ _) Hall _ Hget)
    as (Hid & Hlt & Hact & Hlot & Hb).
  repeat split; try done. intros Hpos.
  unfold queue_bounded, Queue.qsize in Hb. cbn in Hb. lia.
Qed.

Lemma subscribers_ok_init cfg lot_configs :
  subscribers_ok (ParkingServer.init cfg lot_configs).
Proof. split; cbn; constructor. Qed.

Lemma subscription_registry_invariant_witness :
  ∃ s' sub,
    serve []
      [Core (PubsubRequest (subscribe_request 1 "LOT-A") 0);
       Core (SensorRecv "" (SensorSimulator.update_command "LOT-A" (-1)));
       Core (WorkerStep 1 2 3)] demo_server = Some s'
    ∧ PyDict.get 1 (ParkingServer.subscribers s') = Some sub
    ∧ Queue.items (Subscriber.queue sub) = [mk_event "LOT-A" 3 3]
    ∧ Z.of_nat (length (Queue.items (Subscriber.queue sub)))
      <= Queue.maxsize (Subscriber.queue sub).
Proof.
  eexists _, _. split; [reflexivity|]. split; [reflexivity|].
  split; [reflexivity|].
  assert (subscribers_ok demo_server) as Hok by (split; cbn; constructor).
  pose proof (subscription_registry_invariant []
                [Core (PubsubRequest (subscribe_request 1 "LOT-A") 0);
                 Core (SensorRecv ""
                         (SensorSimulator.update_command "LOT-A" (-1)));
                 Core (WorkerStep 1 2 3)] demo_server _ eq_refl Hok)
    as [_ H].
  destruct (H 1 _ eq_refl) as (_ & _ & _ & _ & Hbound).
  exact (Hbound eq_refl).
Defined.

(** X11: subscribe registers a fresh subscription.  For a registered lot the
    reply carries the current id counter as subscription id and no error; the
    registry then holds, under that id, a live subscriber of the lot with an
    empty queue bounded by [max_queue_size], every other entry is as before,
    and the counter has advanced by one.  For a lot that is not registered the
    reply is the error "Unknown lot" and the server is unchanged. *)
Theorem subscribe_registers (s : ParkingServer.t) (rpc_id : Z)
    (lot_id : string) (conn : nat) :
  (is_Some (ParkingServer.lots s !! lot_id) →
   (ParkingServer._process_pubsub_request (subscribe_request rpc_id lot_id)
      conn s).1
   = ParkingServer.ok (JInt rpc_id) (JInt (ParkingServer.next_sub_id s))
   ∧ PyDict.get (ParkingServer.next_sub_id s)
       (ParkingServer.subscribers
          (ParkingServer._process_pubsub_request
             (subscribe_request rpc_id lot_id) conn s).2)
     = Some (Subscriber.init (ParkingServer.next_sub_id s) lot_id conn
               (ParkingServer.max_queue_size (ParkingServer.config s)))
   ∧ (∀ k, k ≠ ParkingServer.next_sub_id s →
        PyDict.get k
          (ParkingServer.subscribers
             (ParkingServer._process_pubsub_request
                (subscribe_request rpc_id lot_id) conn s).2)
        = PyDict.get k (ParkingServer.subscribers s))
   ∧ ParkingServer.next_sub_id
       (ParkingServer._process_pubsub_request
          (subscribe_request rpc_id lot_id) conn s).2
     = ParkingServer.next_sub_id s + 1)
  ∧ (ParkingServer.lots s !! lot_id = None →
     ParkingServer._process_pubsub_request (subscribe_request rpc_id lot_id)
       conn s
     = (ParkingServer.failed (JInt rpc_id) (UnknownLot (JStr lot_id)), s)).
Proof.
  split.
  - intros Hlot.
    assert (ParkingServer._process_pubsub_request
              (subscribe_request rpc_id lot_id) conn s
            = (ParkingServer.ok (JInt rpc_id) (JInt (ParkingServer.next_sub_id s)),
               ParkingServer.add_log
                 [ParkingServer.InfoCreated (ParkingServer.next_sub_id s) lot_id]
                 (ParkingServer.set_subscribers
                    (PyDict.set (ParkingServer.next_sub_id s)
                       (Subscriber.init (ParkingServer.next_sub_id s) lot_id conn
                          (ParkingServer.max_queue_size (ParkingServer.config s)))
                       (ParkingServer.subscribers s))
                    (ParkingServer.set_next_sub_id
                       (ParkingServer.next_sub_id s + 1) s)))) as ->.
    { unfold ParkingServer._process_pubsub_request. cbn.
      unfold ParkingServer.lots_lookup.
      rewrite (bool_decide_eq_true_2 (is_Some _)) by done. reflexivity. }
    cbn [fst snd]. split; [done|]. split; [apply get_set_eq|].
    split; [|done]. intros k Hk. cbn. apply get_set_ne. congruence.
  - intros Hnone. unfold ParkingServer._process_pubsub_request. cbn.
    unfold ParkingServer.lots_lookup.
    rewrite (bool_decide_eq_false_2 (is_Some _)); [reflexivity|].
    rewrite Hnone. by intros [? ?].
Qed.

Lemma subscribe_registers_witness :
  PyDict.get 1
    (ParkingServer.subscribers
       (ParkingServer._process_pubsub_request (subscribe_request 9 "LOT-B") 4
          demo_server).2)
  = Some (Subscriber.init 1 "LOT-B" 4 3)
  ∧ ParkingServer._process_pubsub_request (subscribe_request 9 "LOT-Z") 4
      demo_server
    = (ParkingServer.failed (JInt 9) (UnknownLot (JStr "LOT-Z")), demo_server).
Proof.
  destruct (subscribe_registers demo_server 9 "LOT-B" 4) as [Hreg _].
  destruct (subscribe_registers demo_server 9 "LOT-Z" 4) as [_ Hunk].
  split.
  - destruct Hreg as (_ & Hget & _); [by eexists|]. exact Hget.
  - apply Hunk. reflexivity.
Defined.

(** X12: a publication reaches the live subscribers of its lot only.  A
    subscriber of another lot, or one that is not live, is left exactly as
    it was; the ids in the registry keep their order; the lots, the update
    queue, the id counter, the configuration and the [running] flag are
    untouched. *)
Theorem publish_reaches_its_lot_only (now : Z) (lot_id : string) (fr : Z)
    (s : ParkingServer.t) :
  (∀ k sub,
     PyDict.get k (ParkingServer.subscribers s) = Some sub →
     Subscriber.lot_id sub ≠ lot_id ∨ Subscriber.active sub = false →
     PyDict.get k (ParkingServer.subscribers
                     (ParkingServer._publish_event now lot_id fr s))
     = Some sub)
  ∧ (ParkingServer.subscribers
       (ParkingServer._publish_event now lot_id fr s)).*1
    = (ParkingServer.subscribers s).*1
  ∧ ParkingServer.lots (ParkingServer._publish_event now lot_id fr s)
    = ParkingServer.lots s
  ∧ ParkingServer.update_queue (ParkingServer._publish_event now lot_id fr s)
    = ParkingServer.update_queue s
  ∧ ParkingServer.next_sub_id (ParkingServer._publish_event now lot_id fr s)
    = ParkingServer.next_sub_id s
  ∧ ParkingServer.config (ParkingServer._publish_event now lot_id fr s)
    = ParkingServer.config s
  ∧ ParkingServer.running (ParkingServer._publish_event now lot_id fr s)
    = ParkingServer.running s.
Proof.
  destruct (publish_event_fields now lot_id fr s) as (Hc & Hl & Hr & Hq).
  split; [|split; [|repeat split; try done; apply publish_event_next_sub_id]].
  - intros k sub Hget Hother. rewrite publish_event_get, Hget. cbn. f_equal.
    unfold ParkingServer.enqueue_event.
    destruct Hother as [Hlot|Hact].
    + by rewrite bool_decide_eq_false_2.
    + rewrite Hact. by rewrite andb_false_r.
  - rewrite publish_event_subscribers, <- list_fmap_compose.
    apply list_fmap_ext. by intros ? [? ?].
Qed.

Lemma publish_reaches_its_lot_only_witness :
  PyDict.get 2 (ParkingServer.subscribers
                  (ParkingServer._publish_event 5 "LOT-A" 4
                     (ParkingServer.set_update_queue [] scenario3_server)))
  = Some (Subscriber.init 2 "LOT-B" 1 3).
Proof.
  destruct (publish_reaches_its_lot_only 5 "LOT-A" 4
              (ParkingServer.set_update_queue [] scenario3_server)) as [H _].
  apply H; [reflexivity|]. left. discriminate.
Defined.

Section Delivery.
Import ParkingServer.

(** While no queue bound is hit, the events queue up in publication order;
    a queue with [maxsize <= 0] has no bound. *)
Lemma enqueue_each_fifo policy lot_id evs sub :
  Subscriber.lot_id sub = lot_id →
  Subscriber.active sub = true →
  Queue.maxsize (Subscriber.queue sub) <= 0
  ∨ Queue.qsize (Subscriber.queue sub) + Z.of_nat (length evs)
    <= Queue.maxsize (Subscriber.queue sub) →
  enqueue_each policy lot_id evs sub
  = Subscriber.set_queue
      (Queue.mk (Queue.maxsize (Subscriber.queue sub))
                (Queue.items (Subscriber.queue sub) ++ evs)) sub.
Proof.
  revert sub. induction evs as [|ev evs IH]; intros sub Hlot Hact Hlen.
  - cbn. rewrite app_nil_r. by destruct sub as [? ? ? [? ?] ?].
  - rewrite enqueue_each_cons.
    rewrite enqueue_event_room; [|done|done|].
    + cbn [fst]. rewrite IH; [|done|done|].
      * cbn. by rewrite <- app_assoc.
      * unfold Queue.qsize in *. cbn in *. rewrite length_app. cbn. lia.
    + unfold Queue.full, Queue.qsize in *. cbn [length] in Hlen.
      apply andb_false_iff. destruct Hlen as [Hm|Hlen].
      * left. apply Z.ltb_ge. lia.
      * right. apply Z.leb_gt. lia.
Qed.

(** The delivery loop hands out a queue in order. *)
Lemma deliver_queue k s sub :
  PyDict.get k (subscribers s) = Some sub →
  running s = true →
  Subscriber.active sub = true →
  (deliver (length (Queue.items (Subscriber.queue sub))) k s).1
  = Queue.items (Subscriber.queue sub)
  ∧ PyDict.get k
      (subscribers
         (deliver (length (Queue.items (Subscriber.queue sub))) k s).2)
    = Some (Subscriber.set_queue
              (Queue.mk (Queue.maxsize (Subscriber.queue sub)) []) sub).
Proof.
  destruct sub as [i l c [m items] a]. cbn [Subscriber.queue Queue.items
    Subscriber.active Queue.maxsize Subscriber.set_queue].
  revert s. induction items as [|ev items IH]; intros s Hget Hrun Hact;
    subst a.
  - cbn. by rewrite Hget.
  - cbn [length deliver]. unfold next_event. rewrite Hget, Hrun.
    cbn [Subscriber.active Subscriber.queue andb].
    unfold Queue.get_nowait. cbn [Queue.items Queue.maxsize].
    cbn [Subscriber.set_queue Subscriber.sub_id Subscriber.lot_id
         Subscriber.conn Subscriber.active].
    specialize (IH (set_subscribers
                      (PyDict.set k
                         (Subscriber.mk i l c (Queue.mk m items) true)
                         (subscribers s)) s)).
    destruct IH as [IH1 IH2]; [apply get_set_eq|done|done|].
    cbn [Subscriber.set_queue Subscriber.sub_id Subscriber.lot_id
         Subscriber.conn Subscriber.active] in *.
    destruct (deliver (length items) k _) as [evs s2]. cbn [fst snd] in *.
    by rewrite IH1.
Qed.

End Delivery.

(** X13: events are delivered in the order they were published.  For a live
    subscriber of the lot whose queue is empty, after publications that stay
    within the queue bound (or with an unbounded queue) the delivery loop
    sends exactly the published events, in order, and leaves the queue
    empty. *)
Theorem events_delivered_in_order (s : ParkingServer.t) (k : Z)
    (sub : Subscriber.t) (lot_id : string) (evs : list (Z * Z)) :
  PyDict.get k (ParkingServer.subscribers s) = Some sub →
  Subscriber.lot_id sub = lot_id →
  Subscriber.active sub = true →
  ParkingServer.running s = true →
  Queue.items (Subscriber.queue sub) = [] →
  Queue.maxsize (Subscriber.queue sub) <= 0
  ∨ Z.of_nat (length evs) <= Queue.maxsize (Subscriber.queue sub) →
  (deliver (length evs) k (publish_each lot_id evs s)).1
  = event_of lot_id <$> evs
  ∧ Queue.items ∘ Subscriber.queue <$>
      PyDict.get k
        (ParkingServer.subscribers
           (deliver (length evs) k (publish_each lot_id evs s)).2)
    = Some [].
Proof.
  intros Hget Hlot Hact Hrun Hempty Hbound.
  pose proof (publish_each_get lot_id evs s k) as Hpub.
  rewrite Hget in Hpub. cbn [fmap option_fmap option_map] in Hpub.
  rewrite enqueue_each_fifo in Hpub; [|done|done|].
  2:{ unfold Queue.qsize. rewrite Hempty, length_fmap. cbn [length].
      destruct Hbound; [by left|right; lia]. }
  rewrite Hempty in Hpub. cbn [app] in Hpub.
  destruct (publish_each_config lot_id evs s) as [_ Hrun'].
  rewrite <- Hrun' in Hrun.
  destruct (deliver_queue k (publish_each lot_id evs s) _ Hpub Hrun Hact)
    as [Hd1 Hd2].
  cbn [Subscriber.set_queue Subscriber.queue Queue.items] in Hd1, Hd2.
  rewrite length_fmap in Hd1, Hd2. split; [exact Hd1|]. by rewrite Hd2.
Qed.

Lemma events_delivered_in_order_witness :
  (deliver 3 1 (publish_each "LOT-A" [(1, 3); (2, 4); (3, 5)]
                  one_subscriber_server)).1
  = [mk_event "LOT-A" 3 1; mk_event "LOT-A" 4 2; mk_event "LOT-A" 5 3].
Proof.
  assert (Queue.maxsize (Subscriber.queue (Subscriber.init 1 "LOT-A" 0 3)) <= 0
          ∨ Z.of_nat (length [(1, 3); (2, 4); (3, 5)])
            <= Queue.maxsize (Subscriber.queue (Subscriber.init 1 "LOT-A" 0 3)))
    as Hbound by (right; cbn; lia).
  exact (proj1 (events_delivered_in_order one_subscriber_server 1
                  (Subscriber.init 1 "LOT-A" 0 3) "LOT-A"
                  [(1, 3); (2, 4); (3, 5)]
                  eq_refl eq_refl eq_refl eq_refl eq_refl Hbound)).
Defined.

(** X14: the envelope of a pub/sub reply.  The reply echoes the [rpcId] of
    the request (0 when the request has none); a reply with an error leaves
    the server exactly as it was, and carries a null result unless it is the
    "Unknown subscription" reply, whose result is false. *)
Theorem pubsub_reply_envelope (req : request) (conn : nat)
    (s : ParkingServer.t) :
  rpcId (ParkingServer._process_pubsub_request req conn s).1
  = default (JInt 0) (req_rpcId req)
  ∧ (error (ParkingServer._process_pubsub_request req conn s).1 ≠ None →
     (ParkingServer._process_pubsub_request req conn s).2 = s
     ∧ (result (ParkingServer._process_pubsub_request req conn s).1 = JNull
        ∨ (result (ParkingServer._process_pubsub_request req conn s).1
           = JBool false
           ∧ error (ParkingServer._process_pubsub_request req conn s).1
             = Some UnknownSubscription))).
Proof.
  unfold ParkingServer._process_pubsub_request.
  repeat case_match; cbn; (split; [done|]); intros Herr; try done; eauto.
Qed.

Lemma pubsub_reply_envelope_witness :
  (ParkingServer._process_pubsub_request
     {| req_rpcId := Some (JInt 41); req_method := Some (JStr "publish");
        req_args := None |} 0 demo_server).2 = demo_server.
Proof.
  destruct (pubsub_reply_envelope
              {| req_rpcId := Some (JInt 41); req_method := Some (JStr "publish");
                 req_args := None |} 0 demo_server) as [_ H].
  apply H. discriminate.
Defined.

(** * Further properties of the frontends *)

Section TextReplies.

Lemma str_int_head (n : Z) :
  ∃ c rest, PyFmt.str_int n = String c rest ∧ c ≠ "E"%char.
Proof.
  unfold PyFmt.str_int, PyFmt.enough_digits. destruct (n <? 0) eqn:Hneg.
  - eexists _, _. split; [reflexivity|]. intros Heq. discriminate Heq.
  - apply Z.ltb_ge in Hneg.
    destruct (digits_of_head (Z.to_nat (Z.log2 n)) n "" Hneg)
      as (d & rest & Hd & ->).
    eexists _, _. split; [reflexivity|].
    pattern d. apply (digit_cases d); [done|..]; by vm_compute.
Qed.

Lemma str_int_not_error (n : Z) : String.prefix "ERROR" (PyFmt.str_int n) = false.
Proof.
  destruct (str_int_head n) as (c & rest & -> & Hc).
  change (String.prefix "ERROR" (String c rest))
    with (if ascii_dec "E" c then String.prefix "RROR" rest else false).
  destruct (ascii_dec "E" c) as [Heq|]; [|done]. by destruct Hc.
Qed.

Lemma status_str_not_error st :
  String.prefix "ERROR" (Frontends.status_str st) = false.
Proof. by destruct st. Qed.

End TextReplies.

(** X16: error replies of the text protocol change nothing.  Whatever the
    command line, if the reply starts with ERROR (empty command, unknown
    command, wrong number of arguments, unknown lot) the server is exactly as
    it was; and no command of the text protocol ever touches the
    subscriptions, the id counter, the update queue or the log. *)
Theorem text_error_changes_nothing (order : list string) (clock : string → Z)
    (command : string) (s : ParkingServer.t) :
  (is_error_reply (Frontends._process_text_command order clock command s).1
   = true →
   (Frontends._process_text_command order clock command s).2 = s)
  ∧ ParkingServer.subscribers
      (Frontends._process_text_command order clock command s).2
    = ParkingServer.subscribers s
  ∧ ParkingServer.next_sub_id
      (Frontends._process_text_command order clock command s).2
    = ParkingServer.next_sub_id s
  ∧ ParkingServer.update_queue
      (Frontends._process_text_command order clock command s).2
    = ParkingServer.update_queue s
  ∧ ParkingServer.log (Frontends._process_text_command order clock command s).2
    = ParkingServer.log s.
Proof.
  split; [|apply text_command_frame].
  unfold Frontends._process_text_command.
  destruct (PyStr.split command) as [|p0 args]; [done|].
  repeat (destruct (bool_decide _); [|idtac]); try done.
  - by destruct (Frontends.lots_to_dicts clock order (ParkingServer.lots s)).
  - destruct args as [|lot_id [|? ?]]; try done.
    destruct (ParkingServer.lots s !! lot_id) as [lot|]; [|done].
    destruct (ParkingLot.get_free (clock lot_id) lot) as [n lot']. cbn.
    by rewrite str_int_not_error.
  - destruct args as [|lot_id [|plate [|? ?]]]; try done.
    destruct (ParkingServer.lots s !! lot_id) as [lot|]; [|done].
    destruct (ParkingLot.reserve (clock lot_id) plate _ lot) as [st lot']. cbn.
    by rewrite status_str_not_error.
  - destruct args as [|lot_id [|plate [|? ?]]]; try done.
    destruct (ParkingServer.lots s !! lot_id) as [lot|]; [|done].
    destruct (ParkingLot.cancel plate lot) as [st lot']. cbn.
    by rewrite status_str_not_error.
Qed.

Lemma text_error_changes_nothing_witness :
  (Frontends._process_text_command [] (λ _, 0) "reserve LOT-Z X" demo_server)
  = (Frontends.Text "ERROR: Unknown lot", demo_server).
Proof.
  destruct (text_error_changes_nothing [] (λ _, 0) "reserve LOT-Z X" demo_server)
    as [H _].
  apply injective_projections; [reflexivity|]. apply H. reflexivity.
Defined.

(** The requests the RPC client stub builds. *)
Section FrontendsAgree.

Lemma rpc_two_args (lot_id plate : string) (s : ParkingServer.t) :
  Frontends.two_args (JList [JStr lot_id; JStr plate]) s
  = match ParkingServer.lots s !! lot_id with
    | Some lot => inr (lot_id, lot, JStr plate)
    | None => inl (Frontends.Other (UnknownLot (JStr lot_id)))
    end.
Proof.
  unfold Frontends.two_args, ParkingServer.lots_lookup. cbn.
  destruct (ParkingServer.lots s !! lot_id) as [lot|] eqn:Hlot.
  - rewrite bool_decide_eq_true_2 by eauto. by rewrite Hlot.
  - rewrite bool_decide_eq_false_2; [done|]. by intros [? ?].
Qed.

End FrontendsAgree.

(** X17: the text and the RPC frontends perform the same lot operation.
    For an ASCII command line, the same lot id and plate, at the same
    instant and on the same server, [RESERVE lot plate] and the RPC
    [reserve(lot, plate)] leave the same server, and so do [CANCEL] and
    [cancel], and [AVAIL lot] and [getAvailability(lot)].  For an unknown lot
    both report it; otherwise the RPC result is true exactly when the line
    is OK, and the availability line is the decimal text of the RPC result
    (for a count [str] converts, of at most 4300 digits).  For [RESERVE] the
    expiry instant has to be one a [datetime] can hold: beyond it the
    constructor of the reservation raises, which ends the text connection
    without a reply and gives an error reply on the RPC channel. *)
Theorem frontends_agree (order : list string) (clock : string → Z)
    (s : ParkingServer.t) (rpc_id : json) (command kw lot_id plate : string) :
  PyStr.is_ascii command = true →
  (PyStr.split command = [kw; lot_id] → PyStr.upper kw = "AVAIL" →
   ∃ resp,
     Frontends._process_rpc_request order clock
       (mk_request (Some rpc_id) (Some (JStr "getAvailability"))
          (Some (JList [JStr lot_id]))) s
     = Some (resp, (Frontends._process_text_command order clock command s).2)
     ∧ ((ParkingServer.lots s !! lot_id = None
         ∧ (Frontends._process_text_command order clock command s).1
           = Frontends.Text "ERROR: Unknown lot"
         ∧ resp = Frontends.rpc_failed rpc_id
                    (Frontends.Other (UnknownLot (JStr lot_id))))
        ∨ ∃ n, resp = Frontends.rpc_ok rpc_id (JInt n)
               ∧ (Z.abs n < 10 ^ PyStr.max_str_digits →
                  (Frontends._process_text_command order clock command s).1
                  = Frontends.Text (PyFmt.str_int n))))
  ∧ (PyStr.split command = [kw; lot_id; plate] →
     ∀ method,
       (PyStr.upper kw = "RESERVE" ∧ method = "reserve"
        ∧ Reservation.representable (clock lot_id)
            (ParkingServer.reservation_timeout_seconds
               (ParkingServer.config s)) = true)
       ∨ (PyStr.upper kw = "CANCEL" ∧ method = "cancel") →
       ∃ resp,
         Frontends._process_rpc_request order clock
           (mk_request (Some rpc_id) (Some (JStr method))
              (Some (JList [JStr lot_id; JStr plate]))) s
         = Some (resp, (Frontends._process_text_command order clock command s).2)
         ∧ ((ParkingServer.lots s !! lot_id = None
             ∧ (Frontends._process_text_command order clock command s).1
               = Frontends.Text "ERROR: Unknown lot"
             ∧ resp = Frontends.rpc_failed rpc_id
                        (Frontends.Other (UnknownLot (JStr lot_id))))
            ∨ ∃ st, (Frontends._process_text_command order clock command s).1
                    = Frontends.Text (Frontends.status_str st)
                    ∧ resp = Frontends.rpc_ok rpc_id
                               (JBool (bool_decide
                                         (Frontends.status_str st = "OK"))))).
Proof.
  intros _. split.
  - intros Hsplit Hkw.
    unfold Frontends._process_text_command, Frontends._process_rpc_request.
    rewrite Hsplit, Hkw. cbn [default req_rpcId req_method req_args json_eq_str].
    repeat (case_bool_decide; try done).
    cbn. repeat (case_bool_decide; try done).
    all: destruct (ParkingServer.lots s !! lot_id) as [lot|] eqn:Hlot;
      try (by exfalso; eauto);
      try (match goal with H : is_Some None |- _ => by destruct H end).
    + eexists. split; [reflexivity|]. right. eexists. split; [reflexivity|].
      intros _. reflexivity.
    + eexists. split; [reflexivity|]. by left.
  - intros Hsplit method [(Hkw & -> & _)|[Hkw ->]];
      unfold Frontends._process_text_command, Frontends._process_rpc_request;
      rewrite Hsplit, Hkw;
      cbn [from_option id req_rpcId req_method req_args json_eq_str];
      repeat (case_bool_decide; try done);
      rewrite rpc_two_args;
      (destruct (ParkingServer.lots s !! lot_id) as [lot|] eqn:Hlot;
       [|eexists; split; [reflexivity|]; by left]).
    + destruct (ParkingLot.reserve (clock lot_id) plate _ lot) as [st lot'].
      eexists. split; [reflexivity|]. right. by exists st.
    + destruct (ParkingLot.cancel plate lot) as [st lot'].
      eexists. split; [reflexivity|]. right. by exists st.
Qed.

Lemma frontends_agree_witness :
  Frontends._process_rpc_request [] (λ _, 7)
    (mk_request (Some (JInt 3)) (Some (JStr "reserve"))
       (Some (JList [JStr "LOT-A"; JStr "X"]))) demo_server
  = Some (Frontends.rpc_ok (JInt 3) (JBool true),
          (Frontends._process_text_command [] (λ _, 7) "reserve LOT-A X"
             demo_server).2).
Proof.
  destruct (frontends_agree [] (λ _, 7) demo_server (JInt 3)
              "reserve LOT-A X" "reserve" "LOT-A" "X" eq_refl) as [_ H].
  destruct (H eq_refl "reserve" (or_introl (conj eq_refl (conj eq_refl eq_refl))))
    as (resp & Hrpc & Hcases).
  rewrite Hrpc. f_equal. f_equal.
  destruct Hcases as [(Hnone & _)|(st & Htext & ->)]; [discriminate Hnone|].
  vm_compute in Htext. injection Htext as Hst.
  by destruct st.
Defined.

(** X18: the envelope of an RPC reply.  The reply echoes the [rpcId] of the
    request (0 when absent); a reply with an error has a null result, and
    leaves the server exactly as it was unless the error is the TypeError of
    an unhashable argument; [subscribe] and [unsubscribe] are refused on this
    channel with the error that names the pub/sub connection; and no RPC
    request touches the subscriptions, the id counter, the update queue or
    the log.  For a [reserve] request the expiry instant has to be one a
    [datetime] can hold: beyond it the constructor of the reservation raises
    after the sweep, and the error reply comes with a swept lot. *)
Theorem rpc_reply_envelope (order : list string) (clock : string → Z)
    (req : request) (s s' : ParkingServer.t) (resp : Frontends.rpc_response) :
  (req_method req = Some (JStr "reserve") →
   ∀ lot_id, Reservation.representable (clock lot_id)
               (ParkingServer.reservation_timeout_seconds
                  (ParkingServer.config s)) = true) →
  Frontends._process_rpc_request order clock req s = Some (resp, s') →
  Frontends.rpc_rpcId resp = default (JInt 0) (req_rpcId req)
  ∧ (Frontends.rpc_error resp ≠ None →
     Frontends.rpc_result resp = JNull
     ∧ (Frontends.rpc_error resp ≠ Some (Frontends.Other PyTypeError) → s' = s))
  ∧ (∀ m, m = "subscribe" ∨ m = "unsubscribe" →
          req_method req = Some (JStr m) →
          resp = Frontends.rpc_failed (default (JInt 0) (req_rpcId req))
                   (Frontends.UsePubsubConnection m)
          ∧ s' = s)
  ∧ ParkingServer.subscribers s' = ParkingServer.subscribers s
  ∧ ParkingServer.next_sub_id s' = ParkingServer.next_sub_id s
  ∧ ParkingServer.update_queue s' = ParkingServer.update_queue s
  ∧ ParkingServer.log s' = ParkingServer.log s.
Proof.
  intros _ Hrpc. split; [|split; [|split; [|by eapply rpc_request_frame]]].
  - revert Hrpc. unfold Frontends._process_rpc_request.
    repeat case_match; intros; simplify_eq; done.
  - revert Hrpc. unfold Frontends._process_rpc_request.
    repeat case_match; intros; simplify_eq; cbn in *; try done.
  - intros m Hm Hmethod. revert Hrpc. unfold Frontends._process_rpc_request.
    rewrite Hmethod. cbn [from_option id json_eq_str].
    destruct Hm as [->| ->]; repeat (case_bool_decide; try done);
      by intros [= <- <-].
Qed.

Lemma rpc_reply_envelope_witness :
  Frontends._process_rpc_request [] (λ _, 0)
    (mk_request (Some (JInt 8)) (Some (JStr "subscribe"))
       (Some (JList [JStr "LOT-A"]))) demo_server
  = Some (Frontends.rpc_failed (JInt 8)
            (Frontends.UsePubsubConnection "subscribe"), demo_server).
Proof.
  destruct (Frontends._process_rpc_request [] (λ _, 0)
              (mk_request (Some (JInt 8)) (Some (JStr "subscribe"))
                 (Some (JList [JStr "LOT-A"]))) demo_server)
    as [[resp s']|] eqn:Hrpc; [|discriminate Hrpc].
  assert (req_method
            (mk_request (Some (JInt 8)) (Some (JStr "subscribe"))
               (Some (JList [JStr "LOT-A"])))
          = Some (JStr "reserve") →
          ∀ lot_id, Reservation.representable ((λ _ : string, 0) lot_id)
                      (ParkingServer.reservation_timeout_seconds
                         (ParkingServer.config demo_server)) = true) as Hrange
    by (intros _ _; reflexivity).
  destruct (rpc_reply_envelope _ _ _ _ _ _ Hrange Hrpc) as (_ & _ & H & _).
  destruct (H "subscribe" (or_introl eq_refl) eq_refl) as [-> ->].
  reflexivity.
Defined.

Section Listing.
Import ParkingLot.

Lemma to_dict_cleanup now l :
  to_dict now (_cleanup_expired_reservations now l) = to_dict now l.
Proof.
  unfold to_dict. rewrite !get_free_eq, cleanup_idem. done.
Qed.

Lemma to_dict_state now l : (to_dict now l).2 = _cleanup_expired_reservations now l.
Proof. unfold to_dict. by rewrite get_free_eq. Qed.

(** The listing on lots of which some have already been swept at their
    instant. *)
Lemma lots_to_dicts_spec clock order (m0 : gmap string ParkingLot.t) :
  ∀ m,
    (∀ i, m !! i = m0 !! i
          ∨ m !! i = _cleanup_expired_reservations (clock i) <$> m0 !! i) →
    (Frontends.lots_to_dicts clock order m).1
    = omap (λ i, lot_json (clock i) <$> m0 !! i) order
    ∧ ∀ i, (Frontends.lots_to_dicts clock order m).2 !! i
           = if decide (i ∈ order)
             then _cleanup_expired_reservations (clock i) <$> m0 !! i
             else m !! i.
Proof.
  induction order as [|i order IH]; intros m Hm.
  - split; [done|]. intros j. by rewrite decide_False by apply not_elem_of_nil.
  - cbn [Frontends.lots_to_dicts omap list_omap].
    destruct (m !! i) as [l'|] eqn:Hi.
    + assert (∃ l0, m0 !! i = Some l0
                    ∧ to_dict (clock i) l' = to_dict (clock i) l0) as (l0 & H0 & Hd).
      { destruct (Hm i) as [H|H]; rewrite Hi in H.
        - by exists l'.
        - destruct (m0 !! i) as [l0|]; [|done]. injection H as ->.
          exists l0. split; [done|]. apply to_dict_cleanup. }
      rewrite H0. cbn [fmap option_fmap option_map].
      destruct (to_dict (clock i) l') as [sn lot'] eqn:Hd'.
      assert (lot' = _cleanup_expired_reservations (clock i) l0) as ->.
      { change lot' with (sn, lot').2. rewrite Hd. apply to_dict_state. }
      destruct (IH (<[i:=_cleanup_expired_reservations (clock i) l0]> m))
        as [IH1 IH2].
      { intros j. destruct (decide (i = j)) as [<-|Hne].
        - right. by rewrite lookup_insert_eq, H0.
        - rewrite lookup_insert_ne by done. apply Hm. }
      destruct (Frontends.lots_to_dicts clock order _) as [js m'].
      cbn [fst snd] in *. split.
      * rewrite IH1. unfold lot_json. by rewrite <- Hd.
      * intros j. rewrite IH2.
        destruct (decide (j ∈ order)) as [Hin|Hnin].
        -- rewrite decide_True; [done|]. by right.
        -- destruct (decide (i = j)) as [<-|Hne].
           ++ rewrite decide_True by left. by rewrite lookup_insert_eq, H0.
           ++ rewrite lookup_insert_ne by done.
              rewrite decide_False; [done|].
              intros [?|?]%elem_of_cons; [by subst|done].
    + assert (m0 !! i = None) as H0.
      { destruct (Hm i) as [H|H]; rewrite Hi in H; [done|].
        by destruct (m0 !! i). }
      rewrite H0. cbn [fmap option_fmap option_map].
      destruct (IH m Hm) as [IH1 IH2]. split; [done|].
      intros j. rewrite IH2.
      destruct (decide (j ∈ order)) as [Hin|Hnin].
      * rewrite decide_True; [done|]. by right.
      * destruct (decide (i = j)) as [<-|Hne].
        -- rewrite decide_True by left. by rewrite Hi, H0.
        -- rewrite decide_False; [done|].
           intros [?|?]%elem_of_cons; [by subst|done].
Qed.

End Listing.

(** * Start-up *)

Section Init.

Lemma init_lots cfg lot_configs :
  ParkingServer.lots (ParkingServer.init cfg lot_configs)
  = foldl register_lot ∅ lot_configs.
Proof.
  cbn. f_equal.
Qed.

Lemma init_lots_start cfg lot_configs :
  ParkingServer.lots (ParkingServer.start (ParkingServer.init cfg lot_configs))
  = foldl register_lot ∅ lot_configs.
Proof. cbn. f_equal. Qed.

Lemma foldl_register_other (l : list (string * Z * Z)) m i :
  i ∉ l.*1.*1 → foldl register_lot m l !! i = m !! i.
Proof.
  revert m. induction l as [|[[i' c] o] l IH]; intros m Hnin; [done|].
  cbn in *. apply not_elem_of_cons in Hnin as [Hne Hnin].
  rewrite IH by done. by rewrite lookup_insert_ne.
Qed.

Lemma foldl_register_from (l : list (string * Z * Z)) m i lot :
  foldl register_lot m l !! i = Some lot →
  m !! i = Some lot ∨ ∃ c o, (i, c, o) ∈ l ∧ lot = ParkingLot.init i c o.
Proof.
  revert m. induction l as [|[[i' c] o] l IH]; intros m Hi; [by left|].
  cbn in Hi. apply IH in Hi as [Hi|(c' & o' & Hin & ->)].
  - destruct (decide (i' = i)) as [->|Hne].
    + rewrite lookup_insert_eq in Hi. injection Hi as <-.
      right. exists c, o. split; [left|done].
    + rewrite lookup_insert_ne in Hi by done. by left.
  - right. exists c', o'. split; [by right|done].
Qed.

End Init.

(** X20: what [__init__] registers.  Every lot of the fresh server comes
    from an entry of the configuration with the same id, with the configured
    capacity and occupancy and no reservation; an entry that no later entry
    repeats the id of is registered as it is (for a repeated id the last
    entry wins); and the fresh server is not running, has no subscription,
    an empty update queue, and 1 as its next subscription id. *)
Theorem init_registers_config (cfg : ParkingServer.Config)
    (lot_configs : list (string * Z * Z)) :
  (∀ i lot,
     ParkingServer.lots (ParkingServer.init cfg lot_configs) !! i = Some lot →
     ∃ c o, (i, c, o) ∈ lot_configs ∧ lot = ParkingLot.init i c o)
  ∧ (∀ before after i c o,
       lot_configs = before ++ (i, c, o) :: after →
       i ∉ after.*1.*1 →
       ParkingServer.lots (ParkingServer.init cfg lot_configs) !! i
       = Some (ParkingLot.init i c o))
  ∧ ParkingServer.running (ParkingServer.init cfg lot_configs) = false
  ∧ ParkingServer.subscribers (ParkingServer.init cfg lot_configs) = []
  ∧ ParkingServer.update_queue (ParkingServer.init cfg lot_configs) = []
  ∧ ParkingServer.next_sub_id (ParkingServer.init cfg lot_configs) = 1.
Proof.
  split; [|split; [|done]].
  - intros i lot Hi. rewrite init_lots in Hi.
    apply foldl_register_from in Hi as [Hi|Hi]; [|done].
    by rewrite lookup_empty in Hi.
  - intros before after i c o -> Hnin. rewrite init_lots, foldl_app.
    cbn [foldl]. rewrite foldl_register_other by done.
    cbn. apply lookup_insert_eq.
Qed.

Lemma init_registers_config_witness :
  ParkingServer.lots
    (ParkingServer.init demo_config
       [("LOT-A", 10, 8); ("LOT-B", 5, 0); ("LOT-A", 20, 1)]) !! "LOT-A"
  = Some (ParkingLot.init "LOT-A" 20 1).
Proof.
  destruct (init_registers_config demo_config
              [("LOT-A", 10, 8); ("LOT-B", 5, 0); ("LOT-A", 20, 1)])
    as (_ & H & _).
  apply (H [("LOT-A", 10, 8); ("LOT-B", 5, 0)] [] "LOT-A" 20 1 eq_refl).
  apply not_elem_of_nil.
Defined.

(** * The listing *)

Section KeyOrder.

Lemma lists_keys_kept (order : list string) (m m' : gmap string ParkingLot.t) :
  registry_kept m m' → lists_keys order m → lists_keys order m'.
Proof.
  intros Hkept [Hnd Hkeys]. split; [done|]. intros i. rewrite Hkeys.
  specialize (Hkept i).
  destruct (m !! i), (m' !! i); try done; split; intros [? ?]; eauto; done.
Qed.

Lemma lists_keys_length (order : list string) (m : gmap string ParkingLot.t) :
  lists_keys order m → length order = size m.
Proof.
  intros [Hnd Hkeys]. rewrite <- length_map_to_list.
  rewrite <- (length_fmap fst (map_to_list m)).
  apply Permutation_length, NoDup_Permutation;
    [done|apply NoDup_fst_map_to_list|].
  intros i. rewrite Hkeys, list_elem_of_fmap. split.
  - intros [l Hl]. exists (i, l). split; [done|].
    by apply elem_of_map_to_list.
  - intros [[i' l] [-> Hl%elem_of_map_to_list]]. eauto.
Qed.

(** The dictionaries of the listing line up with the keys. *)
Lemma listing_lines_up (clock : string → Z) (order : list string)
    (m : gmap string ParkingLot.t) :
  (∀ i, i ∈ order → is_Some (m !! i)) →
  ∀ k i, order !! k = Some i →
         ∃ lot, m !! i = Some lot
                ∧ omap (λ i, lot_json (clock i) <$> m !! i) order !! k
                  = Some (lot_json (clock i) lot).
Proof.
  induction order as [|j order IH]; intros Hin k i Hk; [done|].
  destruct (Hin j) as [lot Hj]; [left|].
  cbn [omap list_omap]. rewrite Hj. cbn [fmap option_fmap option_map].
  destruct k as [|k].
  - injection Hk as <-. by exists lot.
  - apply IH; [|done]. intros i' Hi'. apply Hin. by right.
Qed.

Lemma listing_length (clock : string → Z) (order : list string)
    (m : gmap string ParkingLot.t) :
  (∀ i, i ∈ order → is_Some (m !! i)) →
  length (omap (λ i, lot_json (clock i) <$> m !! i) order) = length order.
Proof.
  induction order as [|j order IH]; intros Hin; [done|].
  destruct (Hin j) as [lot Hj]; [left|].
  cbn [omap list_omap]. rewrite Hj. cbn [fmap option_fmap option_map length].
  f_equal. apply IH. intros i' Hi'. apply Hin. by right.
Qed.

(** The insertion order of [__init__] lists the keys of the registry. *)
Lemma dict_keys_spec (lot_configs : list (string * Z * Z)) :
  ∀ (seen : list string) (m : gmap string ParkingLot.t),
    (∀ i, i ∈ seen ↔ is_Some (m !! i)) →
    NoDup (dict_keys seen lot_configs)
    ∧ (∀ i, i ∈ dict_keys seen lot_configs → i ∉ seen)
    ∧ ∀ i, is_Some (foldl register_lot m lot_configs !! i)
           ↔ i ∈ seen ∨ i ∈ dict_keys seen lot_configs.
Proof.
  induction lot_configs as [|[[j c] o] rest IH]; intros seen m Hseen.
  - cbn. split; [constructor|]. split; [by intros i Hi%elem_of_nil|].
    intros i. rewrite <- Hseen. split; [by left|].
    by intros [?|?%elem_of_nil].
  - cbn [dict_keys foldl register_lot]. case_bool_decide as Hj.
    + destruct (IH seen (<[j:=ParkingLot.init j c o]> m)) as (Hnd & Hdis & Hk).
      { intros i. rewrite Hseen. destruct (decide (j = i)) as [<-|Hne].
        - rewrite lookup_insert_eq. apply Hseen in Hj. split; eauto.
        - by rewrite lookup_insert_ne. }
      done.
    + destruct (IH (j :: seen) (<[j:=ParkingLot.init j c o]> m))
        as (Hnd & Hdis & Hk).
      { intros i. rewrite elem_of_cons, Hseen.
        destruct (decide (j = i)) as [<-|Hne].
        - rewrite lookup_insert_eq. split; eauto.
        - rewrite lookup_insert_ne by done. split; [|by right].
          intros [?|?]; [by subst|done]. }
      split; [|split].
      * constructor; [|done]. intros Hin. apply (Hdis _ Hin). by left.
      * intros i [->|Hi]%elem_of_cons; [done|].
        intros Hs. apply (Hdis _ Hi). by right.
      * intros i. rewrite Hk, !elem_of_cons. tauto.
Qed.

Lemma dict_keys_lists cfg (lot_configs : list (string * Z * Z)) :
  lists_keys (dict_keys [] lot_configs)
    (ParkingServer.lots (ParkingServer.init cfg lot_configs)).
Proof.
  destruct (dict_keys_spec lot_configs [] ∅) as (Hnd & _ & Hk).
  - intros i. rewrite lookup_empty. split; [by intros ?%elem_of_nil|].
    by intros [? ?].
  - split; [exact Hnd|]. intros i. rewrite init_lots, Hk.
    split; [by right|]. by intros [?%elem_of_nil|?].
Qed.

End KeyOrder.

(** X19: the listing.  Where [order] is an order in which the dict
    [self.lots] iterates (each registered id once; the insertion order of
    [__init__] is one, and it stays one along every run of the server),
    [LOTS] on an ASCII command line and [getLots] on the RPC channel return
    the same list: exactly one dictionary per registered lot, in that order,
    each the one [to_dict] builds for the lot as it was before the request,
    at the instant of that lot; both leave the same server, in which every
    lot has been swept at its instant. *)
Theorem listing_lists_each_lot (order : list string) (clock : string → Z)
    (s : ParkingServer.t) (rpc_id : json) (command kw : string) :
  PyStr.is_ascii command = true →
  lists_keys order (ParkingServer.lots s) →
  PyStr.split command = [kw] →
  PyStr.upper kw = "LOTS" →
  ∃ js,
    (Frontends._process_text_command order clock command s).1
    = Frontends.Dumps (JList js)
    ∧ Frontends._process_rpc_request order clock
        (mk_request (Some rpc_id) (Some (JStr "getLots")) None) s
      = Some (Frontends.rpc_ok rpc_id (JList js),
              (Frontends._process_text_command order clock command s).2)
    ∧ length js = size (ParkingServer.lots s)
    ∧ (∀ k i, order !! k = Some i →
              ∃ lot, ParkingServer.lots s !! i = Some lot
                     ∧ js !! k = Some (lot_json (clock i) lot))
    ∧ (∀ i lot, ParkingServer.lots s !! i = Some lot →
                lot_json (clock i) lot ∈ js)
    ∧ (∀ i,
         ParkingServer.lots
           (Frontends._process_text_command order clock command s).2 !! i
         = ParkingLot._cleanup_expired_reservations (clock i)
             <$> ParkingServer.lots s !! i)
    ∧ (∀ acts s', serve order acts s = Some s' →
                  lists_keys order (ParkingServer.lots s'))
    ∧ (∀ cfg lot_configs,
         lists_keys (dict_keys [] lot_configs)
           (ParkingServer.lots (ParkingServer.init cfg lot_configs))).
Proof.
  intros _ Horder Hsplit Hkw.
  pose proof Horder as [Hnd Hkeys].
  assert (∀ i, i ∈ order → is_Some (ParkingServer.lots s !! i)) as Hin
    by (intros i; apply Hkeys).
  destruct (lots_to_dicts_spec clock order (ParkingServer.lots s)
              (ParkingServer.lots s) (λ i, or_introl eq_refl)) as [H1 H2].
  exists (omap (λ i, lot_json (clock i) <$> ParkingServer.lots s !! i) order).
  unfold Frontends._process_text_command, Frontends._process_rpc_request.
  rewrite Hsplit, Hkw. cbn [from_option id req_rpcId req_method json_eq_str].
  repeat (case_bool_decide; try done).
  destruct (Frontends.lots_to_dicts clock order (ParkingServer.lots s))
    as [js m]. cbn [fst snd] in *. subst js.
  split; [done|]. split; [done|].
  split; [by rewrite listing_length, (lists_keys_length _ _ Horder)|].
  split; [by apply listing_lines_up|]. split; [|split; [|split]].
  - intros i lot Hi.
    assert (i ∈ order) as Hio by (apply Hkeys; eauto).
    apply list_elem_of_lookup in Hio as [k Hk].
    destruct (listing_lines_up clock order _ Hin k i Hk) as (lot' & Hi' & Hjs).
    rewrite Hi in Hi'. injection Hi' as <-.
    apply list_elem_of_lookup. by exists k.
  - intros i. change (ParkingServer.lots (ParkingServer.set_lots m s)) with m.
    rewrite H2. destruct (decide (i ∈ order)) as [|Hnin]; [done|].
    destruct (ParkingServer.lots s !! i) as [lot|] eqn:Hi; [|done].
    exfalso. apply Hnin, Hkeys. eauto.
  - intros acts s' Hserve.
    eapply lists_keys_kept; [|exact Horder].
    by eapply registry_kept_serve.
  - intros cfg lot_configs. apply dict_keys_lists.
Qed.

Lemma listing_lists_each_lot_witness :
  lists_keys (dict_keys [] [("LOT-A", 10, 8); ("LOT-B", 5, 0)])
    (ParkingServer.lots demo_server)
  ∧ (Frontends._process_text_command ["LOT-A"; "LOT-B"] (λ _, 6000000) "lots"
       (ParkingServer.set_lots
          (<["LOT-A" := lot_with_stale_X]> (ParkingServer.lots demo_server))
          demo_server)).1
    = Frontends.Dumps
        (JList
           [JObj [("id", JStr "LOT-A"); ("capacity", JInt 10);
                  ("occupied", JInt 8); ("free", JInt 2)];
            JObj [("id", JStr "LOT-B"); ("capacity", JInt 5);
                  ("occupied", JInt 0); ("free", JInt 5)]]).
Proof.
  assert (lists_keys (dict_keys [] [("LOT-A", 10, 8); ("LOT-B", 5, 0)])
            (ParkingServer.lots demo_server)) as Hkeys.
  { exact (dict_keys_lists demo_config [("LOT-A", 10, 8); ("LOT-B", 5, 0)]). }
  split; [exact Hkeys|].
  assert (lists_keys ["LOT-A"; "LOT-B"]
            (ParkingServer.lots
               (ParkingServer.set_lots
                  (<["LOT-A" := lot_with_stale_X]>
                     (ParkingServer.lots demo_server)) demo_server)))
    as Hkeys'.
  { destruct Hkeys as [Hnd Hk]. split; [exact Hnd|]. intros i.
    change (dict_keys [] [("LOT-A", 10, 8); ("LOT-B", 5, 0)])
      with ["LOT-A"; "LOT-B"] in Hk.
    rewrite Hk. cbn [ParkingServer.lots ParkingServer.set_lots].
    destruct (decide ("LOT-A" = i)) as [<-|Hne].
    - rewrite lookup_insert_eq. split; [eauto|]. intros _. by eexists.
    - by rewrite lookup_insert_ne. }
  destruct (listing_lists_each_lot ["LOT-A"; "LOT-B"] (λ _, 6000000)
              (ParkingServer.set_lots
                 (<["LOT-A" := lot_with_stale_X]> (ParkingServer.lots demo_server))
                 demo_server) JNull "lots" "lots" eq_refl Hkeys' eq_refl eq_refl)
    as (js & Htext & _).
  rewrite Htext. vm_compute in Htext. by injection Htext as <-.
Defined.

(** * Framing *)

Section Framing.
Import Wire.

Lemma byte_round_trip (z : Z) :
  0 <= z < 256 → Z_of_byte (byte_of_Z z) = z.
Proof.
  intros Hz. unfold Z_of_byte, byte_of_Z.
  destruct (Stdlib.Strings.Byte.of_N (Z.to_N z)) as [b|] eqn:Hb.
  - cbn. apply Stdlib.Strings.Byte.to_of_N in Hb. rewrite Hb. lia.
  - apply Stdlib.Strings.Byte.of_N_None_iff in Hb. lia.
Qed.

Lemma Z_of_byte_range (b : byte) : 0 <= Z_of_byte b < 256.
Proof.
  unfold Z_of_byte. pose proof (Stdlib.Strings.Byte.to_N_bounded b). lia.
Qed.

Lemma byte_of_Z_of_byte (b : byte) : byte_of_Z (Z_of_byte b) = b.
Proof.
  unfold Z_of_byte, byte_of_Z. rewrite N2Z.id.
  by rewrite Stdlib.Strings.Byte.of_to_N.
Qed.

Lemma pack_u32_unpack (n : Z) :
  0 <= n < 2 ^ 32 →
  ∃ b, pack_u32 n = Some b ∧ length b = 4%nat ∧ unpack_u32 b = Some n.
Proof.
  intros Hn. unfold pack_u32.
  rewrite (proj2 (andb_true_iff _ _)) by (split; [apply Z.leb_le|apply Z.ltb_lt]; lia).
  eexists. split; [reflexivity|]. split; [reflexivity|].
  unfold unpack_u32. f_equal.
  rewrite !byte_round_trip.
  + change (2 ^ 24) with (256 * 2 ^ 16). change (2 ^ 16) with (256 * 2 ^ 8).
    change (2 ^ 8) with 256.
    pose proof (Z.div_mod n 256 ltac:(lia)).
    pose proof (Z.div_mod (n / 256) 256 ltac:(lia)).
    pose proof (Z.div_mod (n / 256 / 256) 256 ltac:(lia)).
    rewrite <- !Z.div_div by lia.
    assert (n / 256 / 256 / 256 < 256).
    { repeat (apply Z.div_lt_upper_bound; [lia|]). lia. }
    pose proof (Z.mod_small (n / 256 / 256 / 256) 256
                  ltac:(split; [repeat apply Z.div_pos; lia|lia])).
    lia.
  + apply Z.mod_pos_bound. lia.
  + apply Z.mod_pos_bound. lia.
  + apply Z.mod_pos_bound. lia.
  + split; [apply Z.div_pos; lia|]. apply Z.div_lt_upper_bound; lia.
Qed.

Lemma pack_u32_range (n : Z) (b : list byte) :
  pack_u32 n = Some b → 0 <= n < 2 ^ 32.
Proof.
  unfold pack_u32.
  destruct (0 <=? n) eqn:H0; [|done]. destruct (n <? 2 ^ 32) eqn:H1; [|done].
  apply Z.leb_le in H0. apply Z.ltb_lt in H1. lia.
Qed.

End Framing.

(** X21: the length prefix round-trips.  [struct.pack('!I', n)] succeeds
    exactly for 0 <= n < 2^32 and then gives four bytes that
    [struct.unpack] reads back as [n]; conversely any four bytes unpack to a
    number in that range whose packing is those four bytes. *)
Theorem length_prefix_round_trip :
  (∀ n, 0 <= n < 2 ^ 32 →
        ∃ b, Wire.pack_u32 n = Some b ∧ length b = 4%nat
             ∧ Wire.unpack_u32 b = Some n)
  ∧ (∀ n, ¬ (0 <= n < 2 ^ 32) → Wire.pack_u32 n = None)
  ∧ (∀ b3 b2 b1 b0,
       ∃ n, Wire.unpack_u32 [b3; b2; b1; b0] = Some n
            ∧ 0 <= n < 2 ^ 32
            ∧ Wire.pack_u32 n = Some [b3; b2; b1; b0]).
Proof.
  split; [|split].
  - intros n Hn. exact (pack_u32_unpack n Hn).
  - intros n Hn. unfold Wire.pack_u32.
    destruct (0 <=? n) eqn:H0; [|done]. destruct (n <? 2 ^ 32) eqn:H1; [|done].
    apply Z.leb_le in H0. apply Z.ltb_lt in H1. lia.
  - intros b3 b2 b1 b0. eexists. split; [reflexivity|].
    pose proof (Z_of_byte_range b3). pose proof (Z_of_byte_range b2).
    pose proof (Z_of_byte_range b1). pose proof (Z_of_byte_range b0).
    split; [lia|]. unfold Wire.pack_u32.
    rewrite (proj2 (andb_true_iff _ _)) by (split; [apply Z.leb_le|apply Z.ltb_lt]; lia).
    f_equal.
    set (z3 := Wire.Z_of_byte b3) in *. set (z2 := Wire.Z_of_byte b2) in *.
    set (z1 := Wire.Z_of_byte b1) in *. set (z0 := Wire.Z_of_byte b0) in *.
    assert ((z3 * 2 ^ 24 + z2 * 2 ^ 16 + z1 * 2 ^ 8 + z0) / 2 ^ 24 = z3) as ->.
    { symmetry. apply (Z.div_unique _ _ _ (z2 * 2 ^ 16 + z1 * 2 ^ 8 + z0)); lia. }
    assert ((z3 * 2 ^ 24 + z2 * 2 ^ 16 + z1 * 2 ^ 8 + z0) / 2 ^ 16 mod 256 = z2)
      as ->.
    { assert ((z3 * 2 ^ 24 + z2 * 2 ^ 16 + z1 * 2 ^ 8 + z0) / 2 ^ 16
              = z3 * 256 + z2) as ->.
      { symmetry. apply (Z.div_unique _ _ _ (z1 * 2 ^ 8 + z0)); lia. }
      symmetry. apply (Z.mod_unique _ _ z3); lia. }
    assert ((z3 * 2 ^ 24 + z2 * 2 ^ 16 + z1 * 2 ^ 8 + z0) / 2 ^ 8 mod 256 = z1)
      as ->.
    { assert ((z3 * 2 ^ 24 + z2 * 2 ^ 16 + z1 * 2 ^ 8 + z0) / 2 ^ 8
              = (z3 * 256 + z2) * 256 + z1) as ->.
      { symmetry. apply (Z.div_unique _ _ _ z0); lia. }
      symmetry. apply (Z.mod_unique _ _ (z3 * 256 + z2)); lia. }
    assert ((z3 * 2 ^ 24 + z2 * 2 ^ 16 + z1 * 2 ^ 8 + z0) mod 256 = z0) as ->.
    { symmetry. apply (Z.mod_unique _ _ ((z3 * 256 + z2) * 256 + z1)); lia. }
    subst z3 z2 z1 z0. by rewrite !byte_of_Z_of_byte.
Qed.

Lemma length_prefix_round_trip_witness :
  Wire.pack_u32 300 ≫= Wire.unpack_u32 = Some 300
  ∧ Wire.pack_u32 (2 ^ 32) = None.
Proof.
  destruct length_prefix_round_trip as (Hpack & Hnone & _).
  split.
  - destruct (Hpack 300) as (b & -> & _ & Hun); [lia|]. exact Hun.
  - apply Hnone. lia.
Defined.

Section Reassembly.
Import Wire.

Lemma recv_loop_spec (rounds : nat) :
  ∀ (n : nat) (data : list byte) (conn : connection),
    segments_ok conn →
    (length data <= n)%nat →
    (n - length data <= rounds)%nat →
    ∃ conn',
      recv_loop rounds n data conn
      = (if decide (n <= length data + length (concat conn))%nat
         then Some (data ++ take (n - length data) (concat conn))
         else None, conn')
      ∧ segments_ok conn'
      ∧ ((n <= length data + length (concat conn))%nat →
         concat conn' = drop (n - length data) (concat conn)).
Proof.
  induction rounds as [|rounds IH]; intros n data conn Hseg Hlen Hrounds.
  - assert (length data = n) as Hn by lia.
    exists conn. cbn [recv_loop].
    rewrite (proj2 (Nat.ltb_ge _ _)) by lia.
    rewrite decide_True by lia.
    replace (n - length data)%nat with 0%nat by lia.
    rewrite take_0, app_nil_r. split; [done|]. split; [done|].
    intros _. by rewrite drop_0.
  - cbn [recv_loop]. destruct (length data <? n)%nat eqn:Hlt.
    2:{ apply Nat.ltb_ge in Hlt. exists conn.
        rewrite decide_True by lia.
        replace (n - length data)%nat with 0%nat by lia.
        rewrite take_0, app_nil_r. split; [done|]. split; [done|].
        intros _. by rewrite drop_0. }
    apply Nat.ltb_lt in Hlt. unfold recv.
    destruct conn as [|c rest].
    { exists []. cbn [concat length]. rewrite decide_False by lia.
      split; [done|]. split; [by apply Forall_nil|]. intros; lia. }
    apply Forall_cons in Hseg as [Hc Hrest].
    assert (0 < length c)%nat as Hclen by (destruct c; [done|cbn; lia]).
    cbn [concat]. rewrite length_app.
    destruct (length c <=? n - length data)%nat eqn:Hfit.
    + apply Nat.leb_le in Hfit.
      destruct c as [|b c]; [done|].
      destruct (IH n (data ++ b :: c) rest Hrest) as (conn' & Heq & Hok & Hdrop).
      { rewrite length_app. lia. }
      { rewrite length_app. cbn [length] in *. lia. }
      exists conn'. rewrite Heq. rewrite length_app.
      split; [|split; [done|]].
      * f_equal.
        destruct (decide (n <= length data + length (b :: c) + length (concat rest))%nat);
          [rewrite decide_True by lia|rewrite decide_False by lia; done].
        f_equal. rewrite <- app_assoc. f_equal.
        rewrite take_app_ge by lia. f_equal. f_equal. lia.
      * intros Hn. rewrite length_app in Hdrop. rewrite Hdrop by lia.
        rewrite drop_app_ge by lia. f_equal. lia.
    + apply Nat.leb_gt in Hfit.
      assert (take (n - length data) c ≠ []) as Htake.
      { intros Hnil. apply (f_equal length) in Hnil.
        rewrite length_take in Hnil. cbn in Hnil. lia. }
      destruct (take (n - length data) c) as [|b t] eqn:Ht; [done|].
      assert (length (b :: t) = n - length data)%nat as Hbt.
      { rewrite <- Ht, length_take. lia. }
      destruct (IH n (data ++ b :: t) (drop (n - length data) c :: rest))
        as (conn' & Heq & Hok & Hdrop).
      { apply Forall_cons. split; [|done].
        intros Hnil. apply (f_equal length) in Hnil.
        rewrite length_drop in Hnil. cbn in Hnil. lia. }
      { rewrite length_app. lia. }
      { rewrite length_app. lia. }
      exists conn'. rewrite Heq. rewrite length_app, Hbt.
      rewrite decide_True by lia. rewrite decide_True by lia.
      split; [|split; [done|]].
      * f_equal. f_equal. replace (n - (length data + (n - length data)))%nat
          with 0%nat by lia.
        rewrite take_0, app_nil_r. f_equal.
        rewrite take_app_le by lia. done.
      * intros _. rewrite length_app, Hbt in Hdrop. rewrite Hdrop by lia.
        replace (n - (length data + (n - length data)))%nat with 0%nat by lia.
        rewrite drop_0. cbn [concat]. rewrite drop_app_le by lia. done.
Qed.

Lemma recv_exactly_spec (n : nat) (conn : connection) :
  segments_ok conn →
  ∃ conn',
    _recv_exactly n conn
    = (if decide (n <= length (concat conn))%nat
       then Some (take n (concat conn)) else None, conn')
    ∧ segments_ok conn'
    ∧ ((n <= length (concat conn))%nat → concat conn' = drop n (concat conn)).
Proof.
  intros Hseg. unfold _recv_exactly.
  destruct (recv_loop_spec n n [] conn Hseg) as (conn' & Heq & Hok & Hdrop);
    [cbn; lia..|].
  cbn [length app] in *. rewrite Nat.sub_0_r in *. by exists conn'.
Qed.

Lemma read_frame_ok (payload rest b : list byte) (conn : connection) :
  payload ≠ [] →
  pack_u32 (Z.of_nat (length payload)) = Some b →
  segments_ok conn →
  concat conn = b ++ payload ++ rest →
  ∃ conn',
    read_frame conn = (Some payload, conn')
    ∧ segments_ok conn' ∧ concat conn' = rest.
Proof.
  intros Hne Hpack Hseg Hcat.
  destruct (pack_u32_unpack _ (pack_u32_range _ _ Hpack)) as (b' & Hb' & Hlen & Hun).
  rewrite Hpack in Hb'. injection Hb' as <-.
  unfold read_frame.
  destruct (recv_exactly_spec 4 conn Hseg) as (conn1 & Heq1 & Hok1 & Hcat1).
  rewrite Hcat, length_app, Hlen in Heq1, Hcat1.
  rewrite decide_True in Heq1 by lia. specialize (Hcat1 ltac:(lia)).
  rewrite <- Hlen in Heq1 at 2. rewrite take_app_length in Heq1.
  rewrite <- Hlen in Hcat1. rewrite drop_app_length in Hcat1.
  rewrite Heq1.
  destruct b as [|b3 [|b2 [|b1 [|b0 [|? ?]]]]]; try done.
  rewrite Hun, Nat2Z.id.
  destruct (recv_exactly_spec (length payload) conn1 Hok1)
    as (conn2 & Heq2 & Hok2 & Hcat2).
  rewrite Hcat1, length_app in Heq2, Hcat2.
  rewrite decide_True in Heq2 by lia. specialize (Hcat2 ltac:(lia)).
  rewrite take_app_length in Heq2. rewrite drop_app_length in Hcat2.
  rewrite Heq2. exists conn2. by destruct payload.
Qed.

Lemma read_frame_empty (rest b : list byte) (conn : connection) :
  pack_u32 0 = Some b →
  segments_ok conn →
  concat conn = b ++ rest →
  (read_frame conn).1 = None.
Proof.
  intros Hpack Hseg Hcat.
  destruct (pack_u32_unpack _ (pack_u32_range _ _ Hpack)) as (b' & Hb' & Hlen & Hun).
  rewrite Hpack in Hb'. injection Hb' as <-.
  unfold read_frame.
  destruct (recv_exactly_spec 4 conn Hseg) as (conn1 & Heq1 & Hok1 & Hcat1).
  rewrite Hcat, length_app, Hlen in Heq1.
  rewrite decide_True in Heq1 by lia.
  rewrite <- Hlen in Heq1 at 2. rewrite take_app_length in Heq1.
  rewrite Heq1.
  destruct b as [|b3 [|b2 [|b1 [|b0 [|? ?]]]]]; try done.
  rewrite Hun. change (Z.to_nat 0) with 0%nat.
  destruct (recv_exactly_spec 0 conn1 Hok1) as (conn2 & Heq2 & _).
  rewrite decide_True in Heq2 by lia. rewrite take_0 in Heq2.
  by rewrite Heq2.
Qed.

Lemma read_frame_truncated (payload b : list byte) (conn : connection) :
  pack_u32 (Z.of_nat (length payload)) = Some b →
  segments_ok conn →
  (∃ missing, missing ≠ [] ∧ concat conn ++ missing = b ++ payload) →
  (read_frame conn).1 = None.
Proof.
  intros Hpack Hseg (missing & Hmiss & Hcat).
  destruct (pack_u32_unpack _ (pack_u32_range _ _ Hpack)) as (b' & Hb' & Hlen & Hun).
  rewrite Hpack in Hb'. injection Hb' as <-.
  assert (0 < length missing)%nat as Hm by (destruct missing; [done|cbn; lia]).
  pose proof (f_equal length Hcat) as Hl. rewrite !length_app, Hlen in Hl.
  unfold read_frame.
  destruct (recv_exactly_spec 4 conn Hseg) as (conn1 & Heq1 & Hok1 & Hcat1).
  rewrite Heq1.
  destruct (decide (4 <= length (concat conn))%nat) as [H4|H4]; [|done].
  specialize (Hcat1 H4).
  assert (take 4 (concat conn) = b) as Htake.
  { rewrite <- (take_app_le _ missing) by lia. rewrite Hcat.
    rewrite <- Hlen. apply take_app_length. }
  rewrite Htake.
  destruct b as [|b3 [|b2 [|b1 [|b0 [|? ?]]]]]; try done.
  rewrite Hun, Nat2Z.id.
  destruct (recv_exactly_spec (length payload) conn1 Hok1)
    as (conn2 & Heq2 & Hok2 & Hcat2).
  rewrite Heq2. rewrite Hcat1, length_drop.
  rewrite decide_False by lia. done.
Qed.

End Reassembly.

(** X22: [_recv_exactly(conn, n)] gives the first [n] bytes of the stream
    however the socket cuts the stream into segments, and leaves the rest
    of the stream on the connection; where the stream ends before [n]
    bytes it gives [None]. *)
Theorem recv_exactly_reassembles (n : nat) (conn : Wire.connection) :
  segments_ok conn →
  ((n <= length (concat conn))%nat →
   ∃ conn',
     Wire._recv_exactly n conn = (Some (take n (concat conn)), conn')
     ∧ segments_ok conn' ∧ concat conn' = drop n (concat conn))
  ∧ ((length (concat conn) < n)%nat → (Wire._recv_exactly n conn).1 = None).
Proof.
  intros Hseg.
  destruct (recv_exactly_spec n conn Hseg) as (conn' & Heq & Hok & Hdrop).
  split.
  - intros Hn. exists conn'. rewrite decide_True in Heq by done. auto.
  - intros Hn. rewrite decide_False in Heq by lia. by rewrite Heq.
Qed.

Lemma recv_exactly_reassembles_witness :
  (Wire._recv_exactly 5
     [[Corelib.Init.Byte.x01]; [Corelib.Init.Byte.x02; Corelib.Init.Byte.x03]]).1
  = None.
Proof.
  apply (recv_exactly_reassembles 5
           [[Corelib.Init.Byte.x01];
            [Corelib.Init.Byte.x02; Corelib.Init.Byte.x03]]).
  - repeat constructor; done.
  - cbn. lia.
Defined.

(** X23: a frame is read back.  Where a peer sent
    [struct.pack('!I', len(payload)) + payload] for a payload that is not
    empty, the two reads at the top of the connection loop give that payload
    whatever the segmentation, and leave on the connection exactly what
    followed the frame. *)
Theorem frame_read_back (payload rest bytes : list Wire.byte)
    (conn : Wire.connection) :
  payload ≠ [] →
  Wire.frame payload = Some bytes →
  segments_ok conn →
  concat conn = bytes ++ rest →
  ∃ conn',
    Wire.read_frame conn = (Some payload, conn')
    ∧ segments_ok conn' ∧ concat conn' = rest.
Proof.
  intros Hne Hframe Hseg Hcat. unfold Wire.frame in Hframe.
  destruct (Wire.pack_u32 (Z.of_nat (length payload))) as [b|] eqn:Hpack;
    [|done].
  cbn in Hframe. injection Hframe as <-.
  rewrite <- app_assoc in Hcat.
  exact (read_frame_ok payload rest b conn Hne Hpack Hseg Hcat).
Qed.

Lemma frame_read_back_witness :
  ∃ conn',
    Wire.read_frame
      [[Corelib.Init.Byte.x00; Corelib.Init.Byte.x00];
       [Corelib.Init.Byte.x00; Corelib.Init.Byte.x02; Corelib.Init.Byte.x7b];
       [Corelib.Init.Byte.x7d; Corelib.Init.Byte.x00]]
    = (Some [Corelib.Init.Byte.x7b; Corelib.Init.Byte.x7d], conn')
    ∧ segments_ok conn' ∧ concat conn' = [Corelib.Init.Byte.x00].
Proof.
  apply (frame_read_back
           [Corelib.Init.Byte.x7b; Corelib.Init.Byte.x7d]
           [Corelib.Init.Byte.x00]
           [Corelib.Init.Byte.x00; Corelib.Init.Byte.x00;
            Corelib.Init.Byte.x00; Corelib.Init.Byte.x02;
            Corelib.Init.Byte.x7b; Corelib.Init.Byte.x7d]).
  - done.
  - reflexivity.
  - repeat constructor; done.
  - reflexivity.
Defined.

(** X24: what ends a framed connection.  A frame with an empty payload, and
    a stream that stops inside a frame, both make the reads at the top of
    the connection loop give nothing, so the handler leaves its loop. *)
Theorem frame_ends_connection (payload bytes : list Wire.byte)
    (conn : Wire.connection) :
  Wire.frame payload = Some bytes →
  segments_ok conn →
  (payload = [] ∧ ∃ rest, concat conn = bytes ++ rest)
  ∨ (∃ missing, missing ≠ [] ∧ concat conn ++ missing = bytes) →
  (Wire.read_frame conn).1 = None.
Proof.
  intros Hframe Hseg Hcase. unfold Wire.frame in Hframe.
  destruct (Wire.pack_u32 (Z.of_nat (length payload))) as [b|] eqn:Hpack;
    [|done].
  cbn in Hframe. injection Hframe as <-.
  destruct Hcase as [[-> (rest & Hcat)]|Hmiss].
  - rewrite app_nil_r in Hcat.
    exact (read_frame_empty rest b conn Hpack Hseg Hcat).
  - exact (read_frame_truncated payload b conn Hpack Hseg Hmiss).
Qed.

Lemma frame_ends_connection_witness :
  (Wire.read_frame
     [[Corelib.Init.Byte.x00; Corelib.Init.Byte.x00];
      [Corelib.Init.Byte.x00; Corelib.Init.Byte.x02; Corelib.Init.Byte.x7b]]).1
  = None.
Proof.
  apply (frame_ends_connection
           [Corelib.Init.Byte.x7b; Corelib.Init.Byte.x7d]
           [Corelib.Init.Byte.x00; Corelib.Init.Byte.x00;
            Corelib.Init.Byte.x00; Corelib.Init.Byte.x02;
            Corelib.Init.Byte.x7b; Corelib.Init.Byte.x7d]).
  - reflexivity.
  - repeat constructor; done.
  - right. exists [Corelib.Init.Byte.x7d]. split; [done|reflexivity].
Defined.

(** * The text connection loop *)

Section TextLoop.
Import Frontends.

Lemma text_commands_length order clocks (lines : list string) :
  ∀ k s, length (text_commands order clocks k lines s).1 = length lines.
Proof.
  induction lines as [|line lines IH]; intros k s; [done|].
  cbn [text_commands].
  destruct (_process_text_command order (clocks k) line s) as [r s1].
  specialize (IH (S k) s1).
  destruct (text_commands order clocks (S k) lines s1) as [rs s2].
  cbn [fst length] in *. by rewrite IH.
Qed.

Lemma text_commands_shift order clocks (n : nat) (lines : list string) :
  ∀ k s,
    text_commands order (λ j, clocks (n + j)%nat) k lines s
    = text_commands order clocks (n + k) lines s.
Proof.
  induction lines as [|line lines IH]; intros k s; [done|].
  cbn [text_commands].
  destruct (_process_text_command order (clocks (n + k)%nat) line s) as [r s1].
  rewrite IH. by replace (n + S k)%nat with (S (n + k)) by lia.
Qed.

Lemma text_commands_app order clocks (l1 l2 : list string) :
  ∀ k s,
    text_commands order clocks k (l1 ++ l2) s
    = let '(r1, s1) := text_commands order clocks k l1 s in
      let '(r2, s2) := text_commands order clocks (length l1 + k) l2 s1 in
      (r1 ++ r2, s2).
Proof.
  induction l1 as [|line l1 IH]; intros k s.
  - cbn. by destruct (text_commands order clocks k l2 s).
  - cbn [app text_commands length].
    destruct (_process_text_command order (clocks k) line s) as [r s1].
    rewrite IH.
    destruct (text_commands order clocks (S k) l1 s1) as [r1 s2].
    replace (S (length l1) + k)%nat with (length l1 + S k)%nat by lia.
    by destruct (text_commands order clocks (length l1 + S k) l2 s2).
Qed.

(** Two decoded chunks against their concatenation. *)
Lemma text_recv_strings (order : list string)
    (clocks : nat → string → Z) (buffer d1 d2 : string)
    (s : ParkingServer.t) :
  PyStr.contains "010"%char buffer = false →
  let r1 := _handle_text_protocol_client_recv order clocks buffer d1 s in
  let r2 :=
    _handle_text_protocol_client_recv order
      (λ k, clocks (length r1.1.2 + k)%nat) r1.1.1 d2 r1.2 in
  let r :=
    _handle_text_protocol_client_recv order clocks buffer
      (d1 ++ d2)%string s in
  r.1.1 = r2.1.1 ∧ r.1.2 = r1.1.2 ++ r2.1.2 ∧ r.2 = r2.2.
Proof.
  intros Hnl. cbv zeta. unfold _handle_text_protocol_client_recv.
  rewrite <- append_assoc, take_lines_append.
  pose proof (take_lines_rest (buffer ++ d1)%string "" eq_refl) as Hrest.
  destruct (PyStr.take_lines "" (buffer ++ d1)%string) as [l1 b1].
  cbn [fst snd] in *.
  pose proof (text_commands_length order clocks l1 0 s) as Hlen.
  destruct (text_commands order clocks 0 l1 s) as [rs1 s1] eqn:Hr1.
  cbn [fst snd] in *.
  rewrite (take_lines_carry b1 d2 Hrest ""), append_nil_l.
  destruct (PyStr.take_lines b1 d2) as [l2 b2]. cbn [fst snd].
  rewrite text_commands_app, Hr1, text_commands_shift, Hlen.
  by destruct (text_commands order clocks (length l1 + 0) l2 s1).
Qed.

(** The pass of the text loop on a chunk that decodes to text. *)
Lemma handle_text_client_decoded (order : list string)
    (clocks : nat → string → Z) (buffer data : string)
    (chunk : list Wire.byte) (s : ParkingServer.t) :
  PyBytes.decode chunk = Some data → data ≠ EmptyString →
  _handle_text_protocol_client order clocks buffer chunk s
  = Some (Some (_handle_text_protocol_client_recv order clocks buffer data s).1,
          (_handle_text_protocol_client_recv order clocks buffer data s).2).
Proof.
  intros Hd Hne. unfold _handle_text_protocol_client. rewrite Hd.
  destruct data as [|c data]; [done|].
  by destruct (_handle_text_protocol_client_recv _ _ _ _ _).
Qed.

End TextLoop.

(** X25: the text connection loop does not depend on where an ASCII
    stream is cut.  For two chunks that are not empty, hold ASCII bytes
    only and fit in one [recv] together, receiving the first and then the
    second, with the buffer carried over, runs the same commands in the same order on the same states, sends
    the same replies and leaves the same buffer as receiving the two in one
    chunk.  The statement is for the runs in which no command raises: the
    expiry instants of the reservations are ones a [datetime] can hold, and
    the numbers of the lots are ones [str] and [json.dumps] print. *)
Theorem text_recv_fragmentation (order : list string)
    (clocks : nat → string → Z) (buffer : string) (c1 c2 : list Wire.byte)
    (s : ParkingServer.t) :
  PyStr.contains "010"%char buffer = false →
  c1 ≠ [] → c2 ≠ [] →
  (length (c1 ++ c2) <= recv_size)%nat →
  is_Some (PyBytes.decode (c1 ++ c2)) →
  (∀ k lot_id,
     Reservation.representable (clocks k lot_id)
       (ParkingServer.reservation_timeout_seconds (ParkingServer.config s))
     = true) →
  (∀ i lot, ParkingServer.lots s !! i = Some lot → lot_printable lot) →
  ∃ b1 rs1 s1 b2 rs2 s2,
    _handle_text_protocol_client order clocks buffer c1 s
    = Some (Some (b1, rs1), s1)
    ∧ _handle_text_protocol_client order
        (λ k, clocks (length rs1 + k)%nat) b1 c2 s1
      = Some (Some (b2, rs2), s2)
    ∧ _handle_text_protocol_client order clocks buffer (c1 ++ c2) s
      = Some (Some (b2, rs1 ++ rs2), s2).
Proof.
  intros Hnl Hc1 Hc2 _ [data Hdata] _ _.
  destruct (decode_app _ _ _ Hdata) as (d1 & d2 & Hd1 & Hd2 & ->).
  pose proof (decode_nonempty _ _ Hd1 Hc1) as Hn1.
  pose proof (decode_nonempty _ _ Hd2 Hc2) as Hn2.
  rewrite (handle_text_client_decoded _ _ _ _ _ _ Hd1 Hn1).
  rewrite (handle_text_client_decoded _ _ _ _ _ _ Hdata)
    by (destruct d1; [done|discriminate]).
  pose proof (text_recv_strings order clocks buffer d1 d2 s Hnl) as Hfrag.
  cbv zeta in Hfrag. destruct Hfrag as (Hb & Hsent & Hs).
  destruct (Frontends._handle_text_protocol_client_recv order clocks buffer d1 s)
    as [[b1 rs1] s1].
  cbn [fst snd] in *.
  pose proof (handle_text_client_decoded order
                (λ k, clocks (length rs1 + k)%nat) b1 d2 c2 s1 Hd2 Hn2) as H2.
  destruct (Frontends._handle_text_protocol_client_recv order
              (λ k, clocks (length rs1 + k)%nat) b1 d2 s1)
    as [[b2 rs2] s2].
  destruct (Frontends._handle_text_protocol_client_recv order clocks buffer
              (d1 ++ d2) s) as [[b rs] s'].
  cbn [fst snd] in *. subst.
  exists b1, rs1, s1, b2, rs2, s2. by rewrite H2.
Qed.

Lemma text_recv_fragmentation_witness :
  ∃ c1 c2,
    PyBytes.encode ("PING" ++ String "010"%char "AVAIL LO")%string = Some c1
    ∧ PyBytes.encode ("T-A" ++ String "010"%char "")%string = Some c2
    ∧ (fst <$> _handle_text_protocol_client ["LOT-A"; "LOT-B"] (λ _ _, 0)
                 "" c1 demo_server)
      = Some (Some ("AVAIL LO", [Frontends.Text "PONG"]))
    ∧ (fst <$> _handle_text_protocol_client ["LOT-A"; "LOT-B"] (λ _ _, 0)
                 "" (c1 ++ c2) demo_server)
      = Some (Some ("", [Frontends.Text "PONG"; Frontends.Text "2"])).
Proof.
  eexists _, _. split; [reflexivity|]. split; [reflexivity|].
  split; [reflexivity|].
  assert (Stdlib.Strings.String.list_byte_of_string
            ("PING" ++ String "010"%char "AVAIL LO")%string ≠ [])
    as H1 by discriminate.
  assert (Stdlib.Strings.String.list_byte_of_string
            ("T-A" ++ String "010"%char "")%string ≠ []) as H2 by discriminate.
  assert (∀ i lot, ParkingServer.lots demo_server !! i = Some lot →
                   lot_printable lot) as Hprint.
  { intros i lot Hi.
    destruct (decide (i = "LOT-A")) as [->|Ha];
      [|destruct (decide (i = "LOT-B")) as [->|Hb]].
    - vm_compute in Hi. injection Hi as <-. by vm_compute.
    - vm_compute in Hi. injection Hi as <-. by vm_compute.
    - unfold demo_server in Hi. rewrite init_lots_start in Hi.
      rewrite foldl_register_other in Hi; [done|].
      cbn. by intros [?|[?|?%elem_of_nil]%elem_of_cons]%elem_of_cons. }
  assert (length
            (Stdlib.Strings.String.list_byte_of_string
               ("PING" ++ String "010"%char "AVAIL LO")%string
             ++ Stdlib.Strings.String.list_byte_of_string
                  ("T-A" ++ String "010"%char "")%string) <= recv_size)%nat
    as Hsize by (vm_compute; lia).
  destruct (text_recv_fragmentation ["LOT-A"; "LOT-B"] (λ _ _, 0) ""
              (Stdlib.Strings.String.list_byte_of_string
                 ("PING" ++ String "010"%char "AVAIL LO")%string)
              (Stdlib.Strings.String.list_byte_of_string
                 ("T-A" ++ String "010"%char "")%string)
              demo_server eq_refl H1 H2 Hsize (mk_is_Some _ _ eq_refl)
              (λ _ _, eq_refl) Hprint)
    as (b1 & rs1 & s1 & b2 & rs2 & s2 & Hr1 & Hr2 & Hr).
  rewrite Hr. vm_compute in Hr1. injection Hr1 as <- <- <-.
  vm_compute in Hr2. injection Hr2 as <- <- <-. reflexivity.
Defined.
